(** * pdf-to-excel: batch orchestration, response parsing and export

    A shallow embedding of [src/services/geminiService.ts] and
    [src/utils/excelHelper.ts], together with the parts of the JavaScript
    platform these files rely on (strings, [parseInt], [JSON.parse],
    [JSON.stringify], own-property order of ordinary objects, the three
    regular expressions the service applies to a response).

    Conventions.
    - A JavaScript string is its sequence of UTF-16 code units, a [list N].
    - A JavaScript number is modelled by [number]: [NaN] or an exact integer.
      Doubles are exact on integers below [2^53]; page counts and page keys
      of real documents stay far below that bound.
    - Code that throws returns a sum: [inl] carries the thrown value; where
      the thrown value is not looked at, an option: [None] is the throw. *)

From Stdlib Require Import List NArith ZArith Lia Bool Ascii String.
From Stdlib Require Import Permutation Sorted.
From Stdlib Require Decimal DecimalN.
Import ListNotations.

Local Open Scope N_scope.
Set Warnings "-register-all".

(* ================================================================== *)
(** * Platform: strings *)

Module JS.

Definition jsstring := list N.

Definition eqb_str (a b : jsstring) : bool :=
  if list_eq_dec N.eq_dec a b then true else false.

(** Decoding of a UTF-8 literal of this file into UTF-16 code units (basic
    multilingual plane, which covers every literal of the sources). *)
Fixpoint utf16_of_bytes (fuel : nat) (bs : list N) : jsstring :=
  match fuel with
  | O => []
  | S fuel' =>
    match bs with
    | [] => []
    | b :: r =>
      if b <? 128 then b :: utf16_of_bytes fuel' r
      else if b <? 224 then
        match r with
        | b1 :: r1 => ((b - 192) * 64 + (b1 - 128)) :: utf16_of_bytes fuel' r1
        | _ => []
        end
      else
        match r with
        | b1 :: b2 :: r2 =>
            ((b - 224) * 4096 + (b1 - 128) * 64 + (b2 - 128))
              :: utf16_of_bytes fuel' r2
        | _ => []
        end
    end
  end.

Definition lit (s : string) : jsstring :=
  let bs := map N_of_ascii (list_ascii_of_string s) in
  utf16_of_bytes (List.length bs) bs.

(** ** Character classes *)

(** [\d] without the unicode flag: the ten ASCII digits. *)
Definition isDigit (c : N) : bool := (48 <=? c) && (c <=? 57).

(** LineTerminator: LF, CR, LS, PS. *)
Definition isLineTerminator (c : N) : bool :=
  (c =? 10) || (c =? 13) || (c =? 8232) || (c =? 8233).

(** [\s] and the set [String.prototype.trim] removes: WhiteSpace and
    LineTerminator. *)
Definition isSpace (c : N) : bool :=
  (c =? 9) || (c =? 10) || (c =? 11) || (c =? 12) || (c =? 13) || (c =? 32)
  || (c =? 160) || (c =? 5760) || ((8192 <=? c) && (c <=? 8202))
  || (c =? 8232) || (c =? 8233) || (c =? 8239) || (c =? 8287)
  || (c =? 12288) || (c =? 65279).

(** ** String.prototype functions used by the sources *)

Fixpoint startsWith (pat s : jsstring) : bool :=
  match pat, s with
  | [], _ => true
  | p :: pat', c :: s' => (p =? c) && startsWith pat' s'
  | _ :: _, [] => false
  end.

Fixpoint trimStart (s : jsstring) : jsstring :=
  match s with
  | c :: s' => if isSpace c then trimStart s' else s
  | [] => []
  end.

Definition trimEnd (s : jsstring) : jsstring := List.rev (trimStart (List.rev s)).

Definition trim (s : jsstring) : jsstring := trimEnd (trimStart s).

(** [s.indexOf(pat)]; [None] stands for -1. *)
Fixpoint indexOf (pat s : jsstring) : option nat :=
  if startsWith pat s then Some O
  else match s with
       | [] => None
       | _ :: s' => option_map S (indexOf pat s')
       end.

Fixpoint lastIndexOf_from (pat s : jsstring) (pos : nat) (best : option nat)
  : option nat :=
  match s with
  | [] => if startsWith pat [] then Some pos else best
  | _ :: s' =>
      lastIndexOf_from pat s' (S pos) (if startsWith pat s then Some pos else best)
  end.

(** [s.lastIndexOf(pat)]; [None] stands for -1. *)
Definition lastIndexOf (pat s : jsstring) : option nat :=
  lastIndexOf_from pat s O None.

(** [s.substring(n)] and [s.substring(0, n)] for [n] within the string. *)
Definition substringFrom (n : nat) (s : jsstring) : jsstring := skipn n s.
Definition substringTo (n : nat) (s : jsstring) : jsstring := firstn n s.

(** [s.includes(pat)]. *)
Definition includes (pat s : jsstring) : bool :=
  match indexOf pat s with Some _ => true | None => false end.

(** ** Numbers *)

Inductive number := NaN | Num (z : Z).

Fixpoint uint_units (d : Decimal.uint) : jsstring :=
  match d with
  | Decimal.Nil => []
  | Decimal.D0 d => 48 :: uint_units d
  | Decimal.D1 d => 49 :: uint_units d
  | Decimal.D2 d => 50 :: uint_units d
  | Decimal.D3 d => 51 :: uint_units d
  | Decimal.D4 d => 52 :: uint_units d
  | Decimal.D5 d => 53 :: uint_units d
  | Decimal.D6 d => 54 :: uint_units d
  | Decimal.D7 d => 55 :: uint_units d
  | Decimal.D8 d => 56 :: uint_units d
  | Decimal.D9 d => 57 :: uint_units d
  end.

(** Decimal text of a natural number, as [String(n)] prints a non-negative
    integer. *)
Definition decimal (n : N) : jsstring := uint_units (N.to_uint n).

(** [String(x)] for a number. *)
Definition String_of_number (x : number) : jsstring :=
  match x with
  | NaN => lit "NaN"
  | Num z => if (z <? 0)%Z then 45 :: decimal (Z.to_N (- z))
             else decimal (Z.to_N z)
  end.

(** Value of a run of decimal digits read left to right. *)
Definition digitsValue (ds : jsstring) : N :=
  fold_left (fun acc c => 10 * acc + (c - 48)) ds 0.

Fixpoint takeDigits (s : jsstring) : jsstring :=
  match s with
  | c :: s' => if isDigit c then c :: takeDigits s' else []
  | [] => []
  end.

Definition isHexDigit (c : N) : bool :=
  isDigit c || ((65 <=? c) && (c <=? 70)) || ((97 <=? c) && (c <=? 102)).

Definition hexDigitValue (c : N) : N :=
  if isDigit c then c - 48
  else if c <=? 70 then c - 55 else c - 87.

Fixpoint takeHexDigits (s : jsstring) : jsstring :=
  match s with
  | c :: s' => if isHexDigit c then c :: takeHexDigits s' else []
  | [] => []
  end.

Definition hexValue (ds : jsstring) : N :=
  fold_left (fun acc c => 16 * acc + hexDigitValue c) ds 0.

Definition splitSign (s : jsstring) : bool * jsstring :=
  match s with
  | c :: r => if c =? 45 then (true, r)
              else if c =? 43 then (false, r) else (false, s)
  | [] => (false, s)
  end.

Definition splitHexPrefix (s : jsstring) : bool * jsstring :=
  match s with
  | c :: d :: r => if (c =? 48) && ((d =? 120) || (d =? 88)) then (true, r)
                   else (false, s)
  | _ => (false, s)
  end.

(** [parseInt(s)] with no radix argument: leading white space, an optional
    sign, an optional [0x] prefix, then the longest run of digits; [NaN]
    when that run is empty. *)
Definition parseInt (s : jsstring) : number :=
  let '(neg, s2) := splitSign (trimStart s) in
  let '(hex, s3) := splitHexPrefix s2 in
  let ds := if hex then takeHexDigits s3 else takeDigits s3 in
  match ds with
  | [] => NaN
  | _ => let v := Z.of_N (if hex then hexValue ds else digitsValue ds) in
         Num (if neg then (- v)%Z else v)
  end.

Definition isNaN (x : number) : bool :=
  match x with NaN => true | Num _ => false end.

(** [x || 0] on numbers: [NaN] and zero are falsy. *)
Definition orZero (x : number) : Z :=
  match x with NaN => 0%Z | Num z => z end.

(** [s.replace(/\D/g, '')]. *)
Definition stripNonDigits (s : jsstring) : jsstring := filter isDigit s.

(** ** Values *)

(** JavaScript values as [JSON.parse] builds them, plus [undefined].  A
    number carries the lexeme it was read from.  An object is the list of
    its own properties in enumeration order. *)
Inductive value :=
| VUndefined
| VNull
| VBool (b : bool)
| VNum (lexeme : jsstring)
| VStr (s : jsstring)
| VArr (items : list value)
| VObj (props : list (jsstring * value)).

Definition props := list (jsstring * value).

(** An array index is a canonical decimal string below [2^32 - 1]; such
    keys are enumerated first, in ascending numeric order. *)
Definition arrayIndex (k : jsstring) : option N :=
  match k with
  | [] => None
  | c :: r =>
      if forallb isDigit k
         && (negb (c =? 48) || match r with [] => true | _ => false end)
      then if digitsValue k <? 4294967295 then Some (digitsValue k) else None
      else None
  end.

Fixpoint lookup (k : jsstring) (o : props) : option value :=
  match o with
  | [] => None
  | (k', v) :: r => if eqb_str k k' then Some v else lookup k r
  end.

Fixpoint replaceProp (k : jsstring) (v : value) (o : props) : props :=
  match o with
  | [] => []
  | (k', v') :: r =>
      if eqb_str k k' then (k', v) :: r else (k', v') :: replaceProp k v r
  end.

Fixpoint insertIndex (n : N) (k : jsstring) (v : value) (o : props) : props :=
  match o with
  | [] => [(k, v)]
  | (k', v') :: r =>
      match arrayIndex k' with
      | Some n' => if n' <? n then (k', v') :: insertIndex n k v r
                   else (k, v) :: o
      | None => (k, v) :: o
      end
  end.

(** [o[k] = v] on an ordinary object whose prototype chain has no setter
    for [k]: an existing property keeps its place; a new array index goes
    among the indices; any other new key goes last. *)
Definition obj_set (k : jsstring) (v : value) (o : props) : props :=
  match lookup k o with
  | Some _ => replaceProp k v o
  | None =>
      match arrayIndex k with
      | Some n => insertIndex n k v o
      | None => o ++ [(k, v)]
      end
  end.

Definition indices (n : nat) : list jsstring :=
  map (fun i => decimal (N.of_nat i)) (seq 0 n).

(** [Object.keys(v)]; [None] is the TypeError on [null] and [undefined]. *)
Definition Object_keys (v : value) : option (list jsstring) :=
  match v with
  | VUndefined | VNull => None
  | VBool _ | VNum _ => Some []
  | VStr s => Some (indices (List.length s))
  | VArr items => Some (indices (List.length items))
  | VObj o => Some (map fst o)
  end.

(** [v[k]] for [k] among [Object.keys(v)]. *)
Definition getProp (v : value) (k : jsstring) : value :=
  match v with
  | VObj o => match lookup k o with Some x => x | None => VUndefined end
  | VArr items =>
      match arrayIndex k with
      | Some n => nth (N.to_nat n) items VUndefined
      | None => VUndefined
      end
  | VStr s =>
      match arrayIndex k with
      | Some n => match nth_error s (N.to_nat n) with
                  | Some c => VStr [c]
                  | None => VUndefined
                  end
      | None => VUndefined
      end
  | _ => VUndefined
  end.

(** ** JSON text: tokens *)

Inductive token :=
| TLBrace | TRBrace | TLBracket | TRBracket | TColon | TComma
| TString (s : jsstring)
| TNumber (lexeme : jsstring)
| TTrue | TFalse | TNull.

(** States of the number automaton of the JSON grammar: an optional minus,
    then zero or a non-zero digit with more digits, an optional fraction
    (a dot and digits), an optional exponent (e or E, a sign, digits). *)
Inductive numState :=
| NMinus | NZero | NInt | NDot | NFrac | NExp | NExpSign | NExpDigits.

Inductive lexState :=
| LStart
| LString (acc : jsstring)
| LEscape (acc : jsstring)
| LUnicode (acc : jsstring) (todo : nat) (code : N)
| LNumber (st : numState) (lexeme : jsstring)
| LLiteral (rest : jsstring) (tok : token).

(** JSON white space: tab, line feed, carriage return, space. *)
Definition isJsonWs (c : N) : bool :=
  (c =? 9) || (c =? 10) || (c =? 13) || (c =? 32).

Definition lexer := (list token * lexState)%type.

Definition emit (toks : list token) (t : token) : option lexer :=
  Some (toks ++ [t], LStart).

(** A character read between two tokens. *)
Definition startStep (toks : list token) (c : N) : option lexer :=
  if isJsonWs c then Some (toks, LStart)
  else if c =? 123 then emit toks TLBrace
  else if c =? 125 then emit toks TRBrace
  else if c =? 91 then emit toks TLBracket
  else if c =? 93 then emit toks TRBracket
  else if c =? 58 then emit toks TColon
  else if c =? 44 then emit toks TComma
  else if c =? 34 then Some (toks, LString [])
  else if c =? 116 then Some (toks, LLiteral (lit "rue") TTrue)
  else if c =? 102 then Some (toks, LLiteral (lit "alse") TFalse)
  else if c =? 110 then Some (toks, LLiteral (lit "ull") TNull)
  else if c =? 45 then Some (toks, LNumber NMinus [c])
  else if c =? 48 then Some (toks, LNumber NZero [c])
  else if isDigit c then Some (toks, LNumber NInt [c])
  else None.

Definition isExpMark (c : N) : bool := (c =? 101) || (c =? 69).

(** The number automaton: [Some (Some st)] moves on, [Some None] means the
    number ended before [c], [None] is a syntax error. *)
Definition numStep (st : numState) (c : N) : option (option numState) :=
  match st with
  | NMinus => if c =? 48 then Some (Some NZero)
              else if isDigit c then Some (Some NInt) else None
  | NZero => if c =? 46 then Some (Some NDot)
             else if isExpMark c then Some (Some NExp) else Some None
  | NInt => if isDigit c then Some (Some NInt)
            else if c =? 46 then Some (Some NDot)
            else if isExpMark c then Some (Some NExp) else Some None
  | NDot => if isDigit c then Some (Some NFrac) else None
  | NFrac => if isDigit c then Some (Some NFrac)
             else if isExpMark c then Some (Some NExp) else Some None
  | NExp => if isDigit c then Some (Some NExpDigits)
            else if (c =? 43) || (c =? 45) then Some (Some NExpSign) else None
  | NExpSign => if isDigit c then Some (Some NExpDigits) else None
  | NExpDigits => if isDigit c then Some (Some NExpDigits) else Some None
  end.

Definition numFinal (st : numState) : bool :=
  match st with
  | NZero | NInt | NFrac | NExpDigits => true
  | _ => false
  end.

(** The character an escape sequence [\c] stands for. *)
Definition escapeChar (c : N) : option N :=
  if (c =? 34) || (c =? 92) || (c =? 47) then Some c
  else if c =? 98 then Some 8
  else if c =? 102 then Some 12
  else if c =? 110 then Some 10
  else if c =? 114 then Some 13
  else if c =? 116 then Some 9
  else None.

Definition lexStep (l : lexer) (c : N) : option lexer :=
  let '(toks, st) := l in
  match st with
  | LStart => startStep toks c
  | LString acc =>
      if c =? 34 then emit toks (TString acc)
      else if c =? 92 then Some (toks, LEscape acc)
      else if c <? 32 then None
      else Some (toks, LString (acc ++ [c]))
  | LEscape acc =>
      if c =? 117 then Some (toks, LUnicode acc 4 0)
      else match escapeChar c with
           | Some x => Some (toks, LString (acc ++ [x]))
           | None => None
           end
  | LUnicode acc todo code =>
      if isHexDigit c then
        let code' := 16 * code + hexDigitValue c in
        match todo with
        | S (S n) => Some (toks, LUnicode acc (S n) code')
        | _ => Some (toks, LString (acc ++ [code']))
        end
      else None
  | LNumber nst lexeme =>
      match numStep nst c with
      | Some (Some nst') => Some (toks, LNumber nst' (lexeme ++ [c]))
      | Some None => startStep (toks ++ [TNumber lexeme]) c
      | None => None
      end
  | LLiteral rest tok =>
      match rest with
      | x :: r =>
          if c =? x then
            match r with
            | [] => emit toks tok
            | _ => Some (toks, LLiteral r tok)
            end
          else None
      | [] => None
      end
  end.

Fixpoint lexRun (l : lexer) (s : jsstring) : option lexer :=
  match s with
  | [] => Some l
  | c :: r => match lexStep l c with
              | Some l' => lexRun l' r
              | None => None
              end
  end.

Definition lexFinish (l : lexer) : option (list token) :=
  let '(toks, st) := l in
  match st with
  | LStart => Some toks
  | LNumber nst lexeme =>
      if numFinal nst then Some (toks ++ [TNumber lexeme]) else None
  | _ => None
  end.

Definition tokenize (s : jsstring) : option (list token) :=
  match lexRun ([], LStart) s with
  | Some l => lexFinish l
  | None => None
  end.

(** ** JSON.parse *)

(** The containers still open while the token stream is read. *)
Inductive frame :=
| FArr (items : list value)
| FObj (o : props)
| FKey (o : props) (key : jsstring).

Inductive expect :=
| EValue
| EValueOrClose
| EKeyOrClose
| EKey
| EColon (key : jsstring)
| ENext
| EEnd (v : value).

Definition parser := (list frame * expect)%type.

(** A finished value goes to the innermost open container.  A member is
    defined with CreateDataProperty, which [obj_set] models: the last of
    two equal keys wins and keeps the place of the first. *)
Definition deliver (v : value) (stack : list frame) : option parser :=
  match stack with
  | [] => Some ([], EEnd v)
  | FArr items :: st => Some (FArr (items ++ [v]) :: st, ENext)
  | FKey o k :: st => Some (FObj (obj_set k v o) :: st, ENext)
  | FObj _ :: _ => None
  end.

Definition valueStep (stack : list frame) (t : token) : option parser :=
  match t with
  | TString s => deliver (VStr s) stack
  | TNumber x => deliver (VNum x) stack
  | TTrue => deliver (VBool true) stack
  | TFalse => deliver (VBool false) stack
  | TNull => deliver VNull stack
  | TLBracket => Some (FArr [] :: stack, EValueOrClose)
  | TLBrace => Some (FObj [] :: stack, EKeyOrClose)
  | _ => None
  end.

Definition closeArray (stack : list frame) : option parser :=
  match stack with
  | FArr items :: st => deliver (VArr items) st
  | _ => None
  end.

Definition closeObject (stack : list frame) : option parser :=
  match stack with
  | FObj o :: st => deliver (VObj o) st
  | _ => None
  end.

Definition parseStep (p : parser) (t : token) : option parser :=
  let '(stack, e) := p in
  match e with
  | EValue => valueStep stack t
  | EValueOrClose =>
      match t with
      | TRBracket => closeArray stack
      | _ => valueStep stack t
      end
  | EKeyOrClose =>
      match t with
      | TString k => Some (stack, EColon k)
      | TRBrace => closeObject stack
      | _ => None
      end
  | EKey =>
      match t with
      | TString k => Some (stack, EColon k)
      | _ => None
      end
  | EColon k =>
      match t, stack with
      | TColon, FObj o :: st => Some (FKey o k :: st, EValue)
      | _, _ => None
      end
  | ENext =>
      match t, stack with
      | TComma, FArr _ :: _ => Some (stack, EValue)
      | TComma, FObj _ :: _ => Some (stack, EKey)
      | TRBracket, _ => closeArray stack
      | TRBrace, _ => closeObject stack
      | _, _ => None
      end
  | EEnd _ => None
  end.

Fixpoint parseRun (p : parser) (ts : list token) : option parser :=
  match ts with
  | [] => Some p
  | t :: r => match parseStep p t with
              | Some p' => parseRun p' r
              | None => None
              end
  end.

Definition parseTokens (ts : list token) : option value :=
  match parseRun ([], EValue) ts with
  | Some ([], EEnd v) => Some v
  | _ => None
  end.

(** [JSON.parse(s)]; [None] is the SyntaxError. *)
Definition JSON_parse (s : jsstring) : option value :=
  match tokenize s with
  | Some ts => parseTokens ts
  | None => None
  end.

(** ** JSON.stringify *)

Definition hexDigit (n : N) : N := if n <? 10 then 48 + n else 87 + n.

Definition escapeU (c : N) : jsstring :=
  [92; 117; hexDigit (c / 4096); hexDigit ((c / 256) mod 16);
   hexDigit ((c / 16) mod 16); hexDigit (c mod 16)].

Definition isHighSurrogate (c : N) : bool := (55296 <=? c) && (c <=? 56319).
Definition isLowSurrogate (c : N) : bool := (56320 <=? c) && (c <=? 57343).

(** QuoteJSONString on one code unit that is not a surrogate. *)
Definition quoteUnit (c : N) : jsstring :=
  if c =? 34 then [92; 34]
  else if c =? 92 then [92; 92]
  else if c =? 8 then [92; 98]
  else if c =? 12 then [92; 102]
  else if c =? 10 then [92; 110]
  else if c =? 13 then [92; 114]
  else if c =? 9 then [92; 116]
  else if c <? 32 then escapeU c
  else [c].

(** A surrogate pair is copied; a lone surrogate is escaped. *)
Fixpoint quoteUnits (s : jsstring) : jsstring :=
  match s with
  | [] => []
  | c :: r =>
      if isHighSurrogate c then
        match r with
        | d :: r' => if isLowSurrogate d then c :: d :: quoteUnits r'
                     else escapeU c ++ quoteUnits r
        | [] => escapeU c
        end
      else if isLowSurrogate c then escapeU c ++ quoteUnits r
      else quoteUnit c ++ quoteUnits r
  end.

Definition quote (s : jsstring) : jsstring := 34 :: quoteUnits s ++ [34].

Fixpoint intercalate {A : Type} (sep : list A) (parts : list (list A)) : list A :=
  match parts with
  | [] => []
  | [x] => x
  | x :: r => x ++ sep ++ intercalate sep r
  end.

(** [parts.join(sep)] on strings. *)
Definition join (sep : jsstring) (parts : list jsstring) : jsstring :=
  intercalate sep parts.

Definition isUndefined (v : value) : bool :=
  match v with VUndefined => true | _ => false end.

(** [JSON.stringify(v)] with no replacer and no indentation: inside an
    array [undefined] prints as [null], inside an object a member whose
    value is [undefined] is left out. *)
Fixpoint stringify (v : value) : jsstring :=
  match v with
  | VUndefined | VNull => lit "null"
  | VBool true => lit "true"
  | VBool false => lit "false"
  | VNum x => x
  | VStr s => quote s
  | VArr items => 91 :: join [44] (map stringify items) ++ [93]
  | VObj o =>
      123 :: join [44]
               ((fix members (l : list (jsstring * value)) : list jsstring :=
                   match l with
                   | [] => []
                   | (k, x) :: r =>
                       if isUndefined x then members r
                       else (quote k ++ 58 :: stringify x) :: members r
                   end) o)
          ++ [125]
  end.

(** A literal of this file in which an apostrophe stands for the double
    quote of the JSON text. *)
Definition jsonLit (s : string) : jsstring :=
  map (fun c => if c =? 39 then 34 else c) (lit s).

End JS.

(* ================================================================== *)
(** * src/services/geminiService.ts *)

Module GeminiService.
Import JS.

(** What a [throw] carries: an [Error] with its message, or a value that is
    not an instance of [Error]. *)
Inductive thrown :=
| ErrorObj (message : jsstring)
| NonError.

Definition BATCH_SIZE : nat := 3.

(** ** The response parser (lines 157-192) *)

Definition fence : jsstring := lit "```".

Definition eqCI (lower c : N) : bool := (c =? lower) || (c =? lower - 32).

(** [s.replace(/^```(json)?/i, '')] on a string that starts with the
    fence. *)
Definition stripFenceOpen (s : jsstring) : jsstring :=
  let r := skipn 3 s in
  match r with
  | j :: s0 :: o :: n :: r' =>
      if eqCI 106 j && eqCI 115 s0 && eqCI 111 o && eqCI 110 n then r' else r
  | _ => r
  end.

Definition endsWith (pat s : jsstring) : bool :=
  startsWith (List.rev pat) (List.rev s).

(** [s.replace(/```$/, '')]: without the m flag the dollar is the end of
    the input. *)
Definition stripFenceClose (s : jsstring) : jsstring :=
  if endsWith fence s then firstn (List.length s - 3) s else s.

(** [\s*\/\/] matches at the head of [s]: the star is greedy and a slash is
    no white space, so there is one way to match. *)
Fixpoint commentStart (s : jsstring) : bool :=
  match s with
  | c :: r =>
      if isSpace c then commentStart r
      else (c =? 47) && match r with d :: _ => (d =? 47) | [] => false end
  | [] => false
  end.

(** Where the scan of the global replace is: copying the text, with
    [lineStart] telling whether the caret of the multiline mode holds here;
    or inside a match, which is dropped: in its white space, or after its
    first slash, up to the next line terminator ([.] matches everything
    else, and the dollar of the multiline mode holds before a line
    terminator and at the end). *)
Inductive scanMode :=
| Copying (lineStart : bool)
| InIndent
| InComment.

Fixpoint commentScan (mode : scanMode) (s : jsstring) : jsstring :=
  match s with
  | [] => []
  | c :: r =>
      match mode with
      | Copying lineStart =>
          if lineStart && commentStart s
          then commentScan (if isSpace c then InIndent else InComment) r
          else c :: commentScan (Copying (isLineTerminator c)) r
      | InIndent => commentScan (if isSpace c then InIndent else InComment) r
      | InComment =>
          if isLineTerminator c then c :: commentScan (Copying true) r
          else commentScan InComment r
      end
  end.

(** [s.replace(/^\s*\/\/.*$/gm, '')]. *)
Definition stripLineComments (s : jsstring) : jsstring :=
  commentScan (Copying true) s.

Definition tryParse (fixedStr : jsstring) (suffixes : list jsstring)
  : option value :=
  fold_right (fun suffix later =>
                match JSON_parse (fixedStr ++ suffix) with
                | Some v => Some v
                | None => later
                end) None suffixes.

(** The suffixes of line 185 and the one of line 191. *)
Definition candidates : list jsstring :=
  [lit "}}"; lit "]}"; lit "]]}"; lit "]}"].

(** [tryRepairJson]; [None] is the [null] it returns when nothing parses. *)
Definition tryRepairJson (jsonStr : jsstring) : option value :=
  let lastRowEnd := lastIndexOf (lit "],") jsonStr in
  let lastRowEndBracket := lastIndexOf (lit "]") jsonStr in
  let cutIndex :=
    match lastRowEnd with
    | Some n => Some (n + 1)%nat
    | None => option_map (fun n => (n + 1)%nat) lastRowEndBracket
    end in
  match cutIndex with
  | None => None
  | Some cut =>
      let fixedStr := substringTo cut jsonStr in
      tryParse fixedStr candidates
  end.

(** The part of the lexeme of a number before its exponent. *)
Fixpoint mantissa (x : jsstring) : jsstring :=
  match x with
  | c :: r => if isExpMark c then [] else c :: mantissa r
  | [] => []
  end.

(** Truthiness of a value, for [if (repaired)]: a number is falsy when it
    is zero, that is when its mantissa has no digit but zero. *)
Definition truthy (v : value) : bool :=
  match v with
  | VUndefined | VNull | VBool false | VStr [] => false
  | VNum x => existsb (fun c => isDigit c && negb (c =? 48)) (mantissa x)
  | _ => true
  end.

Definition truncatedMessage : jsstring := lit "JSON 解析失敗 (Truncated)".

(** Lines 158-160. *)
Definition unfence (jsonString : jsstring) : jsstring :=
  if startsWith fence jsonString
  then trim (stripFenceClose (stripFenceOpen jsonString))
  else jsonString.

(** Lines 162-163. *)
Definition fromFirstBrace (jsonString : jsstring) : jsstring :=
  match indexOf [123] jsonString with
  | Some firstBracket => substringFrom firstBracket jsonString
  | None => jsonString
  end.

(** Lines 165-172. *)
Definition decode (jsonString : jsstring) : thrown + value :=
  match JSON_parse jsonString with
  | Some v => inr v
  | None =>
      match tryRepairJson jsonString with
      | Some repaired =>
          if truthy repaired then inr repaired
          else inl (ErrorObj truncatedMessage)
      | None => inl (ErrorObj truncatedMessage)
      end
  end.

(** Lines 157-172: from the text of the response to the batch result. *)
Definition parseResponse (textResponse : jsstring) : thrown + value :=
  decode (fromFirstBrace (stripLineComments (unfence (trim textResponse)))).

(** What [ai.models.generateContent] does with a request: it throws, or it
    answers with a response whose [text] is a string or [undefined]. *)
Inductive response :=
| Throws (t : thrown)
| Text (text : option jsstring).

Definition noDataMessage : jsstring := lit "Gemini 沒有回傳資料".

Definition callGeminiWithRetry (r : response) : thrown + value :=
  match r with
  | Throws t => inl t
  | Text None | Text (Some []) => inl (ErrorObj noDataMessage)
  | Text (Some textResponse) => parseResponse textResponse
  end.

(** ** The batch loop (lines 9-91) *)

(** What the run does to the outside, in order. *)
Inductive event :=
| Progress (message : jsstring)
| Request (subPdfBase64 : jsstring).

(** How the promise of [processFile] settles. *)
Inductive outcome :=
| Rejected (t : thrown)
| Resolved (aggregatedData : props).

Definition noKeyMessage : jsstring :=
  lit "找不到 API 金鑰，請確認環境變數 process.env.API_KEY 已設定。".

Definition loadFailedMessage : jsstring :=
  lit "無法讀取 PDF 檔案，請確認檔案是否損毀。".

Definition nat_decimal (n : nat) : jsstring := decimal (N.of_nat n).

(** The template string of line 36. *)
Definition progressMessage (startPage endPage totalPages : nat) : jsstring :=
  lit "正在分析第 " ++ nat_decimal startPage ++ lit " - " ++ nat_decimal endPage
    ++ lit " 頁 (共 " ++ nat_decimal totalPages ++ lit " 頁)...".

Definition unknownMessage : jsstring := lit "未知錯誤".

(** The template string of line 86. *)
Definition batchErrorMessage (startPage endPage : nat) (batchError : thrown)
  : jsstring :=
  lit "第 " ++ nat_decimal startPage ++ lit "-" ++ nat_decimal endPage
    ++ lit " 頁處理失敗: "
    ++ match batchError with
       | ErrorObj message => message
       | NonError => unknownMessage
       end.

(** Lines 43-45. *)
Definition pageIndices (i startPage endPage : nat) : list nat :=
  map (fun j => (i + j)%nat) (seq 0 (endPage - startPage + 1)).

(** Lines 65-77: the key under which the value of [localKey] is stored. *)
Definition globalKey (i startPage : nat) (localKey : jsstring) : jsstring :=
  let localNum := parseInt (stripNonDigits localKey) in
  if negb (isNaN localNum) then
    match localNum with
    | Num z => String_of_number (Num (Z.of_nat i + z))
    | NaN => []
    end
  else localKey ++ lit "_batch_" ++ nat_decimal startPage.

(** The windows the header of the loop of line 31 visits, each with the
    0-based index [i] of its first page and [endPage] (line 33), which is
    also the 0-based index just past its last page. *)
Fixpoint windowsFrom (fuel totalPages i : nat) : list (nat * nat) :=
  if (i <? totalPages)%nat then
    match fuel with
    | O => []
    | S fuel' =>
        (i, Nat.min (i + BATCH_SIZE) totalPages)
          :: windowsFrom fuel' totalPages (i + BATCH_SIZE)
    end
  else [].

Definition windows (totalPages : nat) : list (nat * nat) :=
  windowsFrom totalPages totalPages 0.

(** The 0-based page indices of a window. *)
Definition windowPages (w : nat * nat) : list nat :=
  pageIndices (fst w) (fst w + 1) (snd w).

Section Run.

(** The collaborators: pages and documents of pdf-lib, the extraction
    service, and the message of the TypeError of [Object.keys(null)]. *)
Variable Page : Type.
Variable load : jsstring -> option (list Page).
Variable saveAsBase64 : list Page -> jsstring.
Variable copyError : thrown.
Variable generateContent : nat -> jsstring -> response.
Variable keysTypeError : jsstring.

(** [subDoc.copyPages(pdfDoc, pageIndices)] throws on an index outside
    the document. *)
Fixpoint copyPages (pdfDoc : list Page) (idx : list nat) : option (list Page) :=
  match idx with
  | [] => Some []
  | n :: r =>
      match nth_error pdfDoc n, copyPages pdfDoc r with
      | Some pg, Some pgs => Some (pg :: pgs)
      | _, _ => None
      end
  end.

(** Lines 63-79, with the TypeError [Object.keys] raises on [null]. *)
Definition mergeBatch (i startPage : nat) (batchResult : value)
           (aggregatedData : props) : thrown + props :=
  match Object_keys batchResult with
  | None => inl (ErrorObj keysTypeError)
  | Some keys =>
      inr (fold_left
             (fun agg localKey =>
                obj_set (globalKey i startPage localKey)
                        (getProp batchResult localKey) agg)
             keys aggregatedData)
  end.

(** The [for] loop of line 31; [requests] counts the calls made to the
    service so far.  [None] only when [fuel] iterations did not reach
    [totalPages]. *)
Fixpoint batchLoop (fuel : nat) (onProgress : bool) (pdfDoc : list Page)
         (totalPages i : nat) (aggregatedData : props)
         (log : list event) (requests : nat)
  : option (list event * outcome) :=
  if (i <? totalPages)%nat then
    match fuel with
    | O => None
    | S fuel' =>
        let startPage := (i + 1)%nat in
        let endPage := Nat.min (i + BATCH_SIZE) totalPages in
        let log := if onProgress
                   then log ++ [Progress (progressMessage startPage endPage totalPages)]
                   else log in
        match copyPages pdfDoc (pageIndices i startPage endPage) with
        | None => Some (log, Rejected copyError)
        | Some copiedPages =>
            let subPdfBase64 := saveAsBase64 copiedPages in
            let log := log ++ [Request subPdfBase64] in
            let attempt :=
              match callGeminiWithRetry (generateContent requests subPdfBase64) with
              | inl e => inl e
              | inr batchResult => mergeBatch i startPage batchResult aggregatedData
              end in
            match attempt with
            | inl batchError =>
                Some (log, Rejected (ErrorObj (batchErrorMessage startPage endPage batchError)))
            | inr aggregatedData' =>
                batchLoop fuel' onProgress pdfDoc totalPages (i + BATCH_SIZE)
                          aggregatedData' log (S requests)
            end
        end
    end
  else Some (log, Resolved aggregatedData).

Definition processFile (base64Data apiKey : jsstring) (onProgress : bool)
  : option (list event * outcome) :=
  match apiKey with
  | [] => Some ([], Rejected (ErrorObj noKeyMessage))
  | _ =>
      match load base64Data with
      | None => Some ([], Rejected (ErrorObj loadFailedMessage))
      | Some pdfDoc =>
          let totalPages := List.length pdfDoc in
          batchLoop totalPages onProgress pdfDoc totalPages 0 [] [] 0
      end
  end.

(** The sub-document of the window that starts at page index [i]. *)
Definition subDocument (pdfDoc : list Page) (i : nat) : jsstring :=
  saveAsBase64
    (firstn (Nat.min (i + BATCH_SIZE) (List.length pdfDoc) - i) (skipn i pdfDoc)).

(** What one window adds to the log. *)
Definition windowEvents (onProgress : bool) (pdfDoc : list Page)
           (w : nat * nat) : list event :=
  (if onProgress
   then [Progress (progressMessage (fst w + 1) (snd w) (List.length pdfDoc))]
   else [])
    ++ [Request (subDocument pdfDoc (fst w))].

(** What the [try] block of lines 54-80 throws on a response, if
    anything. *)
Definition batchFailure (r : response) : option thrown :=
  match callGeminiWithRetry r with
  | inl e => Some e
  | inr batchResult =>
      match Object_keys batchResult with
      | None => Some (ErrorObj keysTypeError)
      | Some _ => None
      end
  end.

End Run.

End GeminiService.

(* ================================================================== *)
(** * src/utils/excelHelper.ts *)

Module ExcelHelper.
Import JS.

(** [l.map(f)] for a callback that may throw: [None] when a call throws,
    which ends the map. *)
Definition mapM {A B : Type} (f : A -> option B) : list A -> option (list B) :=
  fix go (l : list A) : option (list B) :=
    match l with
    | [] => Some []
    | x :: r =>
        match f x with
        | Some y => match go r with
                    | Some ys => Some (y :: ys)
                    | None => None
                    end
        | None => None
        end
    end.

Section Workbook.

(** [String(x)] for the number read from a lexeme. *)
Variable numberToString : jsstring -> jsstring.

(** [String(cell)] for a value built by [JSON.parse]; [None] is the
    TypeError it throws.  An array prints its elements joined by commas,
    with nothing for [null] and [undefined].  An object is converted by
    its methods [toString] and [valueOf]: an own property [toString] is
    never callable, so it hides [Object.prototype.toString] and no method
    is left that gives a primitive (an own [valueOf] is not callable, the
    inherited one returns the object itself): the conversion throws.  An
    object without such a property prints as [[object Object]]. *)
Fixpoint String_of_value (v : value) : option jsstring :=
  match v with
  | VUndefined => Some (lit "undefined")
  | VNull => Some (lit "null")
  | VBool true => Some (lit "true")
  | VBool false => Some (lit "false")
  | VNum x => Some (numberToString x)
  | VStr s => Some s
  | VArr items =>
      option_map (join [44])
        (mapM (fun x => match x with
                        | VUndefined | VNull => Some []
                        | _ => String_of_value x
                        end) items)
  | VObj o =>
      match lookup (lit "toString") o with
      | Some _ => None
      | None => Some (lit "[object Object]")
      end
  end.

(** Lines 11-14. *)
Definition sanitizeCell (cell : value) : option jsstring :=
  match cell with
  | VNull | VUndefined => Some []
  | _ => String_of_value cell
  end.

(** Lines 6-16, of declared result type [string[][]]; [None] when
    [String] throws on a cell. *)
Definition sanitizeGridData (rows : value) : option (list (list jsstring)) :=
  match rows with
  | VArr rs =>
      mapM (fun row => match row with
                       | VArr cells => mapM sanitizeCell cells
                       | _ => Some []
                       end) rs
  | _ => Some []
  end.

(** [parseInt(a.replace(/\D/g, '')) || 0]. *)
Definition sortKey (a : jsstring) : Z :=
  orZero (parseInt (stripNonDigits a)).

(** The comparator of lines 26-30 says [a] goes before [b]. *)
Definition before (a b : jsstring) : bool := (sortKey a - sortKey b <? 0)%Z.

Fixpoint insertKey (x : jsstring) (sorted : list jsstring) : list jsstring :=
  match sorted with
  | [] => [x]
  | y :: r => if before x y then x :: sorted else y :: insertKey x r
  end.

(** [keys.sort(comparator)]: the sort is stable, so with this comparator
    its result is the one of a stable insertion sort. *)
Definition sortPages (keys : list jsstring) : list jsstring :=
  fold_left (fun sorted x => insertKey x sorted) keys [].

(** Lines 32-39: the rows handed to [aoa_to_sheet] in merge mode; [None]
    when [sanitizeGridData] throws on a page, which ends the loop. *)
Definition mergeRows (data : props) : option (list (list jsstring)) :=
  fold_left
    (fun acc pageKey =>
       match acc with
       | Some allRows =>
           match sanitizeGridData (getProp (VObj data) pageKey) with
           | Some cleanRows => Some ((allRows ++ cleanRows) ++ [[]])
           | None => None
           end
       | None => None
       end)
    (sortPages (map fst data)) (Some []).

(** [s.replace(/[:\/\\?*\[\]]/g, "")]. *)
Definition stripSheetChars (s : jsstring) : jsstring :=
  filter (fun c => negb ((c =? 58) || (c =? 47) || (c =? 92) || (c =? 63)
                         || (c =? 42) || (c =? 91) || (c =? 93))) s.

(** Lines 54-56. *)
Definition sheetNameOf (pageKey : jsstring) : jsstring :=
  let sheetName :=
    if includes (lit "Page") pageKey || includes (lit "頁") pageKey
    then pageKey else lit "Page " ++ pageKey in
  substringTo 31 (stripSheetChars sheetName).

(** The order of the sort keys. *)
Definition keyLe (a b : jsstring) : Prop := (sortKey a <= sortKey b)%Z.

Inductive mode := merge | split.

(** The workbook under construction: the sheets appended to it so far, in
    order, each with its name and the rows given to [aoa_to_sheet]. *)
Definition workbook := list (jsstring * list (list jsstring)).

(** The xlsx library is not part of the repository: what it accepts is a
    parameter.  [refuses wb name rows] says that, for the workbook [wb],
    [aoa_to_sheet(rows)] or [book_append_sheet(wb, ws, name)] throws. *)
Variable refuses : workbook -> jsstring -> list (list jsstring) -> bool.

(** What a call of [downloadExcel] comes to: [XLSX.writeFile] is called
    with a workbook, or an exception left the function before, thrown by
    [String] on a cell or by the library on a sheet. *)
Inductive exported :=
| Written (wb : workbook)
| StringThrew
| LibraryThrew.

(** [aoa_to_sheet(rows)] followed by [book_append_sheet(wb, ws, name)]. *)
Definition appendSheet (wb : workbook) (name : jsstring)
           (rows : list (list jsstring)) : exported :=
  if refuses wb name rows then LibraryThrew else Written (wb ++ [(name, rows)]).

(** Lines 52-61, the body of the loop of split mode, run on what the
    pages before have come to. *)
Definition splitPage (data : props) (state : exported) (pageKey : jsstring)
  : exported :=
  match state with
  | Written wb =>
      match sanitizeGridData (getProp (VObj data) pageKey) with
      | Some cleanRows => appendSheet wb (sheetNameOf pageKey) cleanRows
      | None => StringThrew
      end
  | _ => state
  end.

(** Lines 18-66, up to the call of [XLSX.writeFile]. *)
Definition downloadExcel (data : props) (m : mode) : exported :=
  match m with
  | merge =>
      match mergeRows data with
      | Some allRows => appendSheet [] (lit "Sheet1") allRows
      | None => StringThrew
      end
  | split => fold_left (splitPage data) (sortPages (map fst data)) (Written [])
  end.

End Workbook.

End ExcelHelper.

(* ================================================================== *)
(** * The renumbering as the specification words it *)

Module PageRenumberer.
Import JS.

(** The longest maximal run of decimal digits of a key, the first one
    among runs of equal length. *)
Fixpoint longestRun (best cur : jsstring) (s : jsstring) : jsstring :=
  let pick a b := if (List.length a <? List.length b)%nat then b else a in
  match s with
  | [] => pick best cur
  | c :: r => if isDigit c then longestRun best (cur ++ [c]) r
              else longestRun (pick best cur) [] r
  end.

Definition longestDigitRun (s : jsstring) : jsstring := longestRun [] [] s.

(** [toGlobalKey] read from the specification: the longest run of digits
    is parsed and the window start is added. *)
Definition toGlobalKey (windowStartIndex : nat) (batchLocalKey : jsstring)
  : jsstring :=
  decimal (N.of_nat windowStartIndex + digitsValue (longestDigitRun batchLocalKey)).

End PageRenumberer.

(* ================================================================== *)
(** * The page data map *)

Module PageData.
Import JS.

(** Modelled from the spec: the declarations of [src/types.ts], which the
    two source files import, are missing.  The specification gives them: a
    PageGrid is a sequence of rows, a row a sequence of cells, a cell a
    string; a PageDataMap maps page keys, which are strings, to grids. *)
Definition GridData := list (list jsstring).

(** The entries of a PageDataMap, in the enumeration order of its keys. *)
Definition PageDataMap := list (jsstring * GridData).

Definition rowValue (row : list jsstring) : value := VArr (map VStr row).

Definition gridValue (g : GridData) : value := VArr (map rowValue g).

Definition pageProps (m : PageDataMap) : props :=
  map (fun kv => (fst kv, gridValue (snd kv))) m.

(** The JavaScript object a PageDataMap is. *)
Definition mapValue (m : PageDataMap) : value := VObj (pageProps m).

(** [k1] is enumerated before [k2] in an ordinary object: array indices
    come first, in ascending order. *)
Definition keyBefore (k1 k2 : jsstring) : Prop :=
  k1 <> k2
  /\ match arrayIndex k1, arrayIndex k2 with
     | Some a, Some b => a < b
     | None, Some _ => False
     | _, None => True
     end.

(** The keys are distinct and in the order in which an object enumerates
    them. *)
Definition wellFormed (m : PageDataMap) : Prop :=
  StronglySorted keyBefore (map fst m).

(** No key and no cell holds a line separator U+2028 or a paragraph
    separator U+2029. *)
Definition noSeparator (s : jsstring) : bool :=
  forallb (fun c => negb ((c =? 8232) || (c =? 8233))) s.

Definition separatorFree (m : PageDataMap) : bool :=
  forallb (fun kv => noSeparator (fst kv)
                     && forallb (forallb noSeparator) (snd kv)) m.

(** [m'] holds the first pages of [m], the last of them possibly with its
    first rows only. *)
Definition leadingPart (m' m : PageDataMap) : Prop :=
  exists i,
    m' = firstn i m
    \/ exists key g j,
         nth_error m i = Some (key, g) /\ m' = firstn i m ++ [(key, firstn j g)].

(** ** The tokens of the JSON text of a map *)

Definition rowToks (row : list jsstring) : list token :=
  TLBracket :: intercalate [TComma] (map (fun c => [TString c]) row)
    ++ [TRBracket].

Definition gridToks (g : GridData) : list token :=
  TLBracket :: intercalate [TComma] (map rowToks g) ++ [TRBracket].

Definition pageToks (kv : jsstring * GridData) : list token :=
  TString (fst kv) :: TColon :: gridToks (snd kv).

Definition mapToks (m : PageDataMap) : list token :=
  TLBrace :: intercalate [TComma] (map pageToks m) ++ [TRBrace].

(** The text [JSON.stringify] prints for a token. *)
Definition tokText (t : token) : jsstring :=
  match t with
  | TLBrace => [123]
  | TRBrace => [125]
  | TLBracket => [91]
  | TRBracket => [93]
  | TColon => [58]
  | TComma => [44]
  | TString s => quote s
  | TNumber x => x
  | TTrue => lit "true"
  | TFalse => lit "false"
  | TNull => lit "null"
  end.

Definition textOf (ts : list token) : jsstring := flat_map tokText ts.

(** Punctuation and strings: the tokens of the text of a map. *)
Definition simpleTok (t : token) : bool :=
  match t with
  | TNumber _ | TTrue | TFalse | TNull => false
  | _ => true
  end.

(** The object [JSON.parse] builds from the members of a map, read in
    order. *)
Definition buildProps (m : PageDataMap) (o : props) : props :=
  fold_left (fun acc kv => obj_set (fst kv) (gridValue (snd kv)) acc) m o.

(** The lexer is inside a string. *)
Definition inString (st : lexState) : bool :=
  match st with
  | LString _ | LEscape _ | LUnicode _ _ _ => true
  | _ => false
  end.

(** The literal being read is one of [true], [false], [null]: what is
    left of it is not empty and holds no white space. *)
Definition wfLex (st : lexState) : bool :=
  match st with
  | LLiteral rest tok =>
      negb (simpleTok tok)
      && match rest with [] => false | _ => true end
      && forallb (fun c => negb (isSpace c)) rest
  | _ => true
  end.

Definition tokFree (t : token) : bool :=
  match t with
  | TString s => noSeparator s
  | TNumber x => noSeparator x
  | _ => true
  end.

(** The token the lexer is in the middle of can be [t]. *)
Definition pendingTok (st : lexState) (t : token) : bool :=
  match st with
  | LStart => false
  | LString _ | LEscape _ | LUnicode _ _ _ =>
      match t with TString _ => true | _ => false end
  | LNumber _ _ | LLiteral _ _ => negb (simpleTok t)
  end.

(** The tokens of the members of a map. *)
Definition members (m : PageDataMap) : list token :=
  intercalate [TComma] (map pageToks m).

(** The parser is about to read a value. *)
Definition opens (e : expect) : Prop := e = EValue \/ e = EValueOrClose.

(** The lexer is between two tokens or inside a string. *)
Definition betweenOrInString (st : lexState) : Prop :=
  st = LStart \/ inString st = true.

End PageData.

(* ================================================================== *)
(** * Responses of the scenarios *)

Module Scenario.
Import JS.

(** A payload inside a fenced code block tagged json, with one line
    comment, possibly indented, put on a line of its own between two parts
    of the payload. *)
Definition fencedWithComment (before indent comment after : jsstring)
  : jsstring :=
  lit "```json" ++ [10] ++ before ++ indent ++ lit "//" ++ comment ++ [10]
    ++ after ++ [10] ++ lit "```".


End Scenario.

(* ================================================================== *)
(** * Sample collaborators *)

(** A five page document whose pages are numbered, a serializer that
    writes one code unit per page, and three services: one that always
    answers with a one page table, one whose second call throws, and one
    that labels the pages of each sub-document 1, 2, 3. *)
Module Sample.
Import JS GeminiService.

Definition fivePages : list nat := [0; 1; 2; 3; 4]%nat.

Definition load (base64Data : jsstring) : option (list nat) :=
  match base64Data with
  | [] => Some []
  | _ => Some fivePages
  end.

Definition saveAsBase64 (pages : list nat) : jsstring := map N.of_nat pages.

Definition onePage : jsstring := jsonLit "{'1': [['A', null]]}".

Definition steady (rq : nat) (data : jsstring) : response :=
  Text (Some onePage).

Definition secondThrows (rq : nat) (data : jsstring) : response :=
  match rq with
  | 1%nat => Throws (ErrorObj (lit "quota"))
  | _ => Text (Some onePage)
  end.

Definition pageTable (label : jsstring) : jsstring :=
  quote label ++ jsonLit ":[['p']]".

Definition labelling (rq : nat) (data : jsstring) : response :=
  Text (Some (123 :: join [44]
                (map (fun j => pageTable (nat_decimal j))
                     (seq 1 (List.length data))) ++ [125])).

Definition typeErrorMessage : jsstring :=
  lit "Cannot convert undefined or null to object".

(** A map of two pages; the second has a cell with a quote, a backslash,
    a line feed and a lone surrogate. *)
Definition twoPages : PageData.PageDataMap :=
  [(lit "1", [[lit "A"; lit "B"]; [lit "C"; []]]);
   (lit "2", [[[34; 92; 10; 55357]; lit "x],y"]]);
   (lit "note", [])].

(** One page whose first cell holds a line separator followed by two
    slashes. *)
Definition separatorPage : PageData.PageDataMap :=
  [(lit "1", [[[97; 8232; 47; 47; 120; 8232; 98]]; [lit "c"]])].

(** The JSON text of [twoPages] with white space between its tokens. *)
Definition spacedText : jsstring :=
  jsonLit "{ '1': [['A', 'B'], ['C', '']]," ++ [10]
    ++ jsonLit "  '2': [['" ++ [92; 34] ++ jsonLit "\\\n\ud83d', 'x],y']],"
    ++ [13; 10]
    ++ jsonLit "  'note': [] }" ++ [10].

(** The text of a one page table on three lines: its first line, and the
    two others. *)
Definition tableHead : jsstring := jsonLit "{'1': [" ++ [10].

Definition tableRows : jsstring :=
  jsonLit "  ['A', null]" ++ [10] ++ jsonLit "]}".

(** A library that refuses the sheet names the workbook holds, and no
    other sheet. *)
Definition refusesHeldName (held : ExcelHelper.workbook) (name : jsstring)
           (rows : list (list jsstring)) : bool :=
  existsb (eqb_str name) (map fst held).


(** The pages of a batch without page numbers, whose keys x and Page x
    have got the fallback suffix. *)
Definition pagesSameName : props :=
  [(lit "x_batch_1", VArr [VArr [VStr (lit "a")]]);
   (lit "Page x_batch_1", VArr [VArr [VStr (lit "b")]])].

End Sample.

(* ================================================================== *)
(** * src/App.tsx: the download handlers *)

Module App.
Import JS.

(** [s.replace(pat, rep)] with a string for pattern and a replacement that
    holds no dollar sign: the first occurrence of [pat] is replaced, the
    others stay. *)
Definition replaceFirst (pat rep s : jsstring) : jsstring :=
  match indexOf pat s with
  | Some n => firstn n s ++ rep ++ skipn (n + List.length pat) s
  | None => s
  end.

(** Lines 99 and 110: [fileData?.name ? fileData.name.replace('.pdf',
    ending) : fallback], with [None] for a [fileData] that is [null]; the
    empty name is falsy. *)
Definition downloadName (ending fallback : jsstring) (name : option jsstring)
  : jsstring :=
  match name with
  | Some (c :: r) => replaceFirst (lit ".pdf") ending (c :: r)
  | _ => fallback
  end.

Section Handlers.

Variable numberToString : jsstring -> jsstring.
Variable refuses : ExcelHelper.workbook -> jsstring -> list (list jsstring) -> bool.

(** Lines 96-100: the name handed to [downloadExcel] and what the call
    comes to; [None] when the handler returns at line 97. *)
Definition handleDownloadMerged (extractedData : props) (name : option jsstring)
  : option (jsstring * ExcelHelper.exported) :=
  match Object_keys (VObj extractedData) with
  | Some [] | None => None
  | Some _ =>
      Some (downloadName (lit "_merged.xlsx") (lit "data_merged.xlsx") name,
            ExcelHelper.downloadExcel numberToString refuses extractedData
              ExcelHelper.merge)
  end.

(** Lines 107-111. *)
Definition handleDownloadSplit (extractedData : props) (name : option jsstring)
  : option (jsstring * ExcelHelper.exported) :=
  match Object_keys (VObj extractedData) with
  | Some [] | None => None
  | Some _ =>
      Some (downloadName (lit "_split.xlsx") (lit "data_split.xlsx") name,
            ExcelHelper.downloadExcel numberToString refuses extractedData
              ExcelHelper.split)
  end.

End Handlers.

(** The text of line 103. *)
Definition downloadFailed : jsstring := lit "Excel 產生失敗，請稍後再試。".

(** Lines 101-104 and 112-115: an exception that leaves [downloadExcel]
    is caught and the status takes the error [downloadFailed]; [None] when
    no exception is thrown before the call of [XLSX.writeFile]. *)
Definition shownError (result : option (jsstring * ExcelHelper.exported))
  : option jsstring :=
  match result with
  | None => None
  | Some (_, ExcelHelper.Written _) => None
  | Some (_, ExcelHelper.StringThrew) => Some downloadFailed
  | Some (_, ExcelHelper.LibraryThrew) => Some downloadFailed
  end.

End App.

(* ================================================================== *)
(** * The preview table (the component DataTable) *)

Module DataTable.
Import JS.

(** What the component shows: the placeholder of lines 10-14, or one
    table per page, with the text of its header and the texts of the
    cells of its rows.  The data are of the type [PageDataMap] of the
    component's props: grids of strings. *)
Inductive view :=
| Placeholder
| Tables (pages : list (jsstring * list (list jsstring))).

(** [row[colIndex] || '']: the cell, or the empty string past the end of
    the row (an empty cell is falsy, and gives the empty string too). *)
Definition cellText (row : list jsstring) (colIndex : nat) : jsstring :=
  match nth_error row colIndex with
  | Some cell => cell
  | None => []
  end.

(** Lines 40-47: one cell for each index below
    [Math.max(row.length, 1)]. *)
Definition renderRow (row : list jsstring) : list jsstring :=
  map (cellText row) (seq 0 (Nat.max (List.length row) 1)).

(** Line 33. *)
Definition pageHeader (pageKey : jsstring) : jsstring :=
  lit "第 " ++ pageKey ++ lit " 頁 / Page " ++ pageKey.

(** [data[pageKey]] for a key of the map. *)
Fixpoint rowsOf (data : PageData.PageDataMap) (pageKey : jsstring)
  : PageData.GridData :=
  match data with
  | [] => []
  | (k, rows) :: r => if eqb_str pageKey k then rows else rowsOf r pageKey
  end.

(** Lines 8-57; [None] is a [data] that is [null] or [undefined]. *)
Definition render (data : option PageData.PageDataMap) : view :=
  match data with
  | None | Some [] => Placeholder
  | Some d =>
      Tables (map (fun pageKey =>
                     (pageHeader pageKey, map renderRow (rowsOf d pageKey)))
                  (ExcelHelper.sortPages (map fst d)))
  end.

End DataTable.

(* ================================================================== *)
(** * Predicates of the proofs *)

Module Facts.
Import JS GeminiService.

(** The tag [json] of a fence, in any letter case. *)
Definition isJsonTag (tag : jsstring) : bool :=
  match tag with
  | [j; s; o; n] => eqCI 106 j && eqCI 115 s && eqCI 111 o && eqCI 110 n
  | _ => false
  end.

(** The literal the lexer is reading is made of lower case letters. *)
Definition letterLex (st : lexState) : bool :=
  match st with
  | LLiteral rest _ => forallb (fun c => (97 <=? c) && (c <=? 122)) rest
  | _ => true
  end.

(** No line of the text starts with white space and two slashes: the
    comment pattern matches nowhere after a line terminator. *)
Definition noCommentLine (s : jsstring) : Prop :=
  forall p t q,
    s = p ++ t :: q -> isLineTerminator t = true -> commentStart q = false.

(** [String] converts the value: no object with an own property
    [toString] is the value or an element, at any depth, of the arrays it
    is made of. *)
Fixpoint convertible (v : value) : bool :=
  match v with
  | VArr items => forallb convertible items
  | VObj o => match lookup (lit "toString") o with
              | Some _ => false
              | None => true
              end
  | _ => true
  end.

End Facts.

Example lit_ascii : JS.lit "a-1" = [97; 45; 49].
Proof. reflexivity. Qed.

Example lit_cjk : JS.lit "第 " = [31532; 32].
Proof. reflexivity. Qed.

Example parseInt_007 : JS.parseInt (JS.lit "007") = JS.Num 7.
Proof. reflexivity. Qed.

Example parseInt_empty : JS.parseInt [] = JS.NaN.
Proof. reflexivity. Qed.

Example decimal_120 : JS.decimal 120 = JS.lit "120".
Proof. reflexivity. Qed.

Example JSON_parse_page :
  JS.JSON_parse (JS.jsonLit "{'1': [['A','B\n'],[]], 'k': [1.5e3, null, true]}")
  = Some (JS.VObj [(JS.lit "1", JS.VArr [JS.VArr [JS.VStr (JS.lit "A"); JS.VStr [66; 10]]; JS.VArr []]);
                   (JS.lit "k", JS.VArr [JS.VNum (JS.lit "1.5e3"); JS.VNull; JS.VBool true])]).
Proof. reflexivity. Qed.

Example JSON_stringify_page :
  JS.stringify (JS.VObj [(JS.lit "1", JS.VArr [JS.VArr [JS.VStr (JS.lit "A"); JS.VStr [66; 10; 8232; 55357]]; JS.VArr []])])
  = JS.jsonLit "{'1':[['A','B\n" ++ [8232] ++ JS.jsonLit "\ud83d'],[]]}".
Proof. reflexivity. Qed.

Example parseResponse_fenced :
  GeminiService.parseResponse
    (JS.jsonLit "```json" ++ [10] ++ JS.jsonLit "// note" ++ [10]
       ++ JS.jsonLit "{'1': [['A']]}" ++ [10] ++ JS.jsonLit "```")
  = inr (JS.VObj [(JS.lit "1", JS.VArr [JS.VArr [JS.VStr (JS.lit "A")]])]).
Proof. reflexivity. Qed.

Example parseResponse_comment_between_rows :
  GeminiService.parseResponse
    (Scenario.fencedWithComment Sample.tableHead (JS.lit "  ")
       (JS.lit " first row") Sample.tableRows)
  = inr (JS.VObj [(JS.lit "1", JS.VArr [JS.VArr [JS.VStr (JS.lit "A"); JS.VNull]])]).
Proof. reflexivity. Qed.

Example parseResponse_comment_last :
  GeminiService.parseResponse
    (Scenario.fencedWithComment (Sample.onePage ++ [10]) [] (JS.lit " end") [])
  = inr (JS.VObj [(JS.lit "1", JS.VArr [JS.VArr [JS.VStr (JS.lit "A"); JS.VNull]])]).
Proof. reflexivity. Qed.

Example parseResponse_truncated :
  GeminiService.parseResponse (JS.jsonLit "{'1': [['A','B'],['C',")
  = inr (JS.VObj [(JS.lit "1", JS.VArr [JS.VArr [JS.VStr (JS.lit "A"); JS.VStr (JS.lit "B")]])]).
Proof. reflexivity. Qed.

(* ================================================================== *)
(** * The batch windows *)

Section Windows.
Import JS GeminiService.
Local Open Scope nat_scope.

Lemma pageIndices_seq i e :
  i < e -> pageIndices i (i + 1) e = seq i (e - i).
Proof.
  intro H. unfold pageIndices.
  replace (e - (i + 1) + 1) with (e - i) by lia.
  assert (G : forall n k, map (fun j => i + j) (seq k n) = seq (i + k) n).
  { induction n as [|n IH]; intro k; simpl; [reflexivity|].
    f_equal. rewrite IH. f_equal. lia. }
  rewrite G. f_equal. lia.
Qed.

Lemma div3_step n : (n + 3 + 2) / 3 = S ((n + 2) / 3).
Proof.
  replace (n + 3 + 2) with (1 * 3 + (n + 2)) by lia.
  rewrite Nat.div_add_l by lia. lia.
Qed.

Lemma windowsFrom_length fuel N i :
  N - i <= fuel -> List.length (windowsFrom fuel N i) = (N - i + 2) / 3.
Proof.
  revert i. induction fuel as [|fuel IH]; intros i Hf; cbn [windowsFrom].
  - destruct (Nat.ltb_spec i N); [lia|].
    replace (N - i + 2) with 2 by lia. reflexivity.
  - destruct (Nat.ltb_spec i N) as [Hlt|Hge].
    + cbn [List.length]. rewrite IH by (unfold BATCH_SIZE; lia).
      unfold BATCH_SIZE.
      destruct (Nat.le_ge_cases (i + 3) N) as [Hle|Hgt].
      * replace (N - i) with (N - (i + 3) + 3) by lia.
        now rewrite div3_step.
      * replace (N - (i + 3)) with 0 by lia.
        assert (E : N - i + 2 = 3 \/ N - i + 2 = 4 \/ N - i + 2 = 5) by lia.
        destruct E as [E|[E|E]]; rewrite E; reflexivity.
    + replace (N - i + 2) with 2 by lia. reflexivity.
Qed.

Lemma windowsFrom_cover fuel N i :
  N - i <= fuel ->
  List.concat (map windowPages (windowsFrom fuel N i)) = seq i (N - i).
Proof.
  revert i. induction fuel as [|fuel IH]; intros i Hf; simpl.
  - destruct (Nat.ltb_spec i N); [lia|].
    replace (N - i) with 0 by lia. reflexivity.
  - destruct (Nat.ltb_spec i N) as [Hlt|Hge].
    + simpl. rewrite IH by (unfold BATCH_SIZE; lia).
      unfold windowPages; simpl fst; simpl snd.
      rewrite pageIndices_seq by (unfold BATCH_SIZE; lia).
      unfold BATCH_SIZE.
      destruct (Nat.le_ge_cases (i + 3) N) as [Hle|Hgt].
      * rewrite Nat.min_l by lia.
        replace (N - i) with (3 + (N - (i + 3))) by lia.
        rewrite seq_app. f_equal. f_equal; lia.
      * rewrite Nat.min_r by lia.
        replace (N - (i + 3)) with 0 by lia. simpl. apply app_nil_r.
    + replace (N - i) with 0 by lia. reflexivity.
Qed.

Lemma windowsFrom_shape fuel N i :
  Forall (fun w => fst w < snd w /\ snd w <= N
                   /\ (snd w = fst w + BATCH_SIZE \/ snd w = N /\ N < fst w + BATCH_SIZE))
         (windowsFrom fuel N i).
Proof.
  revert i. induction fuel as [|fuel IH]; intro i; simpl.
  - destruct (i <? N); constructor.
  - destruct (Nat.ltb_spec i N) as [Hlt|Hge]; constructor; [|apply IH].
    simpl. unfold BATCH_SIZE. lia.
Qed.

End Windows.

(* ================================================================== *)
(** * The batch loop *)

Section Loop.
Import JS GeminiService.
Local Open Scope nat_scope.

Variable Page : Type.
Variable load : jsstring -> option (list Page).
Variable saveAsBase64 : list Page -> jsstring.
Variable copyError : thrown.
Variable generateContent : nat -> jsstring -> response.
Variable keysTypeError : jsstring.

Abbreviation batchLoop :=
  (batchLoop Page saveAsBase64 copyError generateContent keysTypeError).
Abbreviation subDocument := (subDocument Page saveAsBase64).
Abbreviation windowEvents := (windowEvents Page saveAsBase64).
Abbreviation batchFailure := (batchFailure keysTypeError).
Abbreviation mergeBatch := (mergeBatch keysTypeError).

Lemma skipn_nth_error (l : list Page) i pg :
  nth_error l i = Some pg -> skipn i l = pg :: skipn (S i) l.
Proof.
  revert i. induction l as [|x l IH]; intros [|i] H; simpl in *;
    try discriminate.
  - now inversion H.
  - apply IH in H. destruct l; [destruct i; discriminate|exact H].
Qed.

Lemma copyPages_seq (pdfDoc : list Page) n i :
  i + n <= List.length pdfDoc ->
  copyPages Page pdfDoc (seq i n) = Some (firstn n (skipn i pdfDoc)).
Proof.
  revert i. induction n as [|n IH]; intros i H; [reflexivity|].
  cbn [seq copyPages]. rewrite IH by lia.
  destruct (nth_error pdfDoc i) as [pg|] eqn:E.
  - rewrite (skipn_nth_error _ _ _ E). reflexivity.
  - apply nth_error_None in E. lia.
Qed.

(** One iteration of the loop on a window inside the document. *)
Lemma batchLoop_step fuel onProgress (pdfDoc : list Page) i agg log rq :
  i < List.length pdfDoc ->
  batchLoop (S fuel) onProgress pdfDoc (List.length pdfDoc) i agg log rq
  = let w := (i, Nat.min (i + BATCH_SIZE) (List.length pdfDoc)) in
    let log' := log ++ windowEvents onProgress pdfDoc w in
    match callGeminiWithRetry (generateContent rq (subDocument pdfDoc i)) with
    | inl e =>
        Some (log', Rejected (ErrorObj (batchErrorMessage (i + 1) (snd w) e)))
    | inr batchResult =>
        match mergeBatch i (i + 1) batchResult agg with
        | inl e =>
            Some (log', Rejected (ErrorObj (batchErrorMessage (i + 1) (snd w) e)))
        | inr agg' =>
            batchLoop fuel onProgress pdfDoc (List.length pdfDoc)
                      (i + BATCH_SIZE) agg' log' (S rq)
        end
    end.
Proof.
  intro Hi. cbn [GeminiService.batchLoop].
  destruct (Nat.ltb_spec i (List.length pdfDoc)) as [_|]; [|lia].
  rewrite pageIndices_seq by (unfold BATCH_SIZE; lia).
  rewrite copyPages_seq by (unfold BATCH_SIZE; lia).
  cbv zeta. unfold windowEvents, subDocument. cbn [fst snd].
  assert (L : forall l : list event,
             (if onProgress then log ++ l else log)
               ++ [Request (saveAsBase64
                    (firstn (Nat.min (i + BATCH_SIZE) (List.length pdfDoc) - i)
                            (skipn i pdfDoc)))]
             = log ++ (if onProgress then l else [])
                 ++ [Request (saveAsBase64
                    (firstn (Nat.min (i + BATCH_SIZE) (List.length pdfDoc) - i)
                            (skipn i pdfDoc)))]).
  { intro l. destruct onProgress; now rewrite <- ?app_assoc. }
  rewrite L.
  destruct (callGeminiWithRetry _) as [e|r]; [reflexivity|].
  destruct (GeminiService.mergeBatch _ _ _ _ _); reflexivity.
Qed.

Lemma batchLoop_step_ok fuel onProgress (pdfDoc : list Page) i agg log rq :
  i < List.length pdfDoc ->
  batchFailure (generateContent rq (subDocument pdfDoc i)) = None ->
  exists agg',
    batchLoop (S fuel) onProgress pdfDoc (List.length pdfDoc) i agg log rq
    = batchLoop fuel onProgress pdfDoc (List.length pdfDoc) (i + BATCH_SIZE) agg'
        (log ++ windowEvents onProgress pdfDoc
                  (i, Nat.min (i + BATCH_SIZE) (List.length pdfDoc)))
        (S rq).
Proof.
  intros Hi Hok. rewrite batchLoop_step by exact Hi. cbv zeta.
  unfold GeminiService.batchFailure in Hok. unfold GeminiService.mergeBatch.
  destruct (callGeminiWithRetry _) as [e|r]; [discriminate|].
  destruct (Object_keys r) as [ks|]; [|discriminate].
  eexists. reflexivity.
Qed.

Lemma batchLoop_step_fail fuel onProgress (pdfDoc : list Page) i agg log rq t :
  i < List.length pdfDoc ->
  batchFailure (generateContent rq (subDocument pdfDoc i)) = Some t ->
  batchLoop (S fuel) onProgress pdfDoc (List.length pdfDoc) i agg log rq
  = Some (log ++ windowEvents onProgress pdfDoc
                   (i, Nat.min (i + BATCH_SIZE) (List.length pdfDoc)),
          Rejected (ErrorObj
            (batchErrorMessage (i + 1)
               (Nat.min (i + BATCH_SIZE) (List.length pdfDoc)) t))).
Proof.
  intros Hi Hf. rewrite batchLoop_step by exact Hi. cbv zeta. cbn [snd].
  unfold GeminiService.batchFailure in Hf. unfold GeminiService.mergeBatch.
  destruct (callGeminiWithRetry _) as [e|r]; [now inversion Hf|].
  destruct (Object_keys r) as [ks|]; [discriminate|now inversion Hf].
Qed.

(** When no batch fails the loop visits every window and resolves. *)
Lemma batchLoop_all_ok onProgress (pdfDoc : list Page) fuel :
  forall i agg log rq,
  List.length pdfDoc - i <= fuel ->
  (forall j, i + BATCH_SIZE * j < List.length pdfDoc ->
     batchFailure (generateContent (rq + j)
                     (subDocument pdfDoc (i + BATCH_SIZE * j))) = None) ->
  exists agg',
    batchLoop fuel onProgress pdfDoc (List.length pdfDoc) i agg log rq
    = Some (log ++ flat_map (windowEvents onProgress pdfDoc)
                     (windowsFrom fuel (List.length pdfDoc) i),
            Resolved agg').
Proof.
  induction fuel as [|fuel IH]; intros i agg log rq Hf Hok.
  - cbn [GeminiService.batchLoop windowsFrom].
    destruct (Nat.ltb_spec i (List.length pdfDoc)); [lia|].
    exists agg. now rewrite app_nil_r.
  - destruct (Nat.ltb_spec i (List.length pdfDoc)) as [Hlt|Hge].
    + destruct (batchLoop_step_ok fuel onProgress pdfDoc i agg log rq Hlt)
        as [agg1 E1].
      { specialize (Hok 0). rewrite Nat.mul_0_r, !Nat.add_0_r in Hok.
        now apply Hok. }
      rewrite E1.
      destruct (IH (i + BATCH_SIZE) agg1
                   (log ++ windowEvents onProgress pdfDoc
                      (i, Nat.min (i + BATCH_SIZE) (List.length pdfDoc)))
                   (S rq)) as [agg2 E2].
      { unfold BATCH_SIZE. lia. }
      { intros j Hj. specialize (Hok (S j)).
        replace (rq + S j) with (S rq + j) in Hok by lia.
        replace (i + BATCH_SIZE * S j) with (i + BATCH_SIZE + BATCH_SIZE * j)
          in Hok by (unfold BATCH_SIZE; lia).
        apply Hok. exact Hj. }
      exists agg2. rewrite E2. cbn [windowsFrom].
      destruct (Nat.ltb_spec i (List.length pdfDoc)); [|lia].
      cbn [flat_map]. now rewrite <- !app_assoc.
    + cbn [GeminiService.batchLoop windowsFrom].
      destruct (Nat.ltb_spec i (List.length pdfDoc)); [lia|].
      exists agg. now rewrite app_nil_r.
Qed.

(** When the batch of window [k] is the first to fail, the loop stops
    there. *)
Lemma batchLoop_fails_at onProgress (pdfDoc : list Page) t k :
  forall fuel i agg log rq,
  List.length pdfDoc - i <= fuel ->
  i + BATCH_SIZE * k < List.length pdfDoc ->
  (forall j, j < k ->
     batchFailure (generateContent (rq + j)
                     (subDocument pdfDoc (i + BATCH_SIZE * j))) = None) ->
  batchFailure (generateContent (rq + k)
                  (subDocument pdfDoc (i + BATCH_SIZE * k))) = Some t ->
  batchLoop fuel onProgress pdfDoc (List.length pdfDoc) i agg log rq
  = Some (log ++ flat_map (windowEvents onProgress pdfDoc)
                   (firstn (S k) (windowsFrom fuel (List.length pdfDoc) i)),
          Rejected (ErrorObj
            (batchErrorMessage (i + BATCH_SIZE * k + 1)
               (Nat.min (i + BATCH_SIZE * k + BATCH_SIZE) (List.length pdfDoc))
               t))).
Proof.
  induction k as [|k IH]; intros fuel i agg log rq Hfuel Hk Hok Hfail.
  - rewrite Nat.mul_0_r, !Nat.add_0_r in *.
    destruct fuel as [|fuel]; [lia|].
    rewrite (batchLoop_step_fail fuel onProgress pdfDoc i agg log rq t Hk Hfail).
    cbn [windowsFrom]. destruct (Nat.ltb_spec i (List.length pdfDoc)); [|lia].
    cbn [firstn flat_map]. now rewrite app_nil_r.
  - destruct fuel as [|fuel]; [unfold BATCH_SIZE in *; lia|].
    assert (Hlt : i < List.length pdfDoc) by lia.
    destruct (batchLoop_step_ok fuel onProgress pdfDoc i agg log rq Hlt)
      as [agg1 E1].
    { specialize (Hok 0). rewrite Nat.mul_0_r, !Nat.add_0_r in Hok.
      apply Hok. lia. }
    rewrite E1.
    rewrite (IH fuel (i + BATCH_SIZE) agg1 _ (S rq)).
    + cbn [windowsFrom]. destruct (Nat.ltb_spec i (List.length pdfDoc)); [|lia].
      cbn [firstn flat_map]. rewrite <- !app_assoc.
      replace (i + BATCH_SIZE + BATCH_SIZE * k) with (i + BATCH_SIZE * S k)
        by (unfold BATCH_SIZE; lia).
      reflexivity.
    + unfold BATCH_SIZE. lia.
    + unfold BATCH_SIZE in *. lia.
    + intros j Hj. specialize (Hok (S j)).
      replace (rq + S j) with (S rq + j) in Hok by lia.
      replace (i + BATCH_SIZE * S j) with (i + BATCH_SIZE + BATCH_SIZE * j)
        in Hok by (unfold BATCH_SIZE; lia).
      apply Hok. lia.
    + replace (S rq + k) with (rq + S k) by lia.
      replace (i + BATCH_SIZE + BATCH_SIZE * k) with (i + BATCH_SIZE * S k)
        by (unfold BATCH_SIZE; lia).
      exact Hfail.
Qed.

Lemma indexOf_eq pat s :
  indexOf pat s
  = if startsWith pat s then Some 0
    else match s with
         | [] => None
         | _ :: s' => option_map S (indexOf pat s')
         end.
Proof. destruct s; reflexivity. Qed.

Lemma startsWith_app x y : startsWith x (x ++ y) = true.
Proof.
  induction x as [|c x IH]; simpl; [reflexivity|]. now rewrite N.eqb_refl, IH.
Qed.

Lemma includes_app pat a b : includes pat (a ++ pat ++ b) = true.
Proof.
  unfold includes.
  induction a as [|c a IH]; rewrite indexOf_eq.
  - simpl. now rewrite startsWith_app.
  - destruct (startsWith pat ((c :: a) ++ pat ++ b)); [reflexivity|].
    simpl. destruct (indexOf pat (a ++ pat ++ b)); [reflexivity|discriminate].
Qed.

(** C1. With [BATCH_SIZE = 3] a document of [N] pages is cut into
    [ceil(N / 3)] windows; the page indices of the windows (lines 43-45),
    put one after the other, are exactly [0, 1, ..., N - 1], so the
    windows are consecutive, do not overlap and cover the document; every
    window has three pages except possibly the last, which is shorter;
    and a run in which no batch fails makes one request per window, in
    this order, and resolves. *)
Theorem batch_windows_partition onProgress (pdfDoc : list Page) :
  (forall rq d, batchFailure (generateContent rq d) = None) ->
  let N := List.length pdfDoc in
  List.length (windows N) = (N + 2) / 3
  /\ (N <= 3 * List.length (windows N)
      /\ forall c, N <= 3 * c -> List.length (windows N) <= c)
  /\ List.concat (map windowPages (windows N)) = seq 0 N
  /\ Forall (fun w => windowPages w = seq (fst w) (snd w - fst w)
                      /\ fst w < snd w <= N
                      /\ (snd w = fst w + 3 \/ snd w = N /\ N < fst w + 3))
            (windows N)
  /\ exists agg,
       batchLoop N onProgress pdfDoc N 0 [] [] 0
       = Some (flat_map (windowEvents onProgress pdfDoc) (windows N),
               Resolved agg).
Proof.
  intros Hok N.
  assert (L : List.length (windows N) = (N + 2) / 3).
  { unfold windows. rewrite windowsFrom_length by lia. now rewrite Nat.sub_0_r. }
  split; [exact L|]. split.
  - rewrite L. pose proof (Nat.div_mod_eq (N + 2) 3) as D.
    pose proof (Nat.mod_upper_bound (N + 2) 3) as U.
    split; [lia|]. intros c Hc. lia.
  - split.
    + unfold windows. rewrite windowsFrom_cover by lia. now rewrite Nat.sub_0_r.
    + split.
      * unfold windows. eapply Forall_impl; [|apply windowsFrom_shape].
        intros [a b]; cbn [fst snd]; unfold BATCH_SIZE; intros (H1 & H2 & H3).
        split; [|lia]. unfold windowPages; cbn [fst snd].
        now apply pageIndices_seq.
      * destruct (batchLoop_all_ok onProgress pdfDoc N 0 [] [] 0) as [agg E].
        { lia. }
        { intros j _. apply Hok. }
        exists agg. exact E.
Qed.

(** C10. A document without pages resolves to the empty map: the body of
    the loop is never entered, so no request is made to the service and
    no progress message is emitted. *)
Theorem zero_pages_resolves_empty base64Data apiKey onProgress pdfDoc :
  apiKey <> [] ->
  load base64Data = Some pdfDoc ->
  List.length pdfDoc = 0 ->
  processFile Page load saveAsBase64 copyError generateContent keysTypeError
              base64Data apiKey onProgress
  = Some ([], Resolved []).
Proof.
  intros Hkey Hload Hlen. unfold processFile.
  destruct apiKey; [congruence|]. rewrite Hload, Hlen. reflexivity.
Qed.

Lemma batchErrorMessage_eq s e t :
  batchErrorMessage s e t
  = lit "第 " ++ (nat_decimal s ++ lit "-" ++ nat_decimal e)
      ++ lit " 頁處理失敗: "
      ++ match t with ErrorObj m => m | NonError => lit "未知錯誤" end.
Proof. unfold batchErrorMessage. now rewrite <- !app_assoc. Qed.

(** C3. When the batch of window [k] is the first to fail, the run is
    rejected: the log holds the events of the windows up to [k] and of no
    later one, no map is returned, and the message of the error holds the
    1-based range of the failing window, followed by the message of the
    cause when the cause is an Error. *)
Theorem batch_failure_aborts base64Data apiKey onProgress pdfDoc k t :
  apiKey <> [] ->
  load base64Data = Some pdfDoc ->
  3 * k < List.length pdfDoc ->
  (forall j, j < k ->
     batchFailure (generateContent j (subDocument pdfDoc (3 * j))) = None) ->
  batchFailure (generateContent k (subDocument pdfDoc (3 * k))) = Some t ->
  let N := List.length pdfDoc in
  let range := nat_decimal (3 * k + 1) ++ lit "-" ++ nat_decimal (Nat.min (3 * k + 3) N) in
  exists message,
    processFile Page load saveAsBase64 copyError generateContent keysTypeError
                base64Data apiKey onProgress
    = Some (flat_map (windowEvents onProgress pdfDoc) (firstn (S k) (windows N)),
            Rejected (ErrorObj message))
    /\ List.length (firstn (S k) (windows N)) = S k
    /\ includes range message = true
    /\ (forall cause, t = ErrorObj cause ->
          includes cause message = true
          /\ message = lit "第 " ++ range ++ lit " 頁處理失敗: " ++ cause)
    /\ (t = NonError -> message = lit "第 " ++ range ++ lit " 頁處理失敗: " ++ lit "未知錯誤").
Proof.
  intros Hkey Hload Hk Hok Hfail N range.
  exists (batchErrorMessage (3 * k + 1) (Nat.min (3 * k + 3) N) t).
  split; [|split; [|split; [|split]]].
  - unfold processFile. destruct apiKey; [congruence|]. rewrite Hload.
    rewrite (batchLoop_fails_at onProgress pdfDoc t k); try (simpl; lia).
    + reflexivity.
    + intros j Hj. rewrite !Nat.add_0_l. now apply Hok.
    + rewrite !Nat.add_0_l. exact Hfail.
  - apply firstn_length_le. unfold windows.
    rewrite windowsFrom_length by lia. rewrite Nat.sub_0_r. fold N.
    replace (N + 2) with (1 * 3 + (N - 1)) by lia.
    rewrite Nat.div_add_l by lia.
    assert (k <= (N - 1) / 3); [|lia].
    apply Nat.div_le_lower_bound; lia.
  - unfold range. rewrite batchErrorMessage_eq. apply includes_app.
  - intros cause ->. split.
    + unfold batchErrorMessage.
      rewrite <- (app_nil_r cause) at 2.
      rewrite !app_assoc. rewrite <- app_assoc. apply includes_app.
    + unfold range. now rewrite batchErrorMessage_eq.
  - intros ->. unfold range. now rewrite batchErrorMessage_eq.
Qed.

End Loop.

(** A five page run with a callback: two windows, two progress messages,
    two requests, and the keys 1-3 and 1-2 of the batches stored under
    1-3 and 4-5. *)
Example scenario_A :
  GeminiService.windows 5 = [(0, 3); (3, 5)]%nat
  /\ GeminiService.processFile nat Sample.load Sample.saveAsBase64
       GeminiService.NonError Sample.labelling Sample.typeErrorMessage
       (JS.lit "pdf") (JS.lit "key") true
     = Some ([GeminiService.Progress (JS.lit "正在分析第 1 - 3 頁 (共 5 頁)...");
              GeminiService.Request [0; 1; 2];
              GeminiService.Progress (JS.lit "正在分析第 4 - 5 頁 (共 5 頁)...");
              GeminiService.Request [3; 4]],
             GeminiService.Resolved
               (map (fun k => (JS.lit k, JS.VArr [JS.VArr [JS.VStr (JS.lit "p")]]))
                    ["1"; "2"; "3"; "4"; "5"]%string)).
Proof. split; reflexivity. Qed.

Lemma batch_windows_partition_witness :
  (forall rq d,
     GeminiService.batchFailure Sample.typeErrorMessage (Sample.steady rq d) = None)
  /\ List.length (GeminiService.windows 5) = 2%nat
  /\ exists agg,
       GeminiService.batchLoop nat Sample.saveAsBase64 GeminiService.NonError
         Sample.steady Sample.typeErrorMessage 5 true Sample.fivePages 5 0 [] [] 0
       = Some (flat_map (GeminiService.windowEvents nat Sample.saveAsBase64 true
                           Sample.fivePages)
                        (GeminiService.windows 5),
               GeminiService.Resolved agg).
Proof.
  split; [intros; reflexivity|].
  destruct (batch_windows_partition nat Sample.saveAsBase64 GeminiService.NonError
              Sample.steady Sample.typeErrorMessage true Sample.fivePages)
    as (H1 & _ & _ & _ & H5); [intros; reflexivity|].
  split; [exact H1|exact H5].
Defined.

Lemma zero_pages_resolves_empty_witness :
  JS.lit "key" <> []
  /\ Sample.load [] = Some []
  /\ GeminiService.processFile nat Sample.load Sample.saveAsBase64
       GeminiService.NonError Sample.steady Sample.typeErrorMessage
       [] (JS.lit "key") true
     = Some ([], GeminiService.Resolved []).
Proof.
  split; [discriminate|]. split; [reflexivity|].
  apply (zero_pages_resolves_empty nat Sample.load Sample.saveAsBase64
           GeminiService.NonError Sample.steady Sample.typeErrorMessage
           [] (JS.lit "key") true []);
    [discriminate|reflexivity|reflexivity].
Defined.

Lemma batch_failure_aborts_witness :
  GeminiService.processFile nat Sample.load Sample.saveAsBase64
    GeminiService.NonError Sample.secondThrows Sample.typeErrorMessage
    (JS.lit "pdf") (JS.lit "key") false
  = Some ([GeminiService.Request [0; 1; 2]; GeminiService.Request [3; 4]],
          GeminiService.Rejected
            (GeminiService.ErrorObj (JS.lit "第 4-5 頁處理失敗: quota"))).
Proof.
  destruct (batch_failure_aborts nat Sample.load Sample.saveAsBase64
              GeminiService.NonError Sample.secondThrows Sample.typeErrorMessage
              (JS.lit "pdf") (JS.lit "key") false Sample.fivePages 1
              (GeminiService.ErrorObj (JS.lit "quota")))
    as (message & E & _ & _ & Hc & _).
  - discriminate.
  - reflexivity.
  - simpl; lia.
  - intros j Hj. assert (j = 0%nat) as -> by lia. reflexivity.
  - reflexivity.
  - destruct (Hc _ eq_refl) as [_ ->]. exact E.
Defined.

(* ================================================================== *)
(** * Renumbering of the page keys *)

Section Renumbering.
Import JS GeminiService.

Lemma uint_units_digits d : forallb isDigit (uint_units d) = true.
Proof. induction d; simpl; auto. Qed.

Lemma decimal_digits n : forallb isDigit (decimal n) = true.
Proof. apply uint_units_digits. Qed.

Lemma isDigit_not_space c : isDigit c = true -> isSpace c = false.
Proof.
  unfold isDigit, isSpace. intro H.
  apply andb_true_iff in H. destruct H as [H1 H2].
  apply N.leb_le in H1. apply N.leb_le in H2.
  repeat match goal with
         | |- context [?a =? ?b] =>
             let E := fresh in
             destruct (N.eqb_spec a b) as [E|E]; [lia|]
         end.
  destruct (N.leb_spec 8192 c); [lia|]. reflexivity.
Qed.

Lemma takeDigits_all ds : forallb isDigit ds = true -> takeDigits ds = ds.
Proof.
  induction ds as [|c ds IH]; simpl; [reflexivity|].
  intro H. apply andb_true_iff in H. destruct H as [H1 H2].
  now rewrite H1, IH.
Qed.

Lemma isDigit_range c : isDigit c = true -> 48 <= c <= 57.
Proof.
  unfold isDigit. intro H. apply andb_true_iff in H. destruct H as [H1 H2].
  apply N.leb_le in H1. apply N.leb_le in H2. lia.
Qed.

(** [parseInt] on a non-empty string of digits reads its decimal value. *)
Lemma parseInt_digits ds :
  ds <> [] -> forallb isDigit ds = true ->
  parseInt ds = Num (Z.of_N (digitsValue ds)).
Proof.
  intros Hne Hd. destruct ds as [|c ds]; [congruence|].
  pose proof Hd as Hd'. simpl in Hd'. apply andb_true_iff in Hd'.
  destruct Hd' as [Hc Hds]. pose proof (isDigit_range c Hc) as Rc.
  unfold parseInt. cbn [trimStart]. rewrite (isDigit_not_space c Hc).
  assert (S1 : splitSign (c :: ds) = (false, c :: ds)).
  { unfold splitSign.
    destruct (N.eqb_spec c 45); [lia|]. destruct (N.eqb_spec c 43); [lia|].
    reflexivity. }
  rewrite S1.
  assert (S2 : splitHexPrefix (c :: ds) = (false, c :: ds)).
  { unfold splitHexPrefix. destruct ds as [|d ds]; [reflexivity|].
    simpl in Hds. apply andb_true_iff in Hds. destruct Hds as [Hd1 _].
    pose proof (isDigit_range d Hd1) as Rd.
    destruct (N.eqb_spec d 120); [lia|]. destruct (N.eqb_spec d 88); [lia|].
    now rewrite andb_false_r. }
  rewrite S2. rewrite takeDigits_all by exact Hd. reflexivity.
Qed.

Lemma stripNonDigits_digits s : forallb isDigit (stripNonDigits s) = true.
Proof.
  unfold stripNonDigits. induction s as [|c s IH]; simpl; [reflexivity|].
  destruct (isDigit c) eqn:E; simpl; [now rewrite E|exact IH].
Qed.

Lemma stripNonDigits_nil s :
  stripNonDigits s = [] <-> existsb isDigit s = false.
Proof.
  unfold stripNonDigits. induction s as [|c s IH]; simpl; [tauto|].
  destruct (isDigit c); simpl; [split; discriminate|exact IH].
Qed.

Lemma globalKey_numeric i startPage key :
  existsb isDigit key = true ->
  globalKey i startPage key
  = decimal (N.of_nat i + digitsValue (stripNonDigits key)).
Proof.
  intro H. unfold globalKey.
  rewrite parseInt_digits.
  - cbn [isNaN negb]. unfold String_of_number.
    destruct (Z.ltb_spec (Z.of_nat i + Z.of_N (digitsValue (stripNonDigits key))) 0);
      [lia|].
    f_equal. lia.
  - intro E. apply stripNonDigits_nil in E. congruence.
  - apply stripNonDigits_digits.
Qed.

(** C2, as the code has it.  For a key with at least one decimal digit
    the renumbering removes every character that is not a digit, reads
    the digits that remain (all the digits of the key, in order, not only
    its longest run) as [localNumber], and stores the value under the
    decimal text of [w + localNumber]; the bound is the range on which
    JavaScript numbers are exact. *)
Theorem globalKey_all_digits w key :
  existsb isDigit key = true ->
  N.of_nat w + digitsValue (stripNonDigits key) < 2 ^ 53 ->
  globalKey w (w + 1) key
  = decimal (N.of_nat w + digitsValue (stripNonDigits key)).
Proof. intros H _. now apply globalKey_numeric. Qed.

Lemma String_of_number_chars z :
  forallb (fun c => isDigit c || (c =? 45)) (String_of_number (Num z)) = true.
Proof.
  assert (D : forall n, forallb (fun c => isDigit c || (c =? 45)) (decimal n) = true).
  { intro n. pose proof (decimal_digits n) as H.
    induction (decimal n) as [|c l IH]; simpl in *; [reflexivity|].
    apply andb_true_iff in H. destruct H as [H1 H2]. now rewrite H1, IH. }
  unfold String_of_number. destruct (z <? 0)%Z; simpl; now rewrite ?D.
Qed.

(** C6. A key without any decimal digit is stored under the key itself
    followed by [_batch_] and the 1-based first page of the window; this
    text is the decimal text of no integer. *)
Theorem globalKey_fallback w key :
  existsb isDigit key = false ->
  globalKey w (w + 1) key = key ++ lit "_batch_" ++ nat_decimal (w + 1)
  /\ forall z : Z, globalKey w (w + 1) key <> String_of_number (Num z).
Proof.
  intro H.
  assert (E : globalKey w (w + 1) key = key ++ lit "_batch_" ++ nat_decimal (w + 1)).
  { unfold globalKey. apply stripNonDigits_nil in H. rewrite H. reflexivity. }
  split; [exact E|]. intros z Hz. rewrite E in Hz.
  pose proof (String_of_number_chars z) as C. rewrite <- Hz in C.
  rewrite forallb_app in C. apply andb_true_iff in C. destruct C as [_ C].
  discriminate C.
Qed.

End Renumbering.

(** C2 as the specification words it fails on a key with two runs of
    digits: the code reads 123 where the longest run reads 23. *)
Lemma longest_run_counterexample :
  ~ (forall w key,
       existsb JS.isDigit key = true ->
       GeminiService.globalKey w (w + 1) key = PageRenumberer.toGlobalKey w key).
Proof.
  intro H. specialize (H 0%nat (JS.lit "1a23") eq_refl). discriminate H.
Qed.

Lemma globalKey_all_digits_witness :
  existsb JS.isDigit (JS.lit "3") = true
  /\ GeminiService.globalKey 6 7 (JS.lit "3") = JS.lit "9".
Proof.
  split; [reflexivity|].
  apply (globalKey_all_digits 6 (JS.lit "3")); [reflexivity|reflexivity].
Defined.

Lemma globalKey_fallback_witness :
  existsb JS.isDigit (JS.lit "page-x") = false
  /\ GeminiService.globalKey 0 1 (JS.lit "page-x") = JS.lit "page-x_batch_1".
Proof.
  split; [reflexivity|].
  apply (globalKey_fallback 0 (JS.lit "page-x")). reflexivity.
Defined.

Example globalKey_two_runs :
  GeminiService.globalKey 0 1 (JS.lit "1a23") = JS.lit "123"
  /\ PageRenumberer.toGlobalKey 0 (JS.lit "1a23") = JS.lit "23".
Proof. split; reflexivity. Qed.

(* ================================================================== *)
(** * Export *)

Section ExportProofs.
Import JS ExcelHelper.

Variable numberToString : jsstring -> jsstring.

Abbreviation sanitizeGridData := (sanitizeGridData numberToString).
Abbreviation sanitizeCell := (sanitizeCell numberToString).
Abbreviation String_of_value := (String_of_value numberToString).
Abbreviation mergeRows := (mergeRows numberToString).

(** ** Maps that may throw *)

Lemma mapM_nth {A B : Type} (f : A -> option B) l ys :
  mapM f l = Some ys ->
  List.length ys = List.length l
  /\ forall i x, nth_error l i = Some x ->
                 exists y, nth_error ys i = Some y /\ f x = Some y.
Proof.
  revert ys. induction l as [|a l IH]; intros ys H; cbn [mapM] in H.
  - injection H as <-. split; [reflexivity|]. intros [|i] x Hx; discriminate Hx.
  - destruct (f a) as [y|] eqn:Fa; [|discriminate H].
    destruct (mapM f l) as [zs|] eqn:M; [|discriminate H].
    injection H as <-. destruct (IH zs eq_refl) as [L N].
    split; [cbn [List.length]; now rewrite L|].
    intros [|i] x Hx; cbn [nth_error] in *.
    + injection Hx as <-. now exists y.
    + now apply N.
Qed.

Lemma mapM_None {A B : Type} (f : A -> option B) l :
  mapM f l = None <-> exists i x, nth_error l i = Some x /\ f x = None.
Proof.
  induction l as [|a l IH]; cbn [mapM].
  - split; [discriminate|]. intros ([|i] & x & Hx & _); discriminate Hx.
  - destruct (f a) as [y|] eqn:Fa.
    + destruct (mapM f l) as [zs|].
      * split; [discriminate|]. intros ([|i] & x & Hx & Fx).
        -- injection Hx as <-. congruence.
        -- cbn [nth_error] in Hx.
           assert (X : Some zs = None) by (apply IH; now exists i, x).
           discriminate X.
      * split; [|reflexivity]. intros _.
        destruct (proj1 IH eq_refl) as (i & x & Hx & Fx).
        now exists (S i), x.
    + split; [|reflexivity]. intros _. now exists 0%nat, a.
Qed.

(** A map that does not throw is the map of the values returned. *)
Lemma mapM_map {A B : Type} (f : A -> option B) (d : B) l ys :
  mapM f l = Some ys ->
  ys = map (fun x => match f x with Some y => y | None => d end) l.
Proof.
  revert ys. induction l as [|a l IH]; intros ys H; cbn [mapM] in H.
  - now injection H as <-.
  - destruct (f a) as [y|] eqn:Fa; [|discriminate H].
    destruct (mapM f l) as [zs|]; [|discriminate H].
    injection H as <-. cbn [map]. rewrite Fa. f_equal. now apply IH.
Qed.

Lemma mapM_Permutation {A B : Type} (f : A -> option B) l l' :
  Permutation l l' -> mapM f l = None -> mapM f l' = None.
Proof.
  intros P H. apply mapM_None in H. destruct H as (i & x & Hx & Fx).
  apply nth_error_In in Hx. apply (Permutation_in _ P) in Hx.
  apply In_nth_error in Hx. destruct Hx as [j Hj].
  apply mapM_None. now exists j, x.
Qed.

Lemma mapM_ext_in {A B : Type} (f g : A -> option B) l :
  (forall x, In x l -> f x = g x) -> mapM f l = mapM g l.
Proof.
  induction l as [|a l IH]; intro H; [reflexivity|]. cbn [mapM].
  rewrite (H a (or_introl eq_refl)), IH; [reflexivity|].
  intros x Hx. apply H. now right.
Qed.

Lemma mapM_compose {A B C : Type} (g : A -> B) (f : B -> option C) l :
  mapM f (map g l) = mapM (fun x => f (g x)) l.
Proof.
  induction l as [|a l IH]; [reflexivity|]. cbn [map mapM]. now rewrite IH.
Qed.

(** ** [String] *)

(** [String] throws exactly on the values that are or hold, in nested
    arrays, an object with an own property [toString]. *)
Lemma String_of_value_convertible v :
  String_of_value v = None <-> Facts.convertible v = false.
Proof.
  revert v. fix IH 1. intros [| |[|]|x|s|items|o]; cbn [String_of_value Facts.convertible];
    try (split; discriminate).
  - induction items as [|a items IHi]; cbn [mapM forallb option_map];
      [split; discriminate|].
    assert (Ha : match a with
                 | VUndefined | VNull => Some []
                 | _ => String_of_value a
                 end = None <-> Facts.convertible a = false).
    { pose proof (IH a) as Q. destruct a; try exact Q; split; discriminate. }
    destruct (match a with
              | VUndefined | VNull => Some []
              | _ => String_of_value a
              end) as [y|].
    + destruct (Facts.convertible a); [|discriminate (proj2 Ha eq_refl)].
      cbn [andb]. rewrite <- IHi.
      destruct (mapM _ items); cbn [option_map]; split; congruence.
    + rewrite (proj1 Ha eq_refl). cbn [option_map andb]. now split.
  - destruct (lookup (lit "toString") o); split; congruence.
Qed.

Lemma sanitizeCell_convertible cell :
  sanitizeCell cell = None <-> Facts.convertible cell = false.
Proof.
  destruct cell; try apply String_of_value_convertible; split; discriminate.
Qed.

(** C9. A grid that is not an array gives no rows.  Of a grid that is an
    array, [String] throws, and nothing is exported, exactly when a cell
    of a row is or holds, in nested arrays, an object with an own property
    [toString].  Otherwise every row keeps its place, a row that is not an
    array becomes the empty row, a row that is an array keeps its length
    and every cell of it is replaced by a string: the empty string for
    [null] and [undefined], the string itself for a string, and
    [String(cell)] for anything else. *)
Theorem sanitize_coerces_cells rows :
  match rows with
  | VArr rs =>
      (sanitizeGridData rows = None
       <-> exists r cells c cell,
             nth_error rs r = Some (VArr cells)
             /\ nth_error cells c = Some cell
             /\ Facts.convertible cell = false)
      /\ forall grid,
           sanitizeGridData rows = Some grid ->
           List.length grid = List.length rs
           /\ forall r row,
                nth_error rs r = Some row ->
                exists row',
                  nth_error grid r = Some row'
                  /\ match row with
                     | VArr cells =>
                         List.length row' = List.length cells
                         /\ forall c cell,
                              nth_error cells c = Some cell ->
                              exists text,
                                nth_error row' c = Some text
                                /\ (cell = VNull \/ cell = VUndefined ->
                                    text = [])
                                /\ (forall s, cell = VStr s -> text = s)
                                /\ (cell <> VNull -> cell <> VUndefined ->
                                    String_of_value cell = Some text)
                     | _ => row' = []
                     end
  | _ => sanitizeGridData rows = Some []
  end.
Proof.
  destruct rows as [| | | | |rs|]; try reflexivity.
  cbn [ExcelHelper.sanitizeGridData]. split.
  - rewrite mapM_None. split.
    + intros (r & row & Hr & Hrow).
      destruct row as [| | | | |cells|]; try discriminate Hrow.
      apply mapM_None in Hrow. destruct Hrow as (c & cell & Hc & Hcell).
      exists r, cells, c, cell. split; [exact Hr|]. split; [exact Hc|].
      now apply sanitizeCell_convertible.
    + intros (r & cells & c & cell & Hr & Hc & Hcell).
      exists r, (VArr cells). split; [exact Hr|].
      apply mapM_None. exists c, cell. split; [exact Hc|].
      now apply sanitizeCell_convertible.
  - intros grid H. apply mapM_nth in H. destruct H as [L N].
    split; [exact L|]. intros r row Hr.
    destruct (N r row Hr) as (row' & Hrow' & Frow).
    exists row'. split; [exact Hrow'|].
    destruct row as [| | | | |cells|]; try (now injection Frow as <-).
    apply mapM_nth in Frow. destruct Frow as [Lc Nc].
    split; [exact Lc|]. intros c cell Hc.
    destruct (Nc c cell Hc) as (text & Htext & Fcell).
    exists text. split; [exact Htext|]. split; [|split].
    + intros [-> | ->]; now injection Fcell as <-.
    + intros s ->. now injection Fcell as <-.
    + intros H1 H2. destruct cell; try exact Fcell; congruence.
Qed.

(** ** Order of the pages *)

Lemma before_lt a b : before a b = true <-> (sortKey a < sortKey b)%Z.
Proof. unfold before. rewrite Z.ltb_lt. lia. Qed.

Lemma insertKey_perm x l : Permutation (x :: l) (insertKey x l).
Proof.
  induction l as [|y l IH]; simpl; [apply Permutation_refl|].
  destruct (before x y); [apply Permutation_refl|].
  eapply perm_trans; [apply perm_swap|].
  now apply perm_skip.
Qed.

Lemma insertKey_sorted x l :
  StronglySorted keyLe l -> StronglySorted keyLe (insertKey x l).
Proof.
  induction 1 as [|y l Hs IH Hall]; simpl.
  - constructor; constructor.
  - destruct (before x y) eqn:E.
    + apply before_lt in E. constructor; [now constructor|].
      constructor; [unfold keyLe; lia|].
      eapply Forall_impl; [|exact Hall]. unfold keyLe. intros; lia.
    + assert (L : (sortKey y <= sortKey x)%Z).
      { destruct (Z.le_gt_cases (sortKey y) (sortKey x)) as [|G]; [assumption|].
        apply before_lt in G. congruence. }
      constructor; [exact IH|].
      eapply Permutation_Forall; [apply insertKey_perm|].
      now constructor.
Qed.

Lemma sortPages_from_sorted keys acc :
  StronglySorted keyLe acc ->
  StronglySorted keyLe (fold_left (fun sorted x => insertKey x sorted) keys acc)
  /\ Permutation (acc ++ keys)
       (fold_left (fun sorted x => insertKey x sorted) keys acc).
Proof.
  revert acc. induction keys as [|k keys IH]; intros acc Hs; simpl.
  - rewrite app_nil_r. split; [exact Hs|apply Permutation_refl].
  - destruct (IH (insertKey k acc) (insertKey_sorted k acc Hs)) as [S P].
    split; [exact S|].
    eapply perm_trans; [|exact P].
    eapply perm_trans; [apply Permutation_sym, Permutation_middle|].
    apply (Permutation_app_tail keys (insertKey_perm k acc)).
Qed.

(** The pages come out in the order of their numeric sort keys, each
    page key exactly once. *)
Lemma sortPages_sorted keys :
  StronglySorted keyLe (sortPages keys) /\ Permutation keys (sortPages keys).
Proof.
  unfold sortPages.
  destruct (sortPages_from_sorted keys []) as [S P]; [constructor|].
  split; [exact S|exact P].
Qed.

(** In merge mode every page contributes its sanitized rows followed by
    one empty row; no rows are handed over when [String] throws on a
    page. *)
Lemma mergeRows_flat_map data :
  mergeRows data
  = option_map (flat_map (fun cleanRows => cleanRows ++ [[]]))
      (mapM (fun pageKey => sanitizeGridData (getProp (VObj data) pageKey))
            (sortPages (map fst data))).
Proof.
  unfold ExcelHelper.mergeRows.
  set (f := fun pageKey => sanitizeGridData (getProp (VObj data) pageKey)).
  assert (G : forall l acc,
             fold_left
               (fun acc pageKey =>
                  match acc with
                  | Some allRows =>
                      match f pageKey with
                      | Some cleanRows => Some ((allRows ++ cleanRows) ++ [[]])
                      | None => None
                      end
                  | None => None
                  end) l acc
             = match acc with
               | Some allRows =>
                   option_map
                     (fun pages =>
                        allRows
                          ++ flat_map (fun cleanRows => cleanRows ++ [[]]) pages)
                     (mapM f l)
               | None => None
               end).
  { induction l as [|k l IH]; intro acc; cbn [fold_left mapM].
    - destruct acc; [|reflexivity]. cbn [option_map flat_map].
      now rewrite app_nil_r.
    - rewrite IH. destruct acc as [allRows|]; [|reflexivity].
      destruct (f k) as [cleanRows|]; [|reflexivity].
      destruct (mapM f l) as [pages|]; [|reflexivity].
      cbn [option_map flat_map]. now rewrite <- !app_assoc. }
  rewrite G. now destruct (mapM f (sortPages (map fst data))).
Qed.

(** The rows of merge mode when [String] throws on no page: [rowsOf]
    gives the sanitized rows of each page. *)
Lemma mergeRows_returns data rowsOf :
  (forall pageKey,
     In pageKey (map fst data) ->
     sanitizeGridData (getProp (VObj data) pageKey) = Some (rowsOf pageKey)) ->
  mergeRows data
  = Some (flat_map (fun pageKey => rowsOf pageKey ++ [[]])
                   (sortPages (map fst data))).
Proof.
  intro H. rewrite mergeRows_flat_map.
  destruct (sortPages_sorted (map fst data)) as [_ P].
  assert (G : forall l,
             (forall k, In k l -> In k (map fst data)) ->
             mapM (fun pageKey =>
                     sanitizeGridData (getProp (VObj data) pageKey)) l
             = Some (map rowsOf l)).
  { induction l as [|k l IH]; intro I; [reflexivity|]. cbn [mapM map].
    rewrite (H k (I k (or_introl eq_refl))).
    rewrite IH; [reflexivity|]. intros q Hq. apply I. now right. }
  rewrite G.
  - cbn [option_map]. f_equal. now rewrite !flat_map_concat_map, map_map.
  - intros k Hk. apply Permutation_sym in P. exact (Permutation_in _ P Hk).
Qed.

(** Merge mode hands over no rows exactly when [String] throws on a
    page. *)
Lemma mergeRows_throws data :
  mergeRows data = None
  <-> exists pageKey,
        In pageKey (map fst data)
        /\ sanitizeGridData (getProp (VObj data) pageKey) = None.
Proof.
  rewrite mergeRows_flat_map.
  destruct (sortPages_sorted (map fst data)) as [_ P].
  split.
  - intro H.
    destruct (mapM _ (sortPages (map fst data))) eqn:M; [discriminate H|].
    apply mapM_None in M. destruct M as (i & k & Hk & Fk).
    exists k. split; [|exact Fk].
    apply nth_error_In in Hk. apply Permutation_sym in P.
    exact (Permutation_in _ P Hk).
  - intros (k & Hk & Fk).
    apply (Permutation_in _ P) in Hk. apply In_nth_error in Hk.
    destruct Hk as [i Hi].
    assert (M : mapM (fun pageKey =>
                        sanitizeGridData (getProp (VObj data) pageKey))
                     (sortPages (map fst data)) = None).
    { apply mapM_None. now exists i, k. }
    now rewrite M.
Qed.

End ExportProofs.

(** C8, the order of the pages: page 10 comes after page 9. *)
Example sortPages_numeric :
  ExcelHelper.sortPages (map JS.lit ["10"; "9"; "2_batch_1"; "x"; "1"]%string)
  = map JS.lit ["x"; "1"; "9"; "10"; "2_batch_1"]%string.
Proof. reflexivity. Qed.

(** C8, the separator rows: a map with one page gives the rows of the page
    followed by an empty row, so one separator row and not zero. *)
Theorem merge_single_page_trailing_row :
  ExcelHelper.mergeRows (fun x => x)
    [(JS.lit "1", JS.VArr [JS.VArr [JS.VStr (JS.lit "a")]])]
  = Some [[JS.lit "a"]; []].
Proof. reflexivity. Qed.

(** Two pages give two separator rows, the second after the last page. *)
Example merge_two_pages :
  ExcelHelper.downloadExcel (fun x => x) (fun _ _ _ => false)
    [(JS.lit "1", JS.VArr [JS.VArr [JS.VStr (JS.lit "a"); JS.VNull]]);
     (JS.lit "2", JS.VArr [JS.VArr [JS.VStr (JS.lit "b")]])]
    ExcelHelper.merge
  = ExcelHelper.Written
      [(JS.lit "Sheet1", [[JS.lit "a"; []]; []; [JS.lit "b"]; []])].
Proof. reflexivity. Qed.

Lemma sanitize_coerces_cells_witness :
  exists grid,
    ExcelHelper.sanitizeGridData (fun x => x)
      (JS.VArr [JS.VArr [JS.VStr (JS.lit "a"); JS.VNull]; JS.VNum (JS.lit "7")])
    = Some grid
    /\ List.length grid = 2%nat.
Proof.
  exists [[JS.lit "a"; []]; []]. split; [reflexivity|].
  exact (proj1 (proj2 (sanitize_coerces_cells (fun x => x)
                         (JS.VArr [JS.VArr [JS.VStr (JS.lit "a"); JS.VNull];
                                   JS.VNum (JS.lit "7")]))
                 [[JS.lit "a"; []]; []] eq_refl)).
Defined.

(** C9 as the specification words it fails on a cell that is an object
    with an own property [toString]: [String] throws on it, so the cell
    is coerced to no string and no rows are exported. *)
Lemma sanitize_every_cell_counterexample :
  ~ (forall numberToString rows r row c cell,
       nth_error rows r = Some row ->
       nth_error row c = Some cell ->
       exists grid row' text,
         ExcelHelper.sanitizeGridData numberToString (JS.VArr (map JS.VArr rows))
         = Some grid
         /\ nth_error grid r = Some row'
         /\ nth_error row' c = Some text).
Proof.
  intro H.
  destruct (H (fun x => x)
              [[JS.VObj [(JS.lit "toString", JS.VNum (JS.lit "1"))]]]
              0%nat _ 0%nat _ eq_refl eq_refl) as (grid & _ & _ & G & _).
  discriminate G.
Qed.

(** [String] throws on an object with an own property [toString], also
    inside an array, and prints any other object as [[object Object]]. *)
Example sanitize_objects :
  ExcelHelper.sanitizeGridData (fun x => x)
    (JS.VArr [JS.VArr [JS.VArr [JS.VObj [(JS.lit "toString", JS.VNull)]]]])
  = None
  /\ ExcelHelper.sanitizeGridData (fun x => x)
       (JS.VArr [JS.VArr [JS.VObj [(JS.lit "a", JS.VNum (JS.lit "1"))];
                          JS.VArr [JS.VNum (JS.lit "1"); JS.VNull;
                                   JS.VArr [JS.VBool true]]]])
     = Some [[JS.lit "[object Object]"; JS.lit "1,,true"]].
Proof. split; reflexivity. Qed.

(* ================================================================== *)
(** * Facts about the string functions *)

Section StringFacts.
Import JS.
Local Open Scope nat_scope.


Lemma trimStart_nonspace c s : isSpace c = false -> trimStart (c :: s) = c :: s.
Proof. intro H. simpl. now rewrite H. Qed.

Lemma trimStart_spaces ws s :
  forallb isSpace ws = true -> trimStart (ws ++ s) = trimStart s.
Proof.
  induction ws as [|c ws IH]; simpl; [reflexivity|].
  intro H. apply andb_true_iff in H. destruct H as [H1 H2]. now rewrite H1, IH.
Qed.

Lemma trimStart_app x y :
  trimStart x <> [] -> trimStart (x ++ y) = trimStart x ++ y.
Proof.
  induction x as [|c x IH]; simpl; [congruence|].
  destruct (isSpace c); [exact IH|reflexivity].
Qed.

Lemma trimStart_all_space x y :
  trimStart x = [] -> trimStart (x ++ y) = trimStart y.
Proof.
  induction x as [|c x IH]; simpl; [reflexivity|].
  destruct (isSpace c); [exact IH|discriminate].
Qed.

Lemma trimEnd_app a b : trimEnd b <> [] -> trimEnd (a ++ b) = a ++ trimEnd b.
Proof.
  unfold trimEnd. intro H. rewrite rev_app_distr.
  rewrite trimStart_app.
  - now rewrite rev_app_distr, rev_involutive.
  - intro E. rewrite E in H. now apply H.
Qed.

Lemma trimEnd_space s c : isSpace c = true -> trimEnd (s ++ [c]) = trimEnd s.
Proof.
  intro H. unfold trimEnd. rewrite rev_app_distr. simpl. now rewrite H.
Qed.

Lemma trimEnd_nonspace s c : isSpace c = false -> trimEnd (s ++ [c]) = s ++ [c].
Proof.
  intro H. unfold trimEnd. rewrite rev_app_distr. simpl. rewrite H.
  simpl. now rewrite rev_involutive.
Qed.

Lemma trimEnd_cons c s : isSpace c = false -> exists r, trimEnd (c :: s) = c :: r.
Proof.
  intro H. destruct (trimEnd s) as [|d r] eqn:E.
  - exists []. unfold trimEnd in *. simpl.
    rewrite trimStart_all_space.
    + simpl. now rewrite H.
    + apply (f_equal (@List.rev N)) in E. now rewrite rev_involutive in E.
  - exists (d :: r). change (c :: s) with ([c] ++ s).
    rewrite trimEnd_app by congruence. now rewrite E.
Qed.

(** What [trimEnd] keeps is a prefix. *)
Lemma trimEnd_firstn s : exists n, trimEnd s = firstn n s.
Proof.
  induction s as [|c s IH] using rev_ind.
  - exists 0. reflexivity.
  - destruct (isSpace c) eqn:E.
    + rewrite trimEnd_space by exact E. destruct IH as [n Hn].
      exists (Nat.min n (List.length s)). rewrite Hn.
      rewrite firstn_app.
      replace (Nat.min n (List.length s) - List.length s) with 0 by lia.
      simpl. rewrite app_nil_r.
      destruct (Nat.le_ge_cases n (List.length s)).
      * now rewrite Nat.min_l.
      * rewrite Nat.min_r by assumption. now rewrite !firstn_all2 by lia.
    + rewrite trimEnd_nonspace by exact E.
      exists (List.length (s ++ [c])). now rewrite firstn_all.
Qed.

Lemma isLineTerminator_space c : isLineTerminator c = true -> isSpace c = true.
Proof.
  unfold isLineTerminator. intro H.
  repeat (apply orb_true_iff in H; destruct H as [H|H]);
    apply N.eqb_eq in H; subst; reflexivity.
Qed.

(** What [trimEnd] removes is white space, and what it keeps ends with a
    character that is no white space. *)
Lemma trimEnd_rest s :
  exists r,
    s = trimEnd s ++ r /\ forallb isSpace r = true
    /\ (trimEnd s = []
        \/ exists x z, trimEnd s = x ++ [z] /\ isSpace z = false).
Proof.
  induction s as [|c s IH] using rev_ind.
  - exists []. repeat split. now left.
  - destruct (isSpace c) eqn:E.
    + rewrite trimEnd_space by exact E. destruct IH as (r & Hs & Hr & Hl).
      exists (r ++ [c]). split; [|split; [|exact Hl]].
      * rewrite app_assoc. now rewrite <- Hs.
      * rewrite forallb_app, Hr. simpl. now rewrite E.
    + rewrite trimEnd_nonspace by exact E. exists [].
      split; [now rewrite app_nil_r|]. split; [reflexivity|].
      right. now exists s, c.
Qed.


Lemma trimEnd_blank x b : forallb isSpace b = true -> trimEnd (x ++ b) = trimEnd x.
Proof.
  intro H. induction b as [|c b IH] using rev_ind; [now rewrite app_nil_r|].
  rewrite forallb_app in H. apply andb_true_iff in H. destruct H as [H1 H2].
  simpl in H2. rewrite andb_true_r in H2.
  rewrite app_assoc, trimEnd_space by exact H2. now apply IH.
Qed.

Lemma trimEnd_keep x z : isSpace z = false -> trimEnd (x ++ [z]) = x ++ [z].
Proof. apply trimEnd_nonspace. Qed.


End StringFacts.

(* ================================================================== *)
(** * Facts about the lexer *)

Section LexerFacts.
Import JS.
Local Open Scope nat_scope.

Lemma lexRun_app l a b :
  lexRun l (a ++ b)
  = match lexRun l a with Some l' => lexRun l' b | None => None end.
Proof.
  revert l. induction a as [|c a IH]; intro l; simpl; [reflexivity|].
  destruct (lexStep l c); [apply IH|reflexivity].
Qed.

Lemma isJsonWs_cases c :
  isJsonWs c = true -> (c = 9 \/ c = 10 \/ c = 13 \/ c = 32)%N.
Proof.
  unfold isJsonWs. intro H.
  repeat (apply orb_true_iff in H; destruct H as [H|H]);
    apply N.eqb_eq in H; auto.
Qed.

Lemma isJsonWs_space c : isJsonWs c = true -> isSpace c = true.
Proof.
  intro H. destruct (isJsonWs_cases c H) as [-> | [-> | [-> | ->]]]; reflexivity.
Qed.

Lemma lexRun_ws toks ws :
  forallb isJsonWs ws = true -> lexRun (toks, LStart) ws = Some (toks, LStart).
Proof.
  induction ws as [|c ws IH]; simpl; [reflexivity|].
  intro H. apply andb_true_iff in H. destruct H as [H1 H2].
  unfold startStep. rewrite H1. now apply IH.
Qed.

(** White space before a text does not change what [JSON.parse] gives. *)
Lemma JSON_parse_ws ws s :
  forallb isJsonWs ws = true -> JSON_parse (ws ++ s) = JSON_parse s.
Proof.
  intro H. unfold JSON_parse, tokenize.
  now rewrite lexRun_app, lexRun_ws.
Qed.

(** A character accepted between two tokens is white space or starts a
    token; in the second case it is no white space of JavaScript, no slash
    and no backquote. *)
Lemma startStep_char toks c l :
  startStep toks c = Some l ->
  isJsonWs c = true
  \/ (isJsonWs c = false /\ isSpace c = false /\ c <> 47%N /\ c <> 96%N).
Proof.
  unfold startStep. destruct (isJsonWs c) eqn:W; [now left|]. intro H. right.
  split; [reflexivity|].
  repeat match type of H with
         | (if (c =? ?k)%N then _ else _) = _ =>
             destruct (N.eqb_spec c k) as [-> | ?];
               [repeat split; (reflexivity || discriminate)|]
         end.
  destruct (isDigit c) eqn:D; [|discriminate].
  pose proof (isDigit_range c D). split; [now apply isDigit_not_space|].
  split; lia.
Qed.

(** A text with at least one token is white space followed by a character
    that starts a token. *)
Lemma tokenize_first s toks l :
  lexRun (toks, LStart) s = Some l ->
  (forallb isJsonWs s = true /\ l = (toks, LStart))
  \/ exists ws c r,
       s = ws ++ c :: r /\ forallb isJsonWs ws = true
       /\ isSpace c = false /\ c <> 47%N /\ c <> 96%N.
Proof.
  revert toks l. induction s as [|c s IH]; intros toks l H.
  - left. simpl in H. inversion H. now split.
  - simpl in H. destruct (startStep toks c) as [l1|] eqn:E; [|discriminate].
    destruct (startStep_char toks c l1 E) as [W|(W & Sp & N1 & N2)].
    + assert (l1 = (toks, LStart)) as ->.
      { unfold startStep in E. rewrite W in E. now inversion E. }
      destruct (IH toks l H) as [[A B]|(ws & d & r & -> & A & B)].
      * left. simpl. now rewrite W, A.
      * right. exists (c :: ws), d, r. split; [reflexivity|].
        split; [simpl; now rewrite W|exact B].
    + right. exists [], c, s. now repeat split.
Qed.

End LexerFacts.

(* ================================================================== *)
(** * Fences and comments *)

Section Fences.
Import JS GeminiService.
Local Open Scope nat_scope.

Lemma commentStart_none c s :
  isSpace c = false -> c <> 47%N -> commentStart (c :: s) = false.
Proof.
  intros H1 H2. simpl. rewrite H1.
  destruct (N.eqb_spec c 47); [contradiction|reflexivity].
Qed.



(** No match is tried, or none is found, before a character that is
    neither white space nor a slash. *)
Lemma commentScan_head b c s :
  isSpace c = false -> c <> 47%N ->
  commentScan (Copying b) (c :: s)
  = c :: commentScan (Copying (isLineTerminator c)) s.
Proof.
  intros H1 H2. cbn [commentScan].
  rewrite (commentStart_none c s H1 H2). now rewrite andb_false_r.
Qed.







(** ** White space in front of the text *)

Lemma indexOf_skip p ws s :
  forallb (fun w => negb (w =? p)%N) ws = true ->
  indexOf [p] (ws ++ s) = option_map (fun n => List.length ws + n) (indexOf [p] s).
Proof.
  induction ws as [|w ws IH]; intro H.
  - simpl. destruct (indexOf [p] s); reflexivity.
  - simpl in H. apply andb_true_iff in H. destruct H as [H1 H2].
    apply negb_true_iff in H1.
    cbn [app]. rewrite indexOf_eq. cbn [startsWith].
    rewrite N.eqb_sym, H1. cbn [andb]. rewrite (IH H2).
    destruct (indexOf [p] s); reflexivity.
Qed.









(** ** The fenced response *)


Lemma forallb_isJsonWs_space ws :
  forallb isJsonWs ws = true -> forallb isSpace ws = true.
Proof.
  induction ws as [|w ws IH]; [reflexivity|]. simpl. intro H.
  apply andb_true_iff in H. destruct H as [H1 H2].
  now rewrite (isJsonWs_space w H1), IH.
Qed.

Lemma stripFenceClose_fence s : stripFenceClose (s ++ fence) = s.
Proof.
  unfold stripFenceClose, endsWith. rewrite rev_app_distr, startsWith_app.
  rewrite length_app. change (List.length fence) with 3.
  replace (List.length s + 3 - 3) with (List.length s) by lia.
  rewrite firstn_app, Nat.sub_diag, firstn_all. simpl. apply app_nil_r.
Qed.






End Fences.

(* ================================================================== *)
(** * Quoted strings are read back *)

Section Quoting.
Import JS.
Local Open Scope N_scope.

Lemma small_cases (P : N -> bool) (k : nat) :
  forallb P (map N.of_nat (seq 0 k)) = true ->
  forall n, n < N.of_nat k -> P n = true.
Proof.
  intros H n Hn. rewrite forallb_forall in H. apply H.
  rewrite <- (N2Nat.id n). apply in_map. apply in_seq. lia.
Qed.

Lemma hexDigit_read n :
  n < 16 -> isHexDigit (hexDigit n) = true /\ hexDigitValue (hexDigit n) = n.
Proof.
  intro H.
  pose proof (small_cases
    (fun n => isHexDigit (hexDigit n) && (hexDigitValue (hexDigit n) =? n))
    16 eq_refl n H) as T.
  apply andb_true_iff in T. destruct T as [T1 T2].
  apply N.eqb_eq in T2. now split.
Qed.

Lemma hex_digits c :
  c < 65536 ->
  16 * (16 * (16 * (16 * 0 + c / 4096) + (c / 256) mod 16) + (c / 16) mod 16)
    + c mod 16 = c.
Proof.
  intro H.
  pose proof (N.Div0.div_mod c 16) as E0.
  pose proof (N.Div0.div_mod (c / 16) 16) as E1.
  pose proof (N.Div0.div_mod (c / 256) 16) as E2.
  rewrite N.Div0.div_div in E1, E2.
  change (16 * 16) with 256 in E1. change (256 * 16) with 4096 in E2.
  assert (c / 4096 < 16) by (apply N.Div0.div_lt_upper_bound; lia).
  lia.
Qed.

Lemma lexStep_unicode toks acc todo code d :
  d < 16 ->
  lexStep (toks, LUnicode acc todo code) (hexDigit d)
  = Some (toks, match todo with
                | S (S n) => LUnicode acc (S n) (16 * code + d)
                | _ => LString (acc ++ [16 * code + d])
                end).
Proof.
  intro H. destruct (hexDigit_read d H) as [H1 H2].
  unfold lexStep. rewrite H1, H2. destruct todo as [|[|n]]; reflexivity.
Qed.

(** An escape written by [escapeU] is read as the code unit itself. *)
Lemma lexRun_escapeU toks acc c rest :
  c < 65536 ->
  lexRun (toks, LString acc) (escapeU c ++ rest)
  = lexRun (toks, LString (acc ++ [c])) rest.
Proof.
  intro H. unfold escapeU.
  assert (D3 : c / 4096 < 16) by (apply N.Div0.div_lt_upper_bound; lia).
  assert (D2 : (c / 256) mod 16 < 16) by (apply N.mod_lt; lia).
  assert (D1 : (c / 16) mod 16 < 16) by (apply N.mod_lt; lia).
  assert (D0 : c mod 16 < 16) by (apply N.mod_lt; lia).
  cbn [app lexRun].
  change (lexStep (toks, LString acc) 92) with (Some (toks, LEscape acc)).
  cbv iota.
  change (lexStep (toks, LEscape acc) 117) with (Some (toks, LUnicode acc 4 0)).
  cbv iota.
  rewrite (lexStep_unicode toks acc 4 0 _ D3).
  rewrite (lexStep_unicode toks acc 3 _ _ D2).
  rewrite (lexStep_unicode toks acc 2 _ _ D1).
  rewrite (lexStep_unicode toks acc 1 _ _ D0).
  now rewrite (hex_digits c H).
Qed.

Lemma lexStep_raw toks acc c :
  c <> 34 -> c <> 92 -> 32 <= c ->
  lexStep (toks, LString acc) c = Some (toks, LString (acc ++ [c])).
Proof.
  intros N1 N2 H. unfold lexStep.
  destruct (N.eqb_spec c 34); [contradiction|].
  destruct (N.eqb_spec c 92); [contradiction|].
  destruct (N.ltb_spec c 32); [lia|reflexivity].
Qed.

Lemma lexRun_quoteUnit toks acc c rest :
  lexRun (toks, LString acc) (quoteUnit c ++ rest)
  = lexRun (toks, LString (acc ++ [c])) rest.
Proof.
  unfold quoteUnit.
  destruct (N.eqb_spec c 34) as [-> | N1]; [reflexivity|].
  destruct (N.eqb_spec c 92) as [-> | N2]; [reflexivity|].
  destruct (N.eqb_spec c 8) as [-> | N3]; [reflexivity|].
  destruct (N.eqb_spec c 12) as [-> | N4]; [reflexivity|].
  destruct (N.eqb_spec c 10) as [-> | N5]; [reflexivity|].
  destruct (N.eqb_spec c 13) as [-> | N6]; [reflexivity|].
  destruct (N.eqb_spec c 9) as [-> | N7]; [reflexivity|].
  destruct (N.ltb_spec c 32) as [L|L].
  - apply lexRun_escapeU. lia.
  - cbn [app lexRun]. now rewrite lexStep_raw.
Qed.

Lemma lexRun_quoteUnits n toks rest :
  forall s acc,
  (List.length s <= n)%nat ->
  lexRun (toks, LString acc) (quoteUnits s ++ rest)
  = lexRun (toks, LString (acc ++ s)) rest.
Proof.
  induction n as [|n IH]; intros s acc Hn.
  - destruct s; [|simpl in Hn; lia]. now rewrite app_nil_r.
  - destruct s as [|c r]; [now rewrite app_nil_r|].
    simpl in Hn. cbn [quoteUnits].
    assert (T : forall x, (acc ++ [c]) ++ x = acc ++ c :: x)
      by (intro x; now rewrite <- app_assoc).
    destruct (isHighSurrogate c) eqn:Hc.
    + unfold isHighSurrogate in Hc. apply andb_true_iff in Hc.
      destruct Hc as [Hc1 Hc2]. apply N.leb_le in Hc1. apply N.leb_le in Hc2.
      destruct r as [|d r'].
      * rewrite lexRun_escapeU by lia. reflexivity.
      * destruct (isLowSurrogate d) eqn:Hd.
        -- unfold isLowSurrogate in Hd. apply andb_true_iff in Hd.
           destruct Hd as [Hd1 Hd2]. apply N.leb_le in Hd1. apply N.leb_le in Hd2.
           cbn [app lexRun].
           rewrite lexStep_raw by lia. rewrite lexStep_raw by lia.
           simpl in Hn. rewrite IH by lia.
           now rewrite <- !app_assoc.
        -- rewrite <- app_assoc, lexRun_escapeU by lia.
           rewrite IH by lia. now rewrite T.
    + destruct (isLowSurrogate c) eqn:Hd.
      * unfold isLowSurrogate in Hd. apply andb_true_iff in Hd.
        destruct Hd as [Hd1 Hd2]. apply N.leb_le in Hd1. apply N.leb_le in Hd2.
        rewrite <- app_assoc, lexRun_escapeU by lia.
        rewrite IH by lia. now rewrite T.
      * rewrite <- app_assoc, lexRun_quoteUnit.
        rewrite IH by lia. now rewrite T.
Qed.

(** A string printed by [JSON.stringify] is read back as one token. *)
Lemma lexRun_quote toks s rest :
  lexRun (toks, LStart) (quote s ++ rest)
  = lexRun (toks ++ [TString s], LStart) rest.
Proof.
  unfold quote. cbn [app lexRun].
  change (lexStep (toks, LStart) 34) with (Some (toks, LString [])).
  cbv iota. rewrite <- app_assoc.
  rewrite (lexRun_quoteUnits (List.length s)) by lia.
  reflexivity.
Qed.

End Quoting.

(* ================================================================== *)
(** * The text of a page data map *)

Section MapText.
Import JS PageData.
Local Open Scope nat_scope.

Lemma intercalate_cons {A} (sep : list A) x l :
  intercalate sep (x :: l) = x ++ flat_map (fun y => sep ++ y) l.
Proof.
  revert x. induction l as [|y l IH]; intro x.
  - simpl. now rewrite app_nil_r.
  - change (intercalate sep (x :: y :: l)) with (x ++ sep ++ intercalate sep (y :: l)).
    rewrite IH. simpl. now rewrite <- !app_assoc.
Qed.

Lemma flat_map_intercalate {A B} (f : A -> list B) sep parts :
  flat_map f (intercalate sep parts)
  = intercalate (flat_map f sep) (map (flat_map f) parts).
Proof.
  induction parts as [|x l IH]; [reflexivity|].
  destruct l as [|y l]; [reflexivity|].
  change (intercalate sep (x :: y :: l)) with (x ++ sep ++ intercalate sep (y :: l)).
  rewrite !flat_map_app, IH. reflexivity.
Qed.

Lemma textOf_app a b : textOf (a ++ b) = textOf a ++ textOf b.
Proof. apply flat_map_app. Qed.

Lemma lexRun_textOf ts :
  forall toks rest,
  forallb simpleTok ts = true ->
  lexRun (toks, LStart) (textOf ts ++ rest) = lexRun (toks ++ ts, LStart) rest.
Proof.
  induction ts as [|t ts IH]; intros toks rest H.
  - simpl. now rewrite app_nil_r.
  - simpl in H. apply andb_true_iff in H. destruct H as [Ht Hts].
    change (textOf (t :: ts)) with (tokText t ++ textOf ts).
    rewrite <- app_assoc.
    assert (E : lexRun (toks, LStart) (tokText t ++ textOf ts ++ rest)
                = lexRun (toks ++ [t], LStart) (textOf ts ++ rest)).
    { destruct t; try discriminate Ht; try reflexivity. apply lexRun_quote. }
    rewrite E, IH by exact Hts. now rewrite <- app_assoc.
Qed.

Lemma stringify_rowValue row : stringify (rowValue row) = textOf (rowToks row).
Proof.
  unfold rowValue, rowToks, textOf. cbn [stringify flat_map tokText app].
  rewrite flat_map_app, flat_map_intercalate. cbn [flat_map tokText app].
  unfold join. rewrite !map_map. do 2 f_equal.
  f_equal. apply map_ext. intro c. cbn [stringify flat_map tokText].
  now rewrite app_nil_r.
Qed.

Lemma stringify_gridValue g : stringify (gridValue g) = textOf (gridToks g).
Proof.
  unfold gridValue, gridToks, textOf. cbn [stringify flat_map tokText app].
  rewrite flat_map_app, flat_map_intercalate. cbn [flat_map tokText app].
  unfold join. rewrite !map_map. do 2 f_equal.
  f_equal. apply map_ext. intro row. apply stringify_rowValue.
Qed.

Lemma stringify_mapValue m : stringify (mapValue m) = textOf (mapToks m).
Proof.
  unfold mapValue, mapToks, textOf. cbn [stringify flat_map tokText app].
  rewrite flat_map_app, flat_map_intercalate. cbn [flat_map tokText app].
  unfold join. rewrite !map_map. do 2 f_equal. f_equal.
  induction m as [|[k g] m IH]; [reflexivity|].
  cbn [pageProps map fst snd isUndefined gridValue pageToks flat_map tokText].
  f_equal; [|exact IH].
  change (quote k ++ 58%N :: stringify (gridValue g)
          = quote k ++ 58%N :: textOf (gridToks g)).
  now rewrite stringify_gridValue.
Qed.

End MapText.

(* ================================================================== *)
(** * Parsing the tokens of a page data map *)

Section MapParse.
Import JS PageData.
Local Open Scope nat_scope.

Lemma parseRun_app p a b :
  parseRun p (a ++ b)
  = match parseRun p a with Some p' => parseRun p' b | None => None end.
Proof.
  revert p. induction a as [|t a IH]; intro p; simpl; [reflexivity|].
  destruct (parseStep p t); [apply IH|reflexivity].
Qed.

Lemma parseRun_one p t : parseRun p [t] = parseStep p t.
Proof. simpl. now destruct (parseStep p t). Qed.

Lemma parse_cells stack cells :
  forall items,
  parseRun (FArr items :: stack, ENext)
           (flat_map (fun y => [TComma] ++ y) (map (fun c => [TString c]) cells)
              ++ [TRBracket])
  = deliver (VArr (items ++ map VStr cells)) stack.
Proof.
  induction cells as [|c cells IH]; intro items.
  - cbn [map flat_map app]. rewrite parseRun_one, app_nil_r. reflexivity.
  - cbn [map flat_map app parseRun parseStep valueStep deliver].
    rewrite IH. now rewrite <- app_assoc.
Qed.

Lemma parse_row stack e row :
  opens e -> parseRun (stack, e) (rowToks row) = deliver (rowValue row) stack.
Proof.
  intro He. unfold rowToks, rowValue.
  assert (O : parseRun (stack, e)
                (TLBracket :: intercalate [TComma] (map (fun c => [TString c]) row)
                   ++ [TRBracket])
              = parseRun (FArr [] :: stack, EValueOrClose)
                  (intercalate [TComma] (map (fun c => [TString c]) row)
                     ++ [TRBracket])).
  { destruct He as [-> | ->]; reflexivity. }
  rewrite O. destruct row as [|c row]; [apply parseRun_one|].
  cbn [map]. rewrite intercalate_cons.
  cbn [app parseRun parseStep valueStep deliver].
  now rewrite parse_cells.
Qed.

Lemma parse_rows stack rows :
  forall items,
  parseRun (FArr items :: stack, ENext)
           (flat_map (fun y => [TComma] ++ y) (map rowToks rows) ++ [TRBracket])
  = deliver (VArr (items ++ map rowValue rows)) stack.
Proof.
  induction rows as [|r rows IH]; intro items.
  - cbn [map flat_map app]. rewrite parseRun_one, app_nil_r. reflexivity.
  - cbn [map flat_map app]. rewrite <- app_assoc.
    cbn [parseRun parseStep]. rewrite parseRun_app.
    rewrite (parse_row (FArr items :: stack) EValue r) by now left.
    cbn [deliver]. rewrite IH. now rewrite <- app_assoc.
Qed.

Lemma parse_grid stack e g :
  opens e -> parseRun (stack, e) (gridToks g) = deliver (gridValue g) stack.
Proof.
  intro He. unfold gridToks, gridValue.
  assert (O : parseRun (stack, e)
                (TLBracket :: intercalate [TComma] (map rowToks g) ++ [TRBracket])
              = parseRun (FArr [] :: stack, EValueOrClose)
                  (intercalate [TComma] (map rowToks g) ++ [TRBracket])).
  { destruct He as [-> | ->]; reflexivity. }
  rewrite O. destruct g as [|r g]; [apply parseRun_one|].
  cbn [map]. rewrite intercalate_cons, <- app_assoc, parseRun_app.
  rewrite (parse_row (FArr [] :: stack) EValueOrClose r) by now right.
  cbn [deliver app]. now rewrite parse_rows.
Qed.

Lemma parse_page stack o e kv :
  e = EKey \/ e = EKeyOrClose ->
  parseRun (FObj o :: stack, e) (pageToks kv)
  = Some (FObj (obj_set (fst kv) (gridValue (snd kv)) o) :: stack, ENext).
Proof.
  intro He. unfold pageToks.
  assert (O : parseRun (FObj o :: stack, e)
                (TString (fst kv) :: TColon :: gridToks (snd kv))
              = parseRun (FKey o (fst kv) :: stack, EValue) (gridToks (snd kv))).
  { destruct He as [-> | ->]; reflexivity. }
  rewrite O, parse_grid by now left. reflexivity.
Qed.

Lemma parse_pages stack ps :
  forall o,
  parseRun (FObj o :: stack, ENext)
           (flat_map (fun y => [TComma] ++ y) (map pageToks ps) ++ [TRBrace])
  = deliver (VObj (buildProps ps o)) stack.
Proof.
  induction ps as [|kv ps IH]; intro o.
  - cbn [map flat_map app]. apply parseRun_one.
  - cbn [map flat_map app]. rewrite <- app_assoc.
    cbn [parseRun parseStep]. rewrite parseRun_app.
    rewrite (parse_page stack o EKey kv) by now left.
    rewrite IH. reflexivity.
Qed.

(** The tokens of a map are parsed into the object built from its pages. *)
Lemma parse_map m :
  parseTokens (mapToks m) = Some (VObj (buildProps m [])).
Proof.
  unfold parseTokens, mapToks. cbn [parseRun parseStep valueStep].
  destruct m as [|kv m]; [reflexivity|].
  cbn [map]. rewrite intercalate_cons, <- app_assoc, parseRun_app.
  rewrite (parse_page [] [] EKeyOrClose kv) by now right.
  rewrite parse_pages. reflexivity.
Qed.

(** ** Objects whose keys come in enumeration order *)

Lemma eqb_str_neq a b : a <> b -> eqb_str a b = false.
Proof. intro H. unfold eqb_str. now destruct (list_eq_dec N.eq_dec a b). Qed.

Lemma obj_set_new o k v :
  Forall (fun kv => keyBefore (fst kv) k) o -> obj_set k v o = o ++ [(k, v)].
Proof.
  intro H. unfold obj_set.
  assert (L : lookup k o = None).
  { induction H as [|[k' v'] o [Hne _] _ IH]; [reflexivity|].
    cbn [lookup fst] in *. rewrite eqb_str_neq by congruence. exact IH. }
  rewrite L. destruct (arrayIndex k) as [n|] eqn:E; [|reflexivity].
  induction H as [|[k' v'] o [_ Hlt] _ IH]; [reflexivity|].
  cbn [insertIndex fst] in *. rewrite E in Hlt.
  destruct (arrayIndex k') as [n'|]; [|contradiction].
  apply N.ltb_lt in Hlt. rewrite Hlt. cbn [app]. f_equal. apply IH.
  cbn [lookup] in L. destruct (eqb_str k k'); [discriminate|exact L].
Qed.

Lemma StronglySorted_app_inv {A} (R : A -> A -> Prop) a b :
  StronglySorted R (a ++ b) ->
  StronglySorted R a /\ StronglySorted R b
  /\ forall x y, In x a -> In y b -> R x y.
Proof.
  induction a as [|x a IH]; intro H.
  - split; [constructor|]. split; [exact H|]. intros x y [].
  - cbn [app] in H. inversion H as [|? ? Hs Hall]; subst.
    destruct (IH Hs) as (Sa & Sb & Hab).
    rewrite Forall_app in Hall. destruct Hall as [Ha Hb].
    split; [now constructor|]. split; [exact Sb|].
    intros u y [<- | Hu] Hy.
    + rewrite Forall_forall in Hb. now apply Hb.
    + now apply Hab.
Qed.

Lemma StronglySorted_firstn {A} (R : A -> A -> Prop) l n :
  StronglySorted R l -> StronglySorted R (firstn n l).
Proof.
  intro H. rewrite <- (firstn_skipn n l) in H.
  now apply StronglySorted_app_inv in H.
Qed.

Lemma pageProps_app a b : pageProps (a ++ b) = pageProps a ++ pageProps b.
Proof. apply map_app. Qed.

Lemma buildProps_sorted ps :
  forall done,
  StronglySorted keyBefore (map fst (done ++ ps)) ->
  buildProps ps (pageProps done) = pageProps (done ++ ps).
Proof.
  induction ps as [|kv ps IH]; intros done H.
  - now rewrite app_nil_r.
  - cbn [buildProps fold_left]. rewrite obj_set_new.
    + change (pageProps done ++ [(fst kv, gridValue (snd kv))])
        with (pageProps done ++ pageProps [kv]).
      rewrite <- pageProps_app.
      change (fold_left
                (fun acc kv0 => obj_set (fst kv0) (gridValue (snd kv0)) acc) ps
                (pageProps (done ++ [kv])))
        with (buildProps ps (pageProps (done ++ [kv]))).
      rewrite IH; rewrite <- app_assoc; [reflexivity|exact H].
    + rewrite map_app in H. apply StronglySorted_app_inv in H.
      destruct H as (_ & _ & Hab).
      unfold pageProps. rewrite Forall_map. cbn [fst].
      rewrite Forall_forall. intros x Hx. apply Hab.
      * now apply in_map.
      * now left.
Qed.

(** A well-formed map is the object its members build. *)
Lemma buildProps_wellFormed m :
  wellFormed m -> buildProps m [] = pageProps m.
Proof. intro H. now apply (buildProps_sorted m []). Qed.

Lemma wellFormed_leading m' m :
  wellFormed m -> leadingPart m' m -> wellFormed m'.
Proof.
  unfold wellFormed. intros H [i [-> | (key & g & j & Hn & ->)]].
  - rewrite <- firstn_map. now apply StronglySorted_firstn.
  - assert (E : map fst (firstn i m ++ [(key, firstn j g)])
                = firstn (S i) (map fst m)).
    { clear H. revert i Hn. induction m as [|kv m IH]; intros [|i] Hn;
        simpl in Hn; try discriminate.
      - inversion Hn; subst. reflexivity.
      - cbn [firstn app map]. f_equal. now apply IH. }
    rewrite E. now apply StronglySorted_firstn.
Qed.

End MapParse.

(* ================================================================== *)
(** * The lexer on a text and on its prefixes *)

Section LexerPrefix.
Import JS PageData GeminiService.
Local Open Scope nat_scope.

Lemma startStep_tokens toks c toks' st' :
  startStep toks c = Some (toks', st') ->
  wfLex st' = true /\ exists more, toks' = toks ++ more.
Proof.
  unfold startStep, emit. intro H.
  repeat match type of H with
         | (if ?b then _ else _) = _ =>
             destruct b;
               [inversion H; subst; split; [reflexivity|];
                (exists []; now rewrite app_nil_r) || (eexists; reflexivity)|]
         end.
  discriminate.
Qed.

Lemma lexStep_tokens toks st c toks' st' :
  wfLex st = true ->
  lexStep (toks, st) c = Some (toks', st') ->
  wfLex st' = true /\ exists more, toks' = toks ++ more.
Proof.
  intros W H. unfold lexStep in H.
  assert (K : forall x, Some (toks, x) = Some (toks', st') ->
                        wfLex x = true ->
                        wfLex st' = true /\ exists more, toks' = toks ++ more).
  { intros x E Wx. inversion E; subst. split; [exact Wx|].
    exists []. now rewrite app_nil_r. }
  destruct st as [|acc|acc|acc todo code|nst lexeme|rest tok].
  - now apply startStep_tokens in H.
  - unfold emit in H.
    destruct (c =? 34)%N;
      [inversion H; subst; split; [reflexivity|eexists; reflexivity]|].
    destruct (c =? 92)%N; [now apply (K _ H)|].
    destruct (c <? 32)%N; [discriminate|now apply (K _ H)].
  - destruct (c =? 117)%N; [now apply (K _ H)|].
    destruct (escapeChar c); [now apply (K _ H)|discriminate].
  - destruct (isHexDigit c); [|discriminate].
    destruct todo as [|[|n]]; now apply (K _ H).
  - destruct (numStep nst c) as [[nst'|]|]; [now apply (K _ H)| |discriminate].
    apply startStep_tokens in H. destruct H as [W' [more ->]].
    split; [exact W'|]. exists (TNumber lexeme :: more). now rewrite <- app_assoc.
  - destruct rest as [|x r]; [discriminate|].
    destruct (c =? x)%N; [|discriminate].
    cbn [wfLex] in W. apply andb_true_iff in W. destruct W as [W1 W3].
    apply andb_true_iff in W1. destruct W1 as [W1 _].
    cbn [forallb] in W3. apply andb_true_iff in W3. destruct W3 as [_ W3].
    destruct r as [|y r].
    + unfold emit in H. inversion H; subst. split; [reflexivity|].
      eexists; reflexivity.
    + apply (K _ H). cbn [wfLex]. now rewrite W1, W3.
Qed.

Lemma lexRun_tokens s :
  forall toks st toks' st',
  wfLex st = true ->
  lexRun (toks, st) s = Some (toks', st') ->
  wfLex st' = true /\ exists more, toks' = toks ++ more.
Proof.
  induction s as [|c s IH]; intros toks st toks' st' W H.
  - simpl in H. inversion H; subst. split; [exact W|].
    exists []. now rewrite app_nil_r.
  - cbn [lexRun] in H.
    destruct (lexStep (toks, st) c) as [[t1 s1]|] eqn:E; [|discriminate].
    destruct (lexStep_tokens _ _ _ _ _ W E) as [W1 [m1 ->]].
    destruct (IH _ _ _ _ W1 H) as [W2 [m2 ->]].
    split; [exact W2|]. exists (m1 ++ m2). now rewrite app_assoc.
Qed.

Lemma lexFinish_tokens toks st ts :
  lexFinish (toks, st) = Some ts -> exists more, ts = toks ++ more.
Proof.
  unfold lexFinish. destruct st; try discriminate.
  - intro H. inversion H. exists []. now rewrite app_nil_r.
  - destruct (numFinal st); [|discriminate]. intro H. inversion H.
    eexists; reflexivity.
Qed.

(** After a line feed or a carriage return the lexer is between two
    tokens. *)
Lemma lexStep_newline toks st c toks' st' :
  wfLex st = true -> c = 10%N \/ c = 13%N ->
  lexStep (toks, st) c = Some (toks', st') -> st' = LStart.
Proof.
  intros W Hc H.
  destruct st as [|acc|acc|acc todo code|nst lexeme|rest tok].
  - destruct Hc as [-> | ->]; cbn in H; now inversion H.
  - destruct Hc as [-> | ->]; discriminate H.
  - destruct Hc as [-> | ->]; discriminate H.
  - destruct Hc as [-> | ->]; discriminate H.
  - destruct Hc as [-> | ->]; destruct nst; cbn in H;
      (discriminate H || now inversion H).
  - cbn [wfLex] in W. apply andb_true_iff in W. destruct W as [_ W].
    destruct rest as [|x r]; [discriminate H|].
    cbn [forallb] in W. apply andb_true_iff in W. destruct W as [W _].
    unfold lexStep in H.
    destruct (N.eqb_spec c x) as [<- | ?]; [|discriminate H].
    destruct Hc as [-> | ->]; discriminate W.
Qed.

Lemma commentStart_lexable s :
  forall toks Y l,
  lexRun (toks, LStart) (s ++ Y) = Some l -> commentStart s = false.
Proof.
  induction s as [|c s IH]; intros toks Y l H; [reflexivity|].
  cbn [app lexRun] in H.
  change (lexStep (toks, LStart) c) with (startStep toks c) in H.
  destruct (startStep toks c) as [l1|] eqn:E; [|discriminate].
  destruct (startStep_char toks c l1 E) as [W|(W & Sp & N1 & _)].
  - assert (l1 = (toks, LStart)) as ->.
    { unfold startStep in E. rewrite W in E. now inversion E. }
    cbn [commentStart]. rewrite (isJsonWs_space c W).
    exact (IH toks Y l H).
  - now apply commentStart_none.
Qed.

(** The comment regular expression finds nothing in a text the lexer
    accepts, as long as the text holds no line or paragraph separator. *)
Lemma commentScan_lexable P :
  forall toks st b Y l,
  wfLex st = true -> (b = true -> st = LStart) ->
  lexRun (toks, st) (P ++ Y) = Some l ->
  noSeparator P = true ->
  commentScan (Copying b) P = P.
Proof.
  induction P as [|c P IH]; intros toks st b Y l W Hb H Hs; [reflexivity|].
  assert (L : b && commentStart (c :: P) = false).
  { destruct b; [|reflexivity]. rewrite (Hb eq_refl) in H.
    exact (commentStart_lexable (c :: P) toks Y l H). }
  cbn [commentScan]. rewrite L.
  cbn [app lexRun] in H.
  destruct (lexStep (toks, st) c) as [[t1 s1]|] eqn:E; [|discriminate].
  cbn [noSeparator forallb] in Hs. apply andb_true_iff in Hs.
  destruct Hs as [Hc Hs].
  f_equal. apply (IH t1 s1 _ Y l).
  - now apply (lexStep_tokens _ _ _ _ _ W E).
  - intro T. apply (lexStep_newline toks st c t1 s1 W); [|exact E].
    unfold isLineTerminator in T. apply negb_true_iff, orb_false_iff in Hc.
    destruct Hc as [C1 C2]. rewrite C1, C2, !orb_false_r in T.
    apply orb_true_iff in T. destruct T as [T|T]; apply N.eqb_eq in T; auto.
  - exact H.
  - exact Hs.
Qed.

(** ** The token being read *)

Lemma lexRun_finish_tokens s toks st ts :
  wfLex st = true ->
  match lexRun (toks, st) s with
  | Some l => lexFinish l
  | None => None
  end = Some ts ->
  exists more, ts = toks ++ more.
Proof.
  intros W H.
  destruct (lexRun (toks, st) s) as [[t1 s1]|] eqn:E; [|discriminate].
  destruct (lexRun_tokens s _ _ _ _ W E) as [_ [m1 ->]].
  destruct (lexFinish_tokens _ _ _ H) as [m2 ->].
  exists (m1 ++ m2). now rewrite app_assoc.
Qed.

(** When the lexer stands inside a token and the rest of the text is
    accepted, that token comes next. *)
Lemma pending_emitted Y :
  forall toks st ts,
  wfLex st = true -> st <> LStart ->
  match lexRun (toks, st) Y with
  | Some l => lexFinish l
  | None => None
  end = Some ts ->
  exists t more, ts = toks ++ t :: more /\ pendingTok st t = true.
Proof.
  induction Y as [|c Y IH]; intros toks st ts W Hst H.
  - cbn [lexRun lexFinish] in H.
    destruct st; try discriminate; try congruence.
    destruct (numFinal st); [|discriminate]. inversion H.
    exists (TNumber lexeme), []. now split.
  - cbn [lexRun] in H.
    destruct (lexStep (toks, st) c) as [[t1 s1]|] eqn:E; [|discriminate].
    pose proof (lexStep_tokens _ _ _ _ _ W E) as [W1 _].
    assert (Same : forall st1, (t1, s1) = (toks, st1) -> st1 <> LStart ->
              (forall t, pendingTok st1 t = true -> pendingTok st t = true) ->
              exists t more, ts = toks ++ t :: more /\ pendingTok st t = true).
    { intros st1 E1 N1 P1. inversion E1; subst.
      destruct (IH toks st1 ts W1 N1 H) as (t & more & -> & Pt).
      exists t, more. split; [reflexivity|now apply P1]. }
    assert (Emit : forall t, pendingTok st t = true ->
              (exists m1, t1 = (toks ++ [t]) ++ m1) ->
              exists t more, ts = toks ++ t :: more /\ pendingTok st t = true).
    { intros t Pt [m1 ->].
      destruct (lexRun_finish_tokens Y _ s1 ts W1 H) as [m2 ->].
      exists t, (m1 ++ m2). split; [|exact Pt].
      now rewrite <- !app_assoc. }
    unfold lexStep in E.
    destruct st as [|acc|acc|acc todo code|nst lexeme|rest tok];
      [congruence| | | | |].
    + unfold emit in E. destruct (c =? 34)%N.
      * inversion E; subst. apply (Emit (TString acc)); [reflexivity|].
        exists []. now rewrite app_nil_r.
      * destruct (c =? 92)%N;
          [inversion E; subst; eapply Same; [reflexivity|discriminate|auto]|].
        destruct (c <? 32)%N; [discriminate|].
        inversion E; subst; eapply Same; [reflexivity|discriminate|auto].
    + destruct (c =? 117)%N;
        [inversion E; subst; eapply Same; [reflexivity|discriminate|auto]|].
      destruct (escapeChar c); [|discriminate].
      inversion E; subst; eapply Same; [reflexivity|discriminate|auto].
    + destruct (isHexDigit c); [|discriminate].
      destruct todo as [|[|n]];
        inversion E; subst; eapply Same; try reflexivity; try discriminate; auto.
    + destruct (numStep nst c) as [[nst'|]|]; [| |discriminate].
      * inversion E; subst; eapply Same; [reflexivity|discriminate|auto].
      * apply (Emit (TNumber lexeme)); [reflexivity|].
        apply startStep_tokens in E. destruct E as [_ [m1 ->]]. now exists m1.
    + destruct rest as [|x r]; [discriminate|].
      destruct (c =? x)%N; [|discriminate].
      cbn [wfLex] in W. apply andb_true_iff in W. destruct W as [W0 _].
      apply andb_true_iff in W0. destruct W0 as [W0 _].
      destruct r as [|y r].
      * unfold emit in E. inversion E; subst. apply (Emit tok); [exact W0|].
        exists []. now rewrite app_nil_r.
      * inversion E; subst. eapply Same; [reflexivity|discriminate|auto].
Qed.

(** ** Texts made of punctuation and strings *)

(** On a text whose tokens are punctuation and strings, after any prefix
    the lexer is between two tokens or inside a string, and the tokens read
    so far begin the tokens of the text. *)
Lemma lex_prefix_state P Y ts :
  tokenize (P ++ Y) = Some ts ->
  forallb simpleTok ts = true ->
  exists tP sP,
    lexRun ([], LStart) P = Some (tP, sP)
    /\ betweenOrInString sP
    /\ (exists more, ts = tP ++ more)
    /\ match lexRun (tP, sP) Y with
       | Some l => lexFinish l
       | None => None
       end = Some ts.
Proof.
  unfold tokenize. rewrite lexRun_app. intros H Hs.
  destruct (lexRun ([], LStart) P) as [[tP sP]|] eqn:E; [|discriminate].
  destruct (lexRun_tokens P [] LStart tP sP eq_refl E) as [W _].
  exists tP, sP. split; [reflexivity|].
  split; [|split; [exact (lexRun_finish_tokens Y tP sP ts W H)|exact H]].
  destruct sP as [|acc|acc|acc todo code|nst lexeme|rest tok];
    try (now left); try (now right).
  - destruct (pending_emitted Y tP _ ts W ltac:(discriminate) H)
      as (t & more & -> & Pt).
    rewrite forallb_app in Hs. apply andb_true_iff in Hs. destruct Hs as [_ Hs].
    cbn [forallb pendingTok] in *. apply andb_true_iff in Hs.
    destruct Hs as [Hs _]. rewrite Hs in Pt. discriminate.
  - destruct (pending_emitted Y tP _ ts W ltac:(discriminate) H)
      as (t & more & -> & Pt).
    rewrite forallb_app in Hs. apply andb_true_iff in Hs. destruct Hs as [_ Hs].
    cbn [forallb pendingTok] in *. apply andb_true_iff in Hs.
    destruct Hs as [Hs _]. rewrite Hs in Pt. discriminate.
Qed.

(** A closing bracket read between two tokens is a token; read inside a
    string it belongs to the string. *)
Lemma lexStep_bracket tA sA tX sX :
  betweenOrInString sA ->
  lexStep (tA, sA) 93%N = Some (tX, sX) ->
  (sX = LStart /\ tX = tA ++ [TRBracket]) \/ inString sX = true.
Proof.
  intros [-> | H] E.
  - cbn in E. inversion E. now left.
  - destruct sA; try discriminate H; cbn in E; try discriminate E.
    inversion E. now right.
Qed.

(** Inside a string, closing brackets and braces do not end the text. *)
Lemma inString_closers suffix :
  forall toks st,
  inString st = true ->
  forallb (fun c => (c =? 93)%N || (c =? 125)%N) suffix = true ->
  match lexRun (toks, st) suffix with
  | Some l => lexFinish l
  | None => None
  end = None.
Proof.
  induction suffix as [|c r IH]; intros toks st H Hc.
  - destruct st; try discriminate H; reflexivity.
  - cbn [forallb] in Hc. apply andb_true_iff in Hc. destruct Hc as [Hc Hr].
    assert (C : c = 93%N \/ c = 125%N).
    { apply orb_true_iff in Hc. destruct Hc as [Hc|Hc];
        apply N.eqb_eq in Hc; auto. }
    cbn [lexRun].
    destruct st; try discriminate H;
      destruct C as [-> | ->]; cbn; try reflexivity;
      apply IH; auto.
Qed.

Lemma startStep_cases toks a t1 s1 :
  startStep toks a = Some (t1, s1) ->
  (isJsonWs a = true /\ t1 = toks /\ s1 = LStart)
  \/ (exists t, t1 = toks ++ [t] /\ s1 = LStart
                /\ (t = TLBrace -> a = 123%N))
  \/ (t1 = toks /\ s1 <> LStart).
Proof.
  unfold startStep, emit. intro H.
  destruct (isJsonWs a); [inversion H; now left|right].
  destruct (N.eqb_spec a 123);
    [inversion H; left; eexists; repeat split; auto|].
  repeat match type of H with
         | (if ?b then _ else _) = _ =>
             destruct b;
               [inversion H;
                first [ left; eexists; repeat split; discriminate
                      | right; split; [reflexivity|discriminate] ]|]
         end.
  discriminate.
Qed.

(** A text whose first token is an opening brace is white space followed
    by the brace. *)
Lemma first_brace S rest :
  tokenize S = Some (TLBrace :: rest) ->
  exists ws R,
    S = ws ++ 123%N :: R /\ forallb isJsonWs ws = true
    /\ tokenize (123%N :: R) = Some (TLBrace :: rest).
Proof.
  intro H. pose proof H as H0. unfold tokenize in H.
  destruct (lexRun ([], LStart) S) as [l|] eqn:E; [|discriminate].
  destruct (tokenize_first S [] l E)
    as [[_ ->]|(ws & a & r & -> & Hws & Ha & _ & _)]; [discriminate H|].
  exists ws. unfold tokenize in H0.
  rewrite lexRun_app, (lexRun_ws [] ws Hws) in H0.
  assert (A : a = 123%N).
  { cbn [lexRun] in H0.
    change (lexStep ([], LStart) a) with (startStep [] a) in H0.
    destruct (startStep [] a) as [[t1 s1]|] eqn:Es; [|discriminate].
    pose proof (startStep_tokens _ _ _ _ Es) as [W1 _].
    destruct (startStep_cases _ _ _ _ Es)
      as [(Wa & _)|[(t & -> & -> & Ht)|(-> & Hs)]].
    - rewrite (isJsonWs_space a Wa) in Ha. discriminate.
    - destruct (lexRun_finish_tokens r ([] ++ [t]) LStart _ eq_refl H0) as [m2 E2].
      inversion E2; subst. now apply Ht.
    - destruct (pending_emitted r [] s1 _ W1 Hs H0) as (t & more & E2 & Pt).
      inversion E2; subst. destruct s1; discriminate Pt || congruence. }
  subst a. exists r. split; [reflexivity|]. split; [exact Hws|].
  unfold tokenize. exact H0.
Qed.

End LexerPrefix.

(* ================================================================== *)
(** * Round trip *)

Section RoundTrip.
Import JS PageData GeminiService.
Local Open Scope nat_scope.

Lemma noSeparator_app a b :
  noSeparator (a ++ b) = noSeparator a && noSeparator b.
Proof. apply forallb_app. Qed.

Lemma noSeparator_escapeU c : (c < 65536)%N -> noSeparator (escapeU c) = true.
Proof.
  intro H.
  assert (D : forall d, (d < 16)%N ->
              negb ((hexDigit d =? 8232)%N || (hexDigit d =? 8233)%N) = true).
  { intros d Hd.
    exact (small_cases
             (fun d => negb ((hexDigit d =? 8232)%N || (hexDigit d =? 8233)%N))
             16 eq_refl d Hd). }
  unfold escapeU, noSeparator. cbn [forallb].
  rewrite !D; try (apply N.mod_lt; lia); [reflexivity|].
  apply N.Div0.div_lt_upper_bound. lia.
Qed.

Lemma noSeparator_quoteUnit c :
  noSeparator [c] = true -> noSeparator (quoteUnit c) = true.
Proof.
  intro H. unfold quoteUnit.
  repeat match goal with
         | |- context [if (c =? ?k)%N then _ else _] =>
             destruct (c =? k)%N; [reflexivity|]
         end.
  destruct (N.ltb_spec c 32); [apply noSeparator_escapeU; lia|exact H].
Qed.

Lemma noSeparator_quoteUnits n :
  forall s, List.length s <= n -> noSeparator s = true ->
            noSeparator (quoteUnits s) = true.
Proof.
  induction n as [|n IH]; intros s Hn Hs.
  - destruct s; [reflexivity|simpl in Hn; lia].
  - destruct s as [|c r]; [reflexivity|].
    simpl in Hn. change (c :: r) with ([c] ++ r) in Hs.
    rewrite noSeparator_app in Hs. apply andb_true_iff in Hs.
    destruct Hs as [Hc Hr]. cbn [quoteUnits].
    destruct (isHighSurrogate c) eqn:Hh.
    + unfold isHighSurrogate in Hh. apply andb_true_iff in Hh.
      destruct Hh as [_ Hh]. apply N.leb_le in Hh.
      destruct r as [|d r']; [apply noSeparator_escapeU; lia|].
      destruct (isLowSurrogate d).
      * change (c :: d :: quoteUnits r') with ([c] ++ [d] ++ quoteUnits r').
        change (d :: r') with ([d] ++ r') in Hr.
        rewrite noSeparator_app in Hr. apply andb_true_iff in Hr.
        destruct Hr as [Hd Hr'].
        rewrite !noSeparator_app, Hc, Hd. simpl in Hn. apply IH; [lia|exact Hr'].
      * rewrite noSeparator_app, noSeparator_escapeU by lia.
        apply IH; [lia|exact Hr].
    + destruct (isLowSurrogate c) eqn:Hl.
      * unfold isLowSurrogate in Hl. apply andb_true_iff in Hl.
        destruct Hl as [_ Hl]. apply N.leb_le in Hl.
        rewrite noSeparator_app, noSeparator_escapeU by lia.
        apply IH; [lia|exact Hr].
      * rewrite noSeparator_app, (noSeparator_quoteUnit c Hc).
        apply IH; [lia|exact Hr].
Qed.

Lemma noSeparator_quote s : noSeparator s = true -> noSeparator (quote s) = true.
Proof.
  intro H. unfold quote. change (34%N :: quoteUnits s ++ [34%N])
    with ([34%N] ++ quoteUnits s ++ [34%N]).
  rewrite !noSeparator_app, (noSeparator_quoteUnits (List.length s) s); auto.
Qed.

Lemma noSeparator_intercalate sep parts :
  noSeparator sep = true ->
  forallb noSeparator parts = true ->
  noSeparator (intercalate sep parts) = true.
Proof.
  intros Hsep. induction parts as [|x l IH]; intro H; [reflexivity|].
  cbn [forallb] in H. apply andb_true_iff in H. destruct H as [Hx Hl].
  destruct l as [|y l]; [exact Hx|].
  change (intercalate sep (x :: y :: l)) with (x ++ sep ++ intercalate sep (y :: l)).
  now rewrite !noSeparator_app, Hx, Hsep, IH.
Qed.

Lemma forallb_intercalate {A} (P : A -> bool) sep parts :
  forallb P sep = true ->
  forallb (forallb P) parts = true ->
  forallb P (intercalate sep parts) = true.
Proof.
  intros Hsep. induction parts as [|x l IH]; intro H; [reflexivity|].
  cbn [forallb] in H. apply andb_true_iff in H. destruct H as [Hx Hl].
  destruct l as [|y l]; [exact Hx|].
  change (intercalate sep (x :: y :: l)) with (x ++ sep ++ intercalate sep (y :: l)).
  now rewrite !forallb_app, Hx, Hsep, IH.
Qed.

Lemma forallb_map_true {A B} (P : B -> bool) (f : A -> B) (Q : A -> bool) l :
  (forall x, Q x = true -> P (f x) = true) ->
  forallb Q l = true -> forallb P (map f l) = true.
Proof.
  intros H. induction l as [|x l IH]; [reflexivity|]. cbn [forallb map].
  intro E. apply andb_true_iff in E. destruct E as [E1 E2].
  now rewrite (H x E1), IH.
Qed.

(** A property of tokens that holds of the punctuation holds of the tokens
    of a map as soon as it holds of its strings. *)
Lemma mapToks_forallb (P : token -> bool) (ok : jsstring -> bool) m :
  P TLBrace = true -> P TRBrace = true -> P TLBracket = true ->
  P TRBracket = true -> P TColon = true -> P TComma = true ->
  (forall s, ok s = true -> P (TString s) = true) ->
  forallb (fun kv => ok (fst kv) && forallb (forallb ok) (snd kv)) m = true ->
  forallb P (mapToks m) = true.
Proof.
  intros P1 P2 P3 P4 P5 P6 Ps H.
  assert (C : forallb P [TComma] = true) by (cbn; now rewrite P6).
  assert (R : forall row, forallb ok row = true -> forallb P (rowToks row) = true).
  { intros row Hr. unfold rowToks. cbn [forallb]. rewrite P3, forallb_app.
    cbn [forallb]. rewrite P4, !andb_true_r. cbn [andb].
    apply forallb_intercalate; [exact C|].
    apply (forallb_map_true _ _ ok); [|exact Hr].
    intros c Hc. cbn. now rewrite (Ps c Hc). }
  assert (G : forall g, forallb (forallb ok) g = true ->
                        forallb P (gridToks g) = true).
  { intros g Hg. unfold gridToks. cbn [forallb]. rewrite P3, forallb_app.
    cbn [forallb]. rewrite P4, !andb_true_r. cbn [andb].
    apply forallb_intercalate; [exact C|].
    apply (forallb_map_true _ _ (forallb ok)); [exact R|exact Hg]. }
  unfold mapToks. cbn [forallb]. rewrite P1, forallb_app.
  cbn [forallb]. rewrite P2, !andb_true_r. cbn [andb].
  apply forallb_intercalate; [exact C|].
  apply (forallb_map_true _ _
           (fun kv => ok (fst kv) && forallb (forallb ok) (snd kv))); [|exact H].
  intros kv Hkv. apply andb_true_iff in Hkv. destruct Hkv as [Hk Hg].
  unfold pageToks. cbn [forallb].
  apply andb_true_iff. split; [exact (Ps _ Hk)|].
  apply andb_true_iff. split; [exact P5|exact (G _ Hg)].
Qed.

Lemma mapToks_simple m : forallb simpleTok (mapToks m) = true.
Proof.
  apply (mapToks_forallb simpleTok (fun _ => true)); try reflexivity.
  assert (A : forall row : list jsstring, forallb (fun _ => true) row = true)
    by (induction row; auto).
  assert (B : forall g : GridData,
             forallb (forallb (fun _ : jsstring => true)) g = true).
  { induction g as [|r g IHg]; [reflexivity|]. cbn [forallb]. now rewrite A, IHg. }
  induction m as [|kv m IH]; [reflexivity|]. cbn [forallb].
  now rewrite B, IH.
Qed.

Lemma noSeparator_textOf ts :
  forallb tokFree ts = true -> noSeparator (textOf ts) = true.
Proof.
  induction ts as [|t ts IH]; [reflexivity|]. cbn [forallb]. intro H.
  apply andb_true_iff in H. destruct H as [Ht Hts].
  change (textOf (t :: ts)) with (tokText t ++ textOf ts).
  rewrite noSeparator_app, (IH Hts), andb_true_r.
  destruct t; try reflexivity; [|exact Ht]. now apply noSeparator_quote.
Qed.

Lemma noSeparator_stringify m :
  separatorFree m = true -> noSeparator (stringify (mapValue m)) = true.
Proof.
  intro H. rewrite stringify_mapValue. apply noSeparator_textOf.
  apply (mapToks_forallb tokFree noSeparator); try reflexivity; [|exact H].
  intros s Hs. exact Hs.
Qed.

(** The text of a map is read as its tokens. *)
Lemma tokenize_stringify m : tokenize (stringify (mapValue m)) = Some (mapToks m).
Proof.
  unfold tokenize. rewrite stringify_mapValue.
  rewrite <- (app_nil_r (textOf (mapToks m))).
  rewrite lexRun_textOf by apply mapToks_simple. reflexivity.
Qed.

Lemma JSON_parse_stringify m :
  wellFormed m -> JSON_parse (stringify (mapValue m)) = Some (mapValue m).
Proof.
  intro W. unfold JSON_parse. rewrite tokenize_stringify, parse_map.
  now rewrite buildProps_wellFormed.
Qed.

(** A text that starts with an opening brace, ends with a character that
    is no white space, holds no separator and is accepted by the lexer
    reaches [JSON.parse] unchanged. *)
Lemma pipeline_identity B z l :
  isSpace z = false ->
  noSeparator (123%N :: B ++ [z]) = true ->
  lexRun ([], LStart) (123%N :: B ++ [z]) = Some l ->
  fromFirstBrace (stripLineComments (unfence (trim (123%N :: B ++ [z]))))
  = 123%N :: B ++ [z].
Proof.
  intros Hz Hs Hl.
  assert (T : trim (123%N :: B ++ [z]) = 123%N :: B ++ [z]).
  { unfold trim. rewrite trimStart_nonspace by reflexivity.
    change (123%N :: B ++ [z]) with ((123%N :: B) ++ [z]).
    now apply trimEnd_nonspace. }
  rewrite T. unfold unfence.
  change (startsWith fence (123%N :: B ++ [z])) with false. cbv iota.
  unfold stripLineComments.
  rewrite (commentScan_lexable _ [] LStart true [] l eq_refl (fun _ => eq_refl));
    [|now rewrite app_nil_r|exact Hs].
  unfold fromFirstBrace. rewrite indexOf_eq.
  change (startsWith [123%N] (123%N :: B ++ [z])) with true. reflexivity.
Qed.

(** C5, as the code has it.  For a well-formed map whose keys and cells
    hold no line separator U+2028 and no paragraph separator U+2029, the
    response parser gives the map back from its JSON text. *)
Theorem parse_stringify_roundtrip m :
  wellFormed m ->
  separatorFree m = true ->
  parseResponse (stringify (mapValue m)) = inr (mapValue m).
Proof.
  intros W F. unfold parseResponse.
  assert (E : exists B, stringify (mapValue m) = 123%N :: B ++ [125%N])
    by (eexists; reflexivity).
  destruct E as [B E].
  pose proof (tokenize_stringify m) as T. unfold tokenize in T.
  destruct (lexRun ([], LStart) (stringify (mapValue m))) as [l|] eqn:L;
    [|discriminate].
  pose proof (noSeparator_stringify m F) as N.
  pose proof (JSON_parse_stringify m W) as J.
  rewrite E in *.
  rewrite (pipeline_identity B 125%N l eq_refl N L).
  unfold decode. now rewrite J.
Qed.

End RoundTrip.

(** C5 as the specification words it fails on a cell that holds a line
    separator followed by two slashes: the comment pattern, in multiline
    mode, takes the rest of the text for a comment line. *)
Lemma roundtrip_counterexample :
  ~ (forall m,
       PageData.wellFormed m ->
       GeminiService.parseResponse (JS.stringify (PageData.mapValue m))
       = inr (PageData.mapValue m)).
Proof.
  intro H.
  specialize (H [(JS.lit "1", [[[8232%N; 47%N; 47%N]]])]).
  assert (W : PageData.wellFormed [(JS.lit "1", [[[8232%N; 47%N; 47%N]]])]).
  { repeat constructor. }
  specialize (H W). discriminate H.
Qed.

Example roundtrip_separator :
  GeminiService.parseResponse
    (JS.stringify (PageData.mapValue [(JS.lit "1", [[[8232%N; 47%N; 47%N]]])]))
  = inl (GeminiService.ErrorObj GeminiService.truncatedMessage).
Proof. reflexivity. Qed.

Lemma parse_stringify_roundtrip_witness :
  PageData.wellFormed Sample.twoPages
  /\ PageData.separatorFree Sample.twoPages = true
  /\ GeminiService.parseResponse (JS.stringify (PageData.mapValue Sample.twoPages))
     = inr (PageData.mapValue Sample.twoPages).
Proof.
  assert (W : PageData.wellFormed Sample.twoPages).
  { unfold PageData.wellFormed, Sample.twoPages. cbn [map fst].
    repeat constructor; try discriminate. }
  split; [exact W|]. split; [reflexivity|].
  apply (parse_stringify_roundtrip Sample.twoPages W). reflexivity.
Defined.

(* ================================================================== *)
(** * Closing brackets in the tokens of a map *)

Section Brackets.
Import JS PageData.
Local Open Scope nat_scope.

Lemma app_split {A} (x : A) l1 :
  forall l2 a b,
  l1 ++ l2 = a ++ x :: b ->
  (exists b', l1 = a ++ x :: b' /\ b = b' ++ l2)
  \/ (exists a', a = l1 ++ a' /\ l2 = a' ++ x :: b).
Proof.
  induction l1 as [|y l1 IH]; intros l2 a b H.
  - right. exists a. now split.
  - destruct a as [|z a].
    + left. cbn [app] in H. inversion H; subst. exists l1. now split.
    + cbn [app] in H. inversion H; subst.
      destruct (IH _ _ _ H2) as [(b' & -> & ->)|(a' & -> & ->)].
      * left. exists b'. now split.
      * right. exists a'. now split.
Qed.

Lemma split_at_first {A} (x : A) body rest a b :
  ~ In x body ->
  body ++ x :: rest = a ++ x :: b ->
  (a = body /\ b = rest)
  \/ (exists a', a = body ++ x :: a' /\ rest = a' ++ x :: b).
Proof.
  intros Hn H. destruct (app_split x body _ _ _ H) as [(b' & E & _)|(a' & -> & E)].
  - exfalso. apply Hn. rewrite E. apply in_elt.
  - destruct a' as [|y a'].
    + cbn [app] in E. inversion E; subst. left. now rewrite app_nil_r.
    + cbn [app] in E. inversion E; subst. right. exists a'. now split.
Qed.

Lemma intercalate_two {A} (sep : list A) x y l :
  intercalate sep (x :: y :: l) = x ++ sep ++ intercalate sep (y :: l).
Proof. reflexivity. Qed.

(** A row is its opening bracket and its cells, which hold no closing
    bracket, followed by the closing bracket. *)
Lemma rowToks_body row :
  exists body, rowToks row = body ++ [TRBracket] /\ ~ In TRBracket body.
Proof.
  unfold rowToks.
  exists (TLBracket :: intercalate [TComma] (map (fun c => [TString c]) row)).
  split; [reflexivity|].
  intros [H|H]; [discriminate|].
  induction row as [|c row IH]; [contradiction|].
  destruct row as [|d row].
  - cbn in H. destruct H as [H|[]]. discriminate.
  - cbn [map] in H, IH. rewrite intercalate_two in H.
    cbn [app] in H. destruct H as [H|[H|H]]; try discriminate. now apply IH.
Qed.

(** A closing bracket among the rows of a grid closes one of the rows. *)
Lemma rows_bracket g :
  forall a b,
  intercalate [TComma] (map rowToks g) = a ++ TRBracket :: b ->
  exists j, j < List.length g
    /\ a ++ [TRBracket] = intercalate [TComma] (map rowToks (firstn (S j) g)).
Proof.
  induction g as [|r g IH]; intros a b H.
  - destruct a; discriminate.
  - destruct (rowToks_body r) as (body & Eb & Hb).
    destruct g as [|r2 g].
    + cbn [map intercalate] in H. rewrite Eb in H.
      destruct (split_at_first _ _ _ _ _ Hb H) as [[-> _]|(a' & _ & E)].
      * exists 0. split; [simpl; lia|]. cbn. now rewrite Eb.
      * destruct a'; discriminate.
    + cbn [map] in H. rewrite intercalate_two, Eb, <- app_assoc in H.
      cbn [app] in H.
      destruct (split_at_first _ _ _ _ _ Hb H) as [[-> _]|(a' & -> & E)].
      * exists 0. split; [simpl; lia|]. cbn. now rewrite Eb.
      * destruct a' as [|t a']; [discriminate|].
        cbn [app] in E. inversion E; subst t.
        destruct (IH _ _ H2) as (j & Hj & Ej).
        exists (S j). split; [simpl in *; lia|].
        change (firstn (S (S j)) (r :: r2 :: g)) with (r :: firstn (S j) (r2 :: g)).
        change (firstn (S j) (r2 :: g)) with (r2 :: firstn j g) in *.
        cbn [map] in *. rewrite intercalate_two, <- Ej, Eb.
        now rewrite <- !app_assoc.
Qed.

(** A closing bracket in a grid closes one of its rows or the grid. *)
Lemma grid_bracket g a b :
  gridToks g = a ++ TRBracket :: b ->
  (exists j, j < List.length g
     /\ a ++ [TRBracket; TRBracket] = gridToks (firstn (S j) g))
  \/ (a ++ [TRBracket] = gridToks g /\ b = []).
Proof.
  unfold gridToks. intro H.
  destruct a as [|t a]; [discriminate|].
  cbn [app] in H. inversion H; subst t.
  destruct (app_split _ _ _ _ _ H2) as [(b' & E & _)|(a' & -> & E)].
  - left. destruct (rows_bracket g a b' E) as (j & Hj & Ej).
    exists j. split; [exact Hj|]. cbn [app]. f_equal.
    rewrite <- Ej, <- app_assoc. reflexivity.
  - right. destruct a' as [|t a'].
    + cbn [app] in E. inversion E; subst. split; [|reflexivity].
      now rewrite app_nil_r.
    + cbn [app] in E. inversion E. destruct a'; discriminate.
Qed.

Lemma cons2_inv {A} (x1 x2 y1 y2 : A) l l' :
  x1 :: x2 :: l = y1 :: y2 :: l' -> x1 = y1 /\ x2 = y2 /\ l = l'.
Proof. intro H. now inversion H. Qed.

Lemma members_cons kv m :
  m <> [] -> members (kv :: m) = pageToks kv ++ TComma :: members m.
Proof. destruct m; [congruence|reflexivity]. Qed.

(** A closing bracket among the pages closes a row of a page or the grid of
    a page. *)
Lemma pages_bracket m :
  forall a b,
  members m = a ++ TRBracket :: b ->
  exists i key g,
    nth_error m i = Some (key, g)
    /\ ((exists j, j < List.length g
           /\ a ++ [TRBracket; TRBracket]
              = members (firstn i m ++ [(key, firstn (S j) g)]))
        \/ a ++ [TRBracket] = members (firstn (S i) m)).
Proof.
  induction m as [|[k g] m IH]; intros a b H.
  - destruct a; discriminate.
  - assert (Here : forall ag bg,
               gridToks g = ag ++ TRBracket :: bg ->
               a = TString k :: TColon :: ag ->
               exists i key g0,
                 nth_error ((k, g) :: m) i = Some (key, g0)
                 /\ ((exists j, j < List.length g0
                        /\ a ++ [TRBracket; TRBracket]
                           = members (firstn i ((k, g) :: m)
                                        ++ [(key, firstn (S j) g0)]))
                     \/ a ++ [TRBracket] = members (firstn (S i) ((k, g) :: m)))).
    { intros ag bg Hg ->. exists 0, k, g. split; [reflexivity|].
      destruct (grid_bracket g ag bg Hg) as [(j & Hj & Ej)|[Eg _]].
      - left. exists j. split; [exact Hj|].
        change ((TString k :: TColon :: ag) ++ [TRBracket; TRBracket])
          with (TString k :: TColon :: (ag ++ [TRBracket; TRBracket])).
        rewrite Ej. reflexivity.
      - right.
        change ((TString k :: TColon :: ag) ++ [TRBracket])
          with (TString k :: TColon :: (ag ++ [TRBracket])).
        rewrite Eg. reflexivity. }
    destruct m as [|kv2 m].
    + unfold members in H. cbn [map intercalate pageToks fst snd] in H.
      destruct a as [|t1 [|t2 a]]; try discriminate.
      cbn [app] in H.
      apply cons2_inv in H. destruct H as (<- & <- & H3).
      eapply Here; [exact H3|reflexivity].
    + rewrite members_cons in H by discriminate.
      unfold pageToks at 1 in H. cbn [fst snd] in H.
      destruct a as [|t1 [|t2 a]]; try discriminate.
      cbn [app] in H.
      apply cons2_inv in H. destruct H as (<- & <- & H3).
      destruct (app_split _ _ _ _ _ H3) as [(b' & E & _)|(a' & -> & E)].
      * eapply Here; [eassumption|reflexivity].
      * destruct a' as [|t a']; [discriminate|].
        cbn [app] in E. injection E as <- H2.
        destruct (IH _ _ H2) as (i & key & g0 & Hn & Hc).
        exists (S i), key, g0. split; [exact Hn|].
        assert (P : forall x, TString k :: TColon :: (gridToks g ++ TComma :: a') ++ x
                              = pageToks (k, g) ++ TComma :: a' ++ x).
        { intro x. unfold pageToks. cbn [fst snd app].
          now rewrite <- app_assoc. }
        destruct Hc as [(j & Hj & Ej)|Ej].
        -- left. exists j. split; [exact Hj|].
           change (firstn (S i) ((k, g) :: kv2 :: m))
             with ((k, g) :: firstn i (kv2 :: m)).
           cbn [app]. rewrite members_cons by (destruct i; discriminate).
           rewrite <- Ej. apply P.
        -- right.
           change (firstn (S (S i)) ((k, g) :: kv2 :: m))
             with ((k, g) :: firstn (S i) (kv2 :: m)).
           rewrite members_cons by discriminate.
           rewrite <- Ej. apply P.
Qed.

(** A closing bracket in the tokens of a map closes a row or a grid: what
    was read so far, closed, is the text of a leading part of the map. *)
Lemma map_bracket m a b :
  mapToks m = a ++ TRBracket :: b ->
  exists m',
    leadingPart m' m
    /\ (a ++ [TRBracket; TRBracket; TRBrace] = mapToks m'
        \/ a ++ [TRBracket; TRBrace] = mapToks m').
Proof.
  unfold mapToks. fold (members m). intro H.
  destruct a as [|t a]; [discriminate|].
  cbn [app] in H. inversion H; subst t.
  destruct (app_split _ _ _ _ _ H2) as [(b' & E & _)|(a' & -> & E)].
  - destruct (pages_bracket m a b' E) as (i & key & g & Hn & [(j & Hj & Ej)|Ej]).
    + exists (firstn i m ++ [(key, firstn (S j) g)]). split.
      * exists i. right. exists key, g, (S j). now split.
      * left. fold (members (firstn i m ++ [(key, firstn (S j) g)])).
        rewrite <- Ej. cbn [app]. now rewrite <- app_assoc.
    + exists (firstn (S i) m). split.
      * exists (S i). now left.
      * right. fold (members (firstn (S i) m)).
        rewrite <- Ej. cbn [app]. now rewrite <- app_assoc.
  - destruct a' as [|t a']; [discriminate|].
    cbn [app] in E. inversion E. destruct a'; discriminate.
Qed.

End Brackets.

(* ================================================================== *)
(** * Truncation repair *)

Section Repair.
Import JS PageData GeminiService.
Local Open Scope nat_scope.

Lemma parseStep_bracket_brace p q :
  parseStep p TRBracket = Some q -> parseStep p TRBrace = None.
Proof.
  destruct p as [stack e]. destruct e; cbn; try discriminate;
    destruct stack as [|[] stack]; cbn; try discriminate; reflexivity.
Qed.

Lemma parseStep_brace_bracket p q :
  parseStep p TRBrace = Some q -> parseStep p TRBracket = None.
Proof.
  destruct p as [stack e]. destruct e; cbn; try discriminate;
    destruct stack as [|[] stack]; cbn; try discriminate; reflexivity.
Qed.

Lemma parseTokens_snoc a t v :
  parseTokens (a ++ [t]) = Some v ->
  exists p, parseRun ([], EValue) a = Some p /\ parseStep p t = Some ([], EEnd v).
Proof.
  unfold parseTokens. rewrite parseRun_app.
  destruct (parseRun ([], EValue) a) as [p|]; [|discriminate].
  rewrite parseRun_one. intro H. exists p. split; [reflexivity|].
  destruct (parseStep p t) as [[[|f st] e]|]; try discriminate.
  destruct e; try discriminate. now inversion H.
Qed.

Lemma parseTokens_fail a t rest p :
  parseRun ([], EValue) a = Some p -> parseStep p t = None ->
  parseTokens (a ++ t :: rest) = None.
Proof.
  intros Ha Ht. unfold parseTokens. rewrite parseRun_app, Ha.
  cbn [parseRun]. now rewrite Ht.
Qed.

(** After the bracket that closes a row, two braces are refused and a
    bracket and a brace give the leading part. *)
Lemma repair_row_close a m' :
  a ++ [TRBracket; TRBracket; TRBrace] = mapToks m' ->
  parseTokens (a ++ [TRBracket] ++ [TRBrace; TRBrace]) = None
  /\ parseTokens (a ++ [TRBracket] ++ [TRBracket; TRBrace])
     = Some (VObj (buildProps m' [])).
Proof.
  intro H. split.
  - pose proof (parse_map m') as P. rewrite <- H in P.
    unfold parseTokens in P.
    change (a ++ [TRBracket; TRBracket; TRBrace])
      with (a ++ [TRBracket] ++ TRBracket :: [TRBrace]) in P.
    rewrite app_assoc, parseRun_app in P.
    destruct (parseRun ([], EValue) (a ++ [TRBracket])) as [p|] eqn:E;
      [|discriminate].
    cbn [parseRun] in P.
    destruct (parseStep p TRBracket) as [q|] eqn:Eq; [|discriminate].
    rewrite app_assoc.
    apply (parseTokens_fail _ _ _ p E).
    exact (parseStep_bracket_brace p q Eq).
  - cbn [app]. rewrite H. apply parse_map.
Qed.

(** After the bracket that closes a grid, none of the three suffixes is
    accepted. *)
Lemma repair_grid_close a m' :
  a ++ [TRBracket; TRBrace] = mapToks m' ->
  parseTokens (a ++ [TRBracket] ++ [TRBrace; TRBrace]) = None
  /\ parseTokens (a ++ [TRBracket] ++ [TRBracket; TRBrace]) = None
  /\ parseTokens (a ++ [TRBracket] ++ [TRBracket; TRBracket; TRBrace]) = None.
Proof.
  intro H. pose proof (parse_map m') as P. rewrite <- H in P.
  change (a ++ [TRBracket; TRBrace]) with (a ++ [TRBracket] ++ [TRBrace]) in P.
  rewrite app_assoc in P.
  destruct (parseTokens_snoc _ _ _ P) as (p & Ep & Es).
  pose proof (parseStep_brace_bracket p _ Es) as Nb.
  split; [|split].
  - rewrite app_assoc. unfold parseTokens. rewrite parseRun_app, Ep.
    cbn [parseRun]. rewrite Es. reflexivity.
  - rewrite app_assoc. exact (parseTokens_fail _ _ _ p Ep Nb).
  - rewrite app_assoc. exact (parseTokens_fail _ _ _ p Ep Nb).
Qed.

Lemma JSON_parse_after X tX ts :
  lexRun ([], LStart) X = Some (tX, LStart) ->
  forallb simpleTok ts = true ->
  JSON_parse (X ++ textOf ts) = parseTokens (tX ++ ts).
Proof.
  intros E Hs. unfold JSON_parse, tokenize. rewrite lexRun_app, E.
  rewrite <- (app_nil_r (textOf ts)), lexRun_textOf by exact Hs.
  reflexivity.
Qed.

Lemma JSON_parse_inString X tX sX suffix :
  lexRun ([], LStart) X = Some (tX, sX) ->
  inString sX = true ->
  forallb (fun c => (c =? 93)%N || (c =? 125)%N) suffix = true ->
  JSON_parse (X ++ suffix) = None.
Proof.
  intros E Hs Hc. unfold JSON_parse, tokenize. rewrite lexRun_app, E.
  now rewrite (inString_closers suffix tX sX Hs Hc).
Qed.

(** What the candidates give after a prefix of the text of a map that ends
    with a closing bracket: nothing, or a leading part of the map. *)
Lemma repair_candidates X' Y0 m :
  tokenize ((X' ++ [93%N]) ++ Y0) = Some (mapToks m) ->
  tryParse (X' ++ [93%N]) candidates = None
  \/ exists m',
       leadingPart m' m
       /\ tryParse (X' ++ [93%N]) candidates = Some (VObj (buildProps m' [])).
Proof.
  intro H.
  destruct (lex_prefix_state (X' ++ [93%N]) Y0 _ H (mapToks_simple m))
    as (tX & sX & EX & _ & [more Emore] & _).
  pose proof H as H'. rewrite <- app_assoc in H'. cbn [app] in H'.
  destruct (lex_prefix_state X' (93%N :: Y0) _ H' (mapToks_simple m))
    as (tA & sA & EA & BA & _ & _).
  pose proof EX as EX'. rewrite lexRun_app, EA in EX'. cbn [lexRun] in EX'.
  destruct (lexStep (tA, sA) 93%N) as [[t1 s1]|] eqn:Es; [|discriminate].
  inversion EX'; subst t1 s1. clear EX'.
  destruct (lexStep_bracket _ _ _ _ BA Es) as [[-> ->]|Hin].
  - rewrite <- app_assoc in Emore. cbn [app] in Emore.
    destruct (map_bracket m tA more Emore) as (m' & Hl & [Ea|Eb]).
    + right. exists m'. split; [exact Hl|].
      destruct (repair_row_close tA m' Ea) as [R1 R2].
      unfold tryParse, candidates. cbn [fold_right].
      change (lit "}}") with (textOf [TRBrace; TRBrace]).
      change (lit "]}") with (textOf [TRBracket; TRBrace]).
      rewrite !(JSON_parse_after _ _ _ EX) by reflexivity.
      rewrite <- !app_assoc. now rewrite R1, R2.
    + left.
      destruct (repair_grid_close tA m' Eb) as (R1 & R2 & R3).
      unfold tryParse, candidates. cbn [fold_right].
      change (lit "}}") with (textOf [TRBrace; TRBrace]).
      change (lit "]}") with (textOf [TRBracket; TRBrace]).
      change (lit "]]}") with (textOf [TRBracket; TRBracket; TRBrace]).
      rewrite !(JSON_parse_after _ _ _ EX) by reflexivity.
      rewrite <- !app_assoc. now rewrite R1, R2, R3.
  - left. unfold tryParse, candidates. cbn [fold_right].
    rewrite !(JSON_parse_inString _ _ _ _ EX Hin) by reflexivity.
    reflexivity.
Qed.

(** ** Where the text is cut *)

Lemma lastIndexOf_from_found pat s :
  forall pos best n,
  lastIndexOf_from pat s pos best = Some n ->
  best = Some n
  \/ exists k, n = pos + k /\ k <= List.length s
               /\ startsWith pat (skipn k s) = true.
Proof.
  induction s as [|c s IH]; intros pos best n H; cbn [lastIndexOf_from] in H.
  - destruct (startsWith pat []) eqn:E; [|now left].
    inversion H; subst. right. exists 0.
    split; [lia|]. split; [simpl; lia|exact E].
  - destruct (IH _ _ _ H) as [Hb|(k & -> & Hk & Hs)].
    + destruct (startsWith pat (c :: s)) eqn:E; [|now left].
      inversion Hb; subst. right. exists 0.
      split; [lia|]. split; [simpl; lia|exact E].
    + right. exists (S k). split; [lia|]. split; [simpl; lia|exact Hs].
Qed.

(** The cut of [tryRepairJson] is just after a closing bracket. *)
Lemma lastIndexOf_bracket q s n :
  lastIndexOf (93%N :: q) s = Some n ->
  exists X' rest, s = (X' ++ [93%N]) ++ rest /\ substringTo (n + 1) s = X' ++ [93%N].
Proof.
  unfold lastIndexOf. intro H.
  destruct (lastIndexOf_from_found _ _ _ _ _ H) as [Hb|(k & -> & Hk & Hs)];
    [discriminate|].
  cbn [Nat.add].
  destruct (skipn k s) as [|c rest] eqn:E; [discriminate|].
  cbn [startsWith] in Hs. apply andb_true_iff in Hs. destruct Hs as [Hc _].
  apply N.eqb_eq in Hc. subst c.
  exists (firstn k s), rest.
  assert (S1 : s = (firstn k s ++ [93%N]) ++ rest).
  { rewrite <- app_assoc. cbn [app]. rewrite <- E. now rewrite firstn_skipn. }
  split; [exact S1|].
  unfold substringTo. rewrite S1 at 1. rewrite firstn_app.
  assert (L : List.length (firstn k s ++ [93%N]) = k + 1).
  { rewrite length_app, firstn_length_le by exact Hk. reflexivity. }
  rewrite L, Nat.sub_diag, firstn_all2 by lia. cbn [firstn]. apply app_nil_r.
Qed.

(** [tryRepairJson] on a prefix of the text of a map. *)
Lemma tryRepairJson_prefix P Y m :
  tokenize (P ++ Y) = Some (mapToks m) ->
  tryRepairJson P = None
  \/ exists m',
       leadingPart m' m /\ tryRepairJson P = Some (VObj (buildProps m' [])).
Proof.
  intro H. unfold tryRepairJson.
  change (lit "],") with [93%N; 44%N]. change (lit "]") with [93%N].
  assert (K : forall n,
            (exists X' rest, P = (X' ++ [93%N]) ++ rest
                             /\ substringTo (n + 1) P = X' ++ [93%N]) ->
            tryParse (substringTo (n + 1) P) candidates = None
            \/ exists m',
                 leadingPart m' m
                 /\ tryParse (substringTo (n + 1) P) candidates
                    = Some (VObj (buildProps m' []))).
  { intros n (X' & rest & EP & ->).
    apply (repair_candidates X' (rest ++ Y) m).
    rewrite app_assoc, <- EP. exact H. }
  destruct (lastIndexOf [93%N; 44%N] P) as [n|] eqn:E1.
  - apply K. exact (lastIndexOf_bracket _ _ _ E1).
  - destruct (lastIndexOf [93%N] P) as [n|] eqn:E2; cbn [option_map].
    + apply K. exact (lastIndexOf_bracket _ _ _ E2).
    + now left.
Qed.

(** A prefix of the text of a map that is itself accepted is the whole
    text, up to white space at its end. *)
Lemma JSON_parse_prefix P Y m v :
  tokenize (P ++ Y) = Some (mapToks m) ->
  JSON_parse P = Some v -> v = VObj (buildProps m []).
Proof.
  intros H Hv.
  destruct (lex_prefix_state P Y _ H (mapToks_simple m))
    as (tP & sP & EP & BP & [more Emore] & _).
  unfold JSON_parse, tokenize in Hv. rewrite EP in Hv.
  destruct BP as [-> | Hin];
    [|destruct sP; try discriminate Hin; discriminate Hv].
  cbn [lexFinish] in Hv.
  pose proof (parse_map m) as Pm. rewrite Emore in Pm.
  unfold parseTokens in Hv, Pm. rewrite parseRun_app in Pm.
  destruct (parseRun ([], EValue) tP) as [[[|f st] e]|]; try discriminate.
  destruct e; try discriminate. inversion Hv; subst.
  destruct more as [|t more]; [|discriminate Pm].
  cbn [parseRun] in Pm. now inversion Pm.
Qed.

(** Lines 165-172 on a prefix of the text of a well-formed map. *)
Lemma decode_prefix P Y m :
  wellFormed m ->
  tokenize (P ++ Y) = Some (mapToks m) ->
  decode P = inl (ErrorObj truncatedMessage)
  \/ exists m', leadingPart m' m /\ decode P = inr (mapValue m').
Proof.
  intros W H. unfold decode.
  destruct (JSON_parse P) as [v|] eqn:J.
  - right. exists m. split.
    + exists (List.length m). left. now rewrite firstn_all.
    + rewrite (JSON_parse_prefix P Y m v H J).
      unfold mapValue. now rewrite buildProps_wellFormed.
  - destruct (tryRepairJson_prefix P Y m H) as [-> | (m' & Hl & ->)];
      [now left|].
    right. exists m'. split; [exact Hl|]. cbn [truthy].
    unfold mapValue.
    now rewrite (buildProps_wellFormed m' (wellFormed_leading m' m W Hl)).
Qed.

(** ** The cut text *)

Lemma trimStart_all ws : forallb isSpace ws = true -> trimStart ws = [].
Proof.
  intro H. rewrite <- (app_nil_r ws). now rewrite trimStart_spaces.
Qed.

Lemma forallb_firstn {A} (P : A -> bool) n l :
  forallb P l = true -> forallb P (firstn n l) = true.
Proof.
  intro H. rewrite <- (firstn_skipn n l), forallb_app in H.
  now apply andb_true_iff in H.
Qed.

(** What is left of a cut text after [trim]: nothing, or a prefix of the
    text that starts at its opening brace. *)
Lemma trim_cut ws R n :
  forallb isJsonWs ws = true ->
  trim (firstn n (ws ++ 123%N :: R)) = []
  \/ exists X Y,
       123%N :: R = (123%N :: X) ++ Y
       /\ trim (firstn n (ws ++ 123%N :: R)) = 123%N :: X.
Proof.
  intro Hws. pose proof (forallb_isJsonWs_space ws Hws) as Hsp.
  rewrite firstn_app. unfold trim.
  destruct (n - List.length ws) as [|k] eqn:E.
  - left. cbn [firstn]. rewrite app_nil_r.
    now rewrite trimStart_all by (now apply forallb_firstn).
  - right. rewrite firstn_all2 by lia. cbn [firstn].
    rewrite trimStart_spaces by exact Hsp.
    rewrite trimStart_nonspace by reflexivity.
    destruct (trimEnd_cons 123%N (firstn k R) eq_refl) as [r' Er].
    destruct (trimEnd_firstn (123%N :: firstn k R)) as [n2 En].
    exists r', (skipn (Nat.min n2 (S k)) (123%N :: R)). split; [|exact Er].
    rewrite <- Er, En.
    change (123%N :: firstn k R) with (firstn (S k) (123%N :: R)).
    rewrite firstn_firstn. now rewrite firstn_skipn.
Qed.

(** A prefix of an accepted text that starts with the opening brace
    reaches [JSON.parse] unchanged. *)
Lemma pipeline_prefix X Y l :
  lexRun ([], LStart) ((123%N :: X) ++ Y) = Some l ->
  noSeparator (123%N :: X) = true ->
  fromFirstBrace (stripLineComments (unfence (123%N :: X))) = 123%N :: X.
Proof.
  intros Hl Hs. unfold unfence.
  change (startsWith fence (123%N :: X)) with false. cbv iota.
  unfold stripLineComments.
  rewrite (commentScan_lexable _ [] LStart true Y l eq_refl (fun _ => eq_refl) Hl Hs).
  unfold fromFirstBrace. rewrite indexOf_eq.
  change (startsWith [123%N] (123%N :: X)) with true. reflexivity.
Qed.

(** C4, as the code has it.  Let a text be the JSON text of a well-formed
    map, with any white space between its tokens and any escapes in its
    strings, but with no line or paragraph separator.  Cut anywhere, it
    is either refused with the truncated diagnostic or read as a leading
    part of the map: its first pages, the last of them possibly with its
    first rows only, every row whole. *)
Theorem truncated_text_result m S n :
  wellFormed m ->
  tokenize S = Some (mapToks m) ->
  noSeparator S = true ->
  parseResponse (firstn n S) = inl (ErrorObj truncatedMessage)
  \/ exists m',
       leadingPart m' m /\ parseResponse (firstn n S) = inr (mapValue m').
Proof.
  intros W T Hs.
  destruct (first_brace S _ T) as (ws & R & -> & Hws & T0).
  unfold parseResponse.
  destruct (trim_cut ws R n Hws) as [-> | (X & Y & E & ->)].
  - now left.
  - rewrite E in T0. pose proof T0 as T1. unfold tokenize in T1.
    destruct (lexRun ([], LStart) ((123%N :: X) ++ Y)) as [l|] eqn:L;
      [|discriminate].
    rewrite E in Hs.
    rewrite !noSeparator_app in Hs. apply andb_true_iff in Hs.
    destruct Hs as [_ Hs]. apply andb_true_iff in Hs. destruct Hs as [Hs _].
    rewrite (pipeline_prefix X Y l L Hs).
    exact (decode_prefix _ Y m W T0).
Qed.

End Repair.

(** * A comment line anywhere in the payload *)

Section CommentLine.
Import JS PageData GeminiService.
Local Open Scope nat_scope.

(** ** White space the lexer skips *)



(** White space at the end of a text changes nothing to its tokens. *)
Lemma lexFinish_ws ws :
  forall toks st,
  wfLex st = true -> forallb isJsonWs ws = true ->
  match lexRun (toks, st) ws with Some l => lexFinish l | None => None end
  = lexFinish (toks, st).
Proof.
  induction ws as [|c ws IH]; intros toks st W H; [reflexivity|].
  cbn [forallb] in H. apply andb_true_iff in H. destruct H as [Hc Hws].
  cbn [lexRun].
  destruct st as [|acc|acc|acc todo code|nst lexeme|rest tok].
  - change (lexStep (toks, LStart) c) with (startStep toks c).
    unfold startStep. rewrite Hc. now apply IH.
  - destruct (isJsonWs_cases c Hc) as [-> | [-> | [-> | ->]]];
      try reflexivity.
    change (lexStep (toks, LString acc) 32%N)
      with (Some (toks, LString (acc ++ [32%N]))).
    cbv iota. now rewrite IH.
  - destruct (isJsonWs_cases c Hc) as [-> | [-> | [-> | ->]]]; reflexivity.
  - destruct (isJsonWs_cases c Hc) as [-> | [-> | [-> | ->]]]; reflexivity.
  - assert (K : lexStep (toks, LNumber nst lexeme) c
                = if numFinal nst then Some (toks ++ [TNumber lexeme], LStart)
                  else None).
    { destruct (isJsonWs_cases c Hc) as [-> | [-> | [-> | ->]]];
        destruct nst; reflexivity. }
    rewrite K. cbn [lexFinish]. destruct (numFinal nst); [|reflexivity].
    cbv iota. now rewrite IH.
  - cbn [wfLex] in W. apply andb_true_iff in W. destruct W as [_ W].
    destruct rest as [|x r]; [reflexivity|].
    cbn [forallb] in W. apply andb_true_iff in W. destruct W as [W _].
    unfold lexStep. destruct (N.eqb_spec c x) as [<- | ?]; [|reflexivity].
    rewrite (isJsonWs_space c Hc) in W. discriminate W.
Qed.

Lemma JSON_parse_trailing s ws :
  forallb isJsonWs ws = true -> JSON_parse (s ++ ws) = JSON_parse s.
Proof.
  intro H. unfold JSON_parse, tokenize. rewrite lexRun_app.
  destruct (lexRun ([], LStart) s) as [[toks st]|] eqn:E; [|reflexivity].
  destruct (lexRun_tokens s [] LStart toks st eq_refl E) as [W _].
  now rewrite (lexFinish_ws ws toks st W H).
Qed.

(** Inside a string, white space does not close the string. *)
Lemma lexRun_in_string W :
  forall toks st toks' st',
  inString st = true -> forallb isSpace W = true ->
  lexRun (toks, st) W = Some (toks', st') -> inString st' = true.
Proof.
  induction W as [|c W IH]; intros toks st toks' st' I H E.
  - simpl in E. inversion E; now subst.
  - cbn [forallb] in H. apply andb_true_iff in H. destruct H as [Hc HW].
    cbn [lexRun] in E.
    destruct (lexStep (toks, st) c) as [[t1 s1]|] eqn:E1; [|discriminate].
    apply (IH t1 s1 toks' st'); [|exact HW|exact E].
    destruct st as [|acc|acc|acc todo code|nst lexeme|rest tok];
      try discriminate I; unfold lexStep in E1.
    + destruct (N.eqb_spec c 34) as [-> | ?]; [discriminate Hc|].
      destruct (c =? 92)%N; [now inversion E1|].
      destruct (c <? 32)%N; [discriminate|now inversion E1].
    + destruct (c =? 117)%N; [now inversion E1|].
      destruct (escapeChar c); [now inversion E1|discriminate].
    + destruct (isHexDigit c); [|discriminate].
      destruct todo as [|[|n]]; now inversion E1.
Qed.

(** A white space character the lexer accepts is JSON white space read
    between two tokens, or it is part of a string. *)
Lemma lexStep_space toks st c toks' st' :
  wfLex st = true -> isSpace c = true ->
  lexStep (toks, st) c = Some (toks', st') ->
  (isJsonWs c = true /\ st' = LStart) \/ inString st' = true.
Proof.
  intros W Hc E.
  assert (K : forall ts l, startStep ts c = Some l ->
                           isJsonWs c = true /\ snd l = LStart).
  { intros ts l Hs. destruct (startStep_char ts c l Hs) as [J|(_ & Sp & _)].
    - split; [exact J|]. unfold startStep in Hs. rewrite J in Hs.
      now inversion Hs.
    - rewrite Sp in Hc. discriminate Hc. }
  destruct st as [|acc|acc|acc todo code|nst lexeme|rest tok].
  - left. exact (K toks _ E).
  - right. apply (lexRun_in_string [c] toks (LString acc) toks' st' eq_refl).
    + simpl. now rewrite Hc.
    + cbn [lexRun]. now rewrite E.
  - right. apply (lexRun_in_string [c] toks (LEscape acc) toks' st' eq_refl).
    + simpl. now rewrite Hc.
    + cbn [lexRun]. now rewrite E.
  - right.
    apply (lexRun_in_string [c] toks (LUnicode acc todo code) toks' st' eq_refl).
    + simpl. now rewrite Hc.
    + cbn [lexRun]. now rewrite E.
  - left. unfold lexStep in E.
    assert (D : isDigit c = false).
    { destruct (isDigit c) eqn:D; [|reflexivity].
      rewrite (isDigit_not_space c D) in Hc. discriminate Hc. }
    assert (N1 : (c =? 48)%N = false)
      by (destruct (N.eqb_spec c 48) as [-> | ?]; [discriminate Hc|reflexivity]).
    assert (N2 : (c =? 46)%N = false)
      by (destruct (N.eqb_spec c 46) as [-> | ?]; [discriminate Hc|reflexivity]).
    assert (N3 : (c =? 43)%N = false)
      by (destruct (N.eqb_spec c 43) as [-> | ?]; [discriminate Hc|reflexivity]).
    assert (N4 : (c =? 45)%N = false)
      by (destruct (N.eqb_spec c 45) as [-> | ?]; [discriminate Hc|reflexivity]).
    assert (N5 : isExpMark c = false).
    { unfold isExpMark.
      destruct (N.eqb_spec c 101) as [-> | ?]; [discriminate Hc|].
      destruct (N.eqb_spec c 69) as [-> | ?]; [discriminate Hc|reflexivity]. }
    destruct nst; cbn [numStep] in E;
      rewrite ?N1, ?N2, ?N3, ?N4, ?N5, ?D in E; cbn [orb] in E;
      try discriminate E; exact (K _ _ E).
  - cbn [wfLex] in W. apply andb_true_iff in W. destruct W as [_ W].
    destruct rest as [|x r]; [discriminate E|].
    cbn [forallb] in W. apply andb_true_iff in W. destruct W as [W _].
    unfold lexStep in E. destruct (N.eqb_spec c x) as [<- | ?]; [|discriminate E].
    rewrite Hc in W. discriminate W.
Qed.

(** A run of white space after which the lexer is between two tokens is
    JSON white space. *)
Lemma spaces_to_start W :
  forall toks st toks',
  wfLex st = true -> forallb isSpace W = true ->
  lexRun (toks, st) W = Some (toks', LStart) ->
  forallb isJsonWs W = true.
Proof.
  induction W as [|c W IH]; intros toks st toks' Wf H E; [reflexivity|].
  cbn [forallb] in H. apply andb_true_iff in H. destruct H as [Hc HW].
  cbn [lexRun] in E.
  destruct (lexStep (toks, st) c) as [[t1 s1]|] eqn:E1; [|discriminate].
  destruct (lexStep_space toks st c t1 s1 Wf Hc E1) as [[J ->]|I].
  - cbn [forallb]. rewrite J. exact (IH t1 LStart toks' eq_refl HW E).
  - pose proof (lexRun_in_string W t1 s1 toks' LStart I HW E) as X.
    discriminate X.
Qed.

(** ** Searching a text *)



Lemma fromFirstBrace_at x z :
  forallb (fun w => negb (w =? 123)%N) x = true ->
  fromFirstBrace (x ++ 123%N :: z) = 123%N :: z.
Proof.
  intro H. unfold fromFirstBrace. rewrite (indexOf_skip 123%N x _ H).
  rewrite indexOf_eq. cbn [startsWith N.eqb Pos.eqb andb option_map].
  unfold substringFrom. rewrite skipn_app, skipn_all2 by lia.
  replace (List.length x + 0 - List.length x) with 0 by lia. reflexivity.
Qed.








(** ** White space at the end of the text *)







(** ** White space after a line feed *)






(** ** The scan before and after the comment line *)







(** ** The payload around the comment line *)



Lemma trimStart_keeps_last x z :
  isSpace z = false -> exists x', trimStart (x ++ [z]) = x' ++ [z].
Proof.
  intro Hz. induction x as [|c x IH]; cbn [app trimStart].
  - rewrite Hz. now exists [].
  - destruct (isSpace c); [exact IH|]. now exists (c :: x).
Qed.

Lemma unfence_plain a s : a <> 96%N -> unfence (a :: s) = a :: s.
Proof.
  intro H. unfold unfence. change fence with [96; 96; 96]%N.
  cbn [startsWith]. destruct (N.eqb_spec 96 a); [congruence|reflexivity].
Qed.

Lemma last_cases (l : jsstring) : l = [] \/ exists l' c, l = l' ++ [c].
Proof.
  induction l as [|c l _] using rev_ind; [now left|]. right. now exists l, c.
Qed.



End CommentLine.


Example spacedText_tokens :
  JS.tokenize Sample.spacedText = Some (PageData.mapToks Sample.twoPages).
Proof. reflexivity. Qed.

(** Cut inside the second row of the first page, the spaced text gives the
    first row of the first page. *)
Example spacedText_cut :
  GeminiService.parseResponse (firstn 26 Sample.spacedText)
  = inr (PageData.mapValue [(JS.lit "1", [[JS.lit "A"; JS.lit "B"]])]).
Proof. reflexivity. Qed.

(** Cut after the first page, it is refused. *)
Example spacedText_cut_after_page :
  GeminiService.parseResponse (firstn 40 Sample.spacedText)
  = inl (GeminiService.ErrorObj GeminiService.truncatedMessage).
Proof. reflexivity. Qed.

Lemma truncated_text_result_witness :
  PageData.wellFormed Sample.twoPages
  /\ JS.tokenize Sample.spacedText = Some (PageData.mapToks Sample.twoPages)
  /\ PageData.noSeparator Sample.spacedText = true
  /\ (GeminiService.parseResponse (firstn 26 Sample.spacedText)
      = inl (GeminiService.ErrorObj GeminiService.truncatedMessage)
      \/ exists m',
           PageData.leadingPart m' Sample.twoPages
           /\ GeminiService.parseResponse (firstn 26 Sample.spacedText)
              = inr (PageData.mapValue m')).
Proof.
  assert (W : PageData.wellFormed Sample.twoPages).
  { unfold PageData.wellFormed, Sample.twoPages. cbn [map fst].
    repeat constructor; try discriminate. }
  split; [exact W|]. split; [reflexivity|]. split; [reflexivity|].
  apply (truncated_text_result Sample.twoPages Sample.spacedText 26 W);
    reflexivity.
Defined.

(** C4 as the specification words it fails on the text of a map with a
    cell that holds a line separator followed by two slashes: cut in the
    second row, the text is read as a row whose cell has lost the part the
    comment pattern removed. *)
Lemma truncation_counterexample :
  ~ (forall m S n,
       PageData.wellFormed m ->
       JS.tokenize S = Some (PageData.mapToks m) ->
       GeminiService.parseResponse (firstn n S)
       = inl (GeminiService.ErrorObj GeminiService.truncatedMessage)
       \/ exists m',
            PageData.leadingPart m' m
            /\ GeminiService.parseResponse (firstn n S)
               = inr (PageData.mapValue m')).
Proof.
  intro H.
  specialize (H Sample.separatorPage
                (JS.stringify (PageData.mapValue Sample.separatorPage)) 21%nat).
  assert (W : PageData.wellFormed Sample.separatorPage) by repeat constructor.
  specialize (H W eq_refl).
  destruct H as [H|(m' & (i & Hl) & H)]; [discriminate H|].
  vm_compute in H.
  destruct Hl as [-> | (key & g & j & Hn & ->)].
  - destruct i as [|i]; [discriminate H|].
    destruct i; discriminate H.
  - destruct i as [|i].
    + vm_compute in Hn. inversion Hn; subst key g.
      destruct j as [|[|[|j]]]; discriminate H.
    + destruct i; discriminate Hn.
Qed.

Example separatorPage_cut :
  GeminiService.parseResponse
    (firstn 21 (JS.stringify (PageData.mapValue Sample.separatorPage)))
  = inr (PageData.mapValue [(JS.lit "1", [[[97; 8232; 8232; 98]%N]])]).
Proof. reflexivity. Qed.

(* ================================================================== *)
(** * Every run of processFile settles *)

Section Settles.
Import JS GeminiService.
Local Open Scope nat_scope.

Variable Page : Type.
Variable load : jsstring -> option (list Page).
Variable saveAsBase64 : list Page -> jsstring.
Variable copyError : thrown.
Variable generateContent : nat -> jsstring -> response.
Variable keysTypeError : jsstring.

(** Whatever the service answers, the loop ends: it has visited the first
    [k] windows, and either all of them, and it resolves, or the batch of
    the last of them failed, and it rejects with the range of that
    window. *)
Lemma batchLoop_settles onProgress (pdfDoc : list Page) fuel :
  forall i agg log rq,
  List.length pdfDoc - i <= fuel ->
  exists k out,
    batchLoop Page saveAsBase64 copyError generateContent keysTypeError
      fuel onProgress pdfDoc (List.length pdfDoc) i agg log rq
    = Some (log ++ flat_map (windowEvents Page saveAsBase64 onProgress pdfDoc)
                     (firstn k (windowsFrom fuel (List.length pdfDoc) i)),
            out)
    /\ k <= List.length (windowsFrom fuel (List.length pdfDoc) i)
    /\ ((k = List.length (windowsFrom fuel (List.length pdfDoc) i)
         /\ exists agg', out = Resolved agg')
        \/ exists w t,
             nth_error (windowsFrom fuel (List.length pdfDoc) i) (pred k) = Some w
             /\ 0 < k
             /\ out = Rejected (ErrorObj
                        (batchErrorMessage (fst w + 1) (snd w) t))).
Proof.
  induction fuel as [|fuel IH]; intros i agg log rq Hf.
  - cbn [GeminiService.batchLoop windowsFrom].
    destruct (Nat.ltb_spec i (List.length pdfDoc)); [lia|].
    exists 0, (Resolved agg). cbn [firstn flat_map List.length].
    rewrite app_nil_r. split; [reflexivity|]. split; [lia|].
    left. split; [reflexivity|now exists agg].
  - destruct (Nat.ltb_spec i (List.length pdfDoc)) as [Hlt|Hge].
    + rewrite (batchLoop_step Page saveAsBase64 copyError generateContent
                 keysTypeError fuel onProgress pdfDoc i agg log rq Hlt).
      cbv zeta. cbn [snd windowsFrom].
      destruct (Nat.ltb_spec i (List.length pdfDoc)) as [_|]; [|lia].
      set (w := (i, Nat.min (i + BATCH_SIZE) (List.length pdfDoc))).
      assert (Stop : forall t,
                exists k out,
                  Some (log ++ windowEvents Page saveAsBase64 onProgress pdfDoc w,
                        Rejected (ErrorObj
                          (batchErrorMessage (i + 1)
                             (Nat.min (i + BATCH_SIZE) (List.length pdfDoc)) t)))
                  = Some (log ++ flat_map
                                   (windowEvents Page saveAsBase64 onProgress pdfDoc)
                                   (firstn k
                                      (w :: windowsFrom fuel (List.length pdfDoc)
                                              (i + BATCH_SIZE))),
                          out)
                  /\ k <= List.length
                            (w :: windowsFrom fuel (List.length pdfDoc)
                                    (i + BATCH_SIZE))
                  /\ ((k = List.length
                             (w :: windowsFrom fuel (List.length pdfDoc)
                                     (i + BATCH_SIZE))
                       /\ exists agg', out = Resolved agg')
                      \/ exists w' t',
                           nth_error
                             (w :: windowsFrom fuel (List.length pdfDoc)
                                     (i + BATCH_SIZE)) (pred k) = Some w'
                           /\ 0 < k
                           /\ out = Rejected (ErrorObj
                                      (batchErrorMessage (fst w' + 1) (snd w') t')))).
      { intro t. exists 1. eexists. cbn [firstn flat_map]. rewrite app_nil_r.
        split; [reflexivity|]. split; [cbn [List.length]; lia|].
        right. exists w, t. split; [reflexivity|]. split; [lia|reflexivity]. }
      destruct (callGeminiWithRetry _) as [e|r]; [exact (Stop e)|].
      destruct (GeminiService.mergeBatch _ _ _ _ _) as [e|agg'];
        [exact (Stop e)|].
      destruct (IH (i + BATCH_SIZE) agg'
                   (log ++ windowEvents Page saveAsBase64 onProgress pdfDoc w)
                   (S rq)) as (k & out & E & Hk & Hout).
      { unfold BATCH_SIZE. lia. }
      exists (S k), out. rewrite E. cbn [firstn flat_map List.length pred].
      rewrite <- app_assoc. split; [reflexivity|]. split; [lia|].
      destruct Hout as [[-> Hres]|(w' & t' & Hn & Hpos & ->)].
      * left. split; [reflexivity|exact Hres].
      * right. exists w', t'. split; [|split; [lia|reflexivity]].
        destruct k as [|k]; [lia|]. exact Hn.
    + cbn [GeminiService.batchLoop windowsFrom].
      destruct (Nat.ltb_spec i (List.length pdfDoc)); [lia|].
      exists 0, (Resolved agg). cbn [firstn flat_map List.length].
      rewrite app_nil_r. split; [reflexivity|]. split; [lia|].
      left. split; [reflexivity|now exists agg].
Qed.

(** Every call of [processFile] settles, in one of four ways: without a
    key it rejects at once; with a key and a file pdf-lib cannot load it
    rejects before any request; otherwise it visits the windows in order
    and either resolves after the last one or rejects with the range of
    the window whose batch failed.  It never hands a page index outside
    the document to [copyPages]. *)
Theorem processFile_settles base64Data apiKey onProgress :
  exists log out,
    processFile Page load saveAsBase64 copyError generateContent keysTypeError
                base64Data apiKey onProgress
    = Some (log, out)
    /\ ((apiKey = [] /\ log = []
         /\ out = Rejected (ErrorObj noKeyMessage))
        \/ (apiKey <> [] /\ load base64Data = None /\ log = []
            /\ out = Rejected (ErrorObj loadFailedMessage))
        \/ exists pdfDoc k,
             apiKey <> [] /\ load base64Data = Some pdfDoc
             /\ k <= List.length (windows (List.length pdfDoc))
             /\ log = flat_map (windowEvents Page saveAsBase64 onProgress pdfDoc)
                        (firstn k (windows (List.length pdfDoc)))
             /\ ((k = List.length (windows (List.length pdfDoc))
                  /\ exists agg, out = Resolved agg)
                 \/ exists w t,
                      nth_error (windows (List.length pdfDoc)) (pred k) = Some w
                      /\ 0 < k
                      /\ out = Rejected (ErrorObj
                                 (batchErrorMessage (fst w + 1) (snd w) t)))).
Proof.
  unfold processFile. destruct apiKey as [|c apiKey'].
  - exists [], (Rejected (ErrorObj noKeyMessage)).
    split; [reflexivity|]. left. now repeat split.
  - destruct (load base64Data) as [pdfDoc|] eqn:L.
    + destruct (batchLoop_settles onProgress pdfDoc (List.length pdfDoc)
                  0 [] [] 0) as (k & out & E & Hk & Hout); [lia|].
      exists (flat_map (windowEvents Page saveAsBase64 onProgress pdfDoc)
                (firstn k (windows (List.length pdfDoc)))), out.
      split; [exact E|]. right. right. exists pdfDoc, k.
      split; [discriminate|]. split; [reflexivity|].
      split; [exact Hk|]. split; [reflexivity|exact Hout].
    + exists [], (Rejected (ErrorObj loadFailedMessage)).
      split; [reflexivity|]. right. left.
      split; [discriminate|]. now repeat split.
Qed.

End Settles.

(* ================================================================== *)
(** * Merging the batches *)

Section Merging.
Import JS GeminiService.
Local Open Scope nat_scope.

Lemma eqb_str_refl a : eqb_str a a = true.
Proof. unfold eqb_str. now destruct (list_eq_dec N.eq_dec a a). Qed.

Lemma eqb_str_eq a b : eqb_str a b = true -> a = b.
Proof. unfold eqb_str. now destruct (list_eq_dec N.eq_dec a b). Qed.

Lemma eqb_str_sym a b : eqb_str a b = eqb_str b a.
Proof.
  unfold eqb_str.
  destruct (list_eq_dec N.eq_dec a b), (list_eq_dec N.eq_dec b a);
    congruence.
Qed.

Lemma lookup_replaceProp k k' v o :
  lookup k o <> None ->
  lookup k' (replaceProp k v o)
  = if eqb_str k' k then Some v else lookup k' o.
Proof.
  induction o as [|[k0 v0] o IH]; intro H; [now contradiction H|].
  cbn [lookup replaceProp] in *.
  destruct (eqb_str k k0) eqn:E.
  - apply eqb_str_eq in E. subst k0. cbn [lookup].
    destruct (eqb_str k' k); reflexivity.
  - cbn [lookup]. rewrite (IH H).
    destruct (eqb_str k' k0) eqn:E0; [|reflexivity].
    apply eqb_str_eq in E0. subst k0.
    now rewrite eqb_str_sym, E.
Qed.

Lemma lookup_insertIndex n k k' v o :
  lookup k o = None ->
  lookup k' (insertIndex n k v o)
  = if eqb_str k' k then Some v else lookup k' o.
Proof.
  induction o as [|[k0 v0] o IH]; intro H; [reflexivity|].
  cbn [lookup insertIndex] in *.
  destruct (eqb_str k k0) eqn:E; [discriminate H|].
  assert (K : lookup k' ((k, v) :: (k0, v0) :: o)
              = if eqb_str k' k then Some v
                else if eqb_str k' k0 then Some v0 else lookup k' o)
    by reflexivity.
  destruct (arrayIndex k0) as [n'|]; [|exact K].
  destruct (n' <? n)%N; [|exact K].
  cbn [lookup]. rewrite (IH H).
  destruct (eqb_str k' k0) eqn:E0; [|reflexivity].
  apply eqb_str_eq in E0. subst k0.
  now rewrite eqb_str_sym, E.
Qed.

Lemma lookup_snoc k k' v o :
  lookup k' (o ++ [(k, v)])
  = match lookup k' o with
    | Some x => Some x
    | None => if eqb_str k' k then Some v else None
    end.
Proof.
  induction o as [|[k0 v0] o IH]; cbn [app lookup]; [reflexivity|].
  destruct (eqb_str k' k0); [reflexivity|exact IH].
Qed.

(** Reading a property after an assignment: the assigned key has the new
    value, every other key is as before. *)
Lemma lookup_obj_set k k' v o :
  lookup k' (obj_set k v o) = if eqb_str k' k then Some v else lookup k' o.
Proof.
  unfold obj_set. destruct (lookup k o) as [x|] eqn:L.
  - apply lookup_replaceProp. congruence.
  - destruct (arrayIndex k) as [n|].
    + now apply lookup_insertIndex.
    + rewrite lookup_snoc.
      destruct (eqb_str k' k) eqn:E.
      * apply eqb_str_eq in E. subst k'. now rewrite L.
      * destruct (lookup k' o); reflexivity.
Qed.

Lemma lookup_fold (f : jsstring -> jsstring) (g : jsstring -> value) keys :
  forall agg key,
  lookup key (fold_left (fun a lk => obj_set (f lk) (g lk) a) keys agg)
  = match find (fun lk => eqb_str key (f lk)) (List.rev keys) with
    | Some lk => Some (g lk)
    | None => lookup key agg
    end.
Proof.
  induction keys as [|x keys IH] using rev_ind; intros agg key;
    [reflexivity|].
  rewrite fold_left_app, rev_app_distr. cbn [fold_left List.rev app find].
  rewrite lookup_obj_set.
  destruct (eqb_str key (f x)); [reflexivity|apply IH].
Qed.

Section Batch.
Variable keysTypeError : jsstring.

(** After the result of a batch is merged, a key of the aggregated map
    holds the value of the last local key that is renumbered to it, and a
    key no local key is renumbered to holds what it held before: of two
    local keys with the same global key the first is silently
    overwritten, and nothing else is lost. *)
Theorem mergeBatch_last_wins i startPage batchResult keys agg :
  Object_keys batchResult = Some keys ->
  exists agg',
    mergeBatch keysTypeError i startPage batchResult agg = inr agg'
    /\ forall key,
         lookup key agg'
         = match find (fun localKey =>
                         eqb_str key (globalKey i startPage localKey))
                      (List.rev keys) with
           | Some localKey => Some (getProp batchResult localKey)
           | None => lookup key agg
           end.
Proof.
  intro H. unfold mergeBatch. rewrite H. eexists. split; [reflexivity|].
  intro key.
  apply (lookup_fold (globalKey i startPage) (getProp batchResult)).
Qed.

End Batch.

End Merging.

Lemma mergeBatch_last_wins_witness :
  exists agg',
    GeminiService.mergeBatch Sample.typeErrorMessage 3 4
      (JS.VObj [(JS.lit "1", JS.VStr (JS.lit "a"));
                (JS.lit "Page 01", JS.VStr (JS.lit "b"))])
      [(JS.lit "2", JS.VNull)]
    = inr agg'
    /\ JS.lookup (JS.lit "4") agg' = Some (JS.VStr (JS.lit "b"))
    /\ JS.lookup (JS.lit "2") agg' = Some JS.VNull.
Proof.
  destruct (mergeBatch_last_wins Sample.typeErrorMessage 3 4
              (JS.VObj [(JS.lit "1", JS.VStr (JS.lit "a"));
                        (JS.lit "Page 01", JS.VStr (JS.lit "b"))])
              [JS.lit "1"; JS.lit "Page 01"] [(JS.lit "2", JS.VNull)] eq_refl)
    as (agg' & E & L).
  exists agg'. split; [exact E|].
  split; [exact (L (JS.lit "4"))|exact (L (JS.lit "2"))].
Defined.

(* ================================================================== *)
(** * The pages of a run whose batches are labelled 1, 2, 3 *)

Section Decimal.
Import JS.
Local Open Scope N_scope.

Lemma digitsValue_acc ds :
  forall acc,
  fold_left (fun a c => 10 * a + (c - 48)) ds acc
  = acc * 10 ^ N.of_nat (List.length ds) + digitsValue ds.
Proof.
  unfold digitsValue.
  induction ds as [|c ds IH]; intro acc; cbn [fold_left List.length].
  - change (N.of_nat 0) with 0. rewrite N.pow_0_r. lia.
  - rewrite (IH (10 * acc + (c - 48))), (IH (10 * 0 + (c - 48))).
    rewrite Nat2N.inj_succ, N.pow_succ_r'. lia.
Qed.

Lemma digitsValue_cons c ds :
  digitsValue (c :: ds)
  = (c - 48) * 10 ^ N.of_nat (List.length ds) + digitsValue ds.
Proof.
  unfold digitsValue at 1. cbn [fold_left]. rewrite digitsValue_acc. lia.
Qed.

Lemma usize_units d :
  DecimalPos.Unsigned.usize d = N.of_nat (List.length (uint_units d)).
Proof.
  induction d; cbn [DecimalPos.Unsigned.usize uint_units List.length];
    rewrite ?Nat2N.inj_succ, ?IHd; reflexivity.
Qed.

Lemma digitsValue_units d : digitsValue (uint_units d) = N.of_uint d.
Proof.
  unfold N.of_uint. rewrite DecimalPos.Unsigned.of_uint_alt.
  induction d; [reflexivity| ..];
    cbn [uint_units]; rewrite digitsValue_cons;
    unfold Decimal.rev at 1; cbn [Decimal.revapp];
    rewrite DecimalPos.Unsigned.of_lu_revapp, IHd, <- usize_units;
    cbn [DecimalPos.Unsigned.of_lu]; lia.
Qed.

(** The decimal text of a number reads back as the number. *)
Lemma digitsValue_decimal n : digitsValue (decimal n) = n.
Proof.
  unfold decimal. rewrite digitsValue_units. apply DecimalN.Unsigned.of_to.
Qed.

Lemma decimal_inj a b : decimal a = decimal b -> a = b.
Proof.
  intro H. rewrite <- (digitsValue_decimal a), <- (digitsValue_decimal b).
  now rewrite H.
Qed.

(** It has no leading zero, except for zero itself. *)
Lemma decimal_canonical n :
  exists c r, decimal n = c :: r /\ (c <> 48 \/ r = []).
Proof.
  destruct n as [|p]; [exists 48, []; split; [reflexivity|now right]|].
  unfold decimal.
  assert (E : N.to_uint (N.pos p) = Decimal.unorm (Pos.to_uint p)).
  { rewrite <- DecimalPos.Unsigned.to_of.
    now rewrite DecimalPos.Unsigned.of_to. }
  rewrite E. unfold Decimal.unorm.
  pose proof (DecimalFacts.nzhead_nonzero (Pos.to_uint p)) as NZ.
  destruct (Decimal.nzhead (Pos.to_uint p)) as [|d|d|d|d|d|d|d|d|d|d] eqn:Z;
    [exists 48, []; split; [reflexivity|now right]
    |now contradiction (NZ d)
    |eexists; eexists; (split; [reflexivity|left; discriminate]) ..].
Qed.

Lemma arrayIndex_decimal n :
  arrayIndex (decimal n) = if n <? 4294967295 then Some n else None.
Proof.
  destruct (decimal_canonical n) as (c & r & E & C).
  pose proof (decimal_digits n) as D. pose proof (digitsValue_decimal n) as V.
  rewrite E in D, V.
  assert (K : negb (c =? 48) || match r with [] => true | _ :: _ => false end
              = true).
  { destruct C as [C | ->]; [|apply orb_true_r].
    destruct (N.eqb_spec c 48); [contradiction|reflexivity]. }
  unfold arrayIndex. rewrite E, D, K, V. reflexivity.
Qed.

(** Page numbers are enumerated in ascending order. *)
Lemma keyBefore_decimal a b :
  a < b -> PageData.keyBefore (decimal a) (decimal b).
Proof.
  intro H. split.
  - intro E. apply decimal_inj in E. lia.
  - rewrite !arrayIndex_decimal.
    destruct (N.ltb_spec a 4294967295), (N.ltb_spec b 4294967295);
      try exact I; lia.
Qed.

End Decimal.

Section Labelled.
Import JS GeminiService.
Local Open Scope nat_scope.

Variable Page : Type.
Variable load : jsstring -> option (list Page).
Variable saveAsBase64 : list Page -> jsstring.
Variable copyError : thrown.
Variable generateContent : nat -> jsstring -> response.
Variable keysTypeError : jsstring.

(** What the pages hold, by 1-based page number. *)
Variable page : nat -> value.

Abbreviation entries n := (map (fun p => (nat_decimal p, page p)) (seq 1 n)).

Lemma entries_snoc n :
  entries (n + 1) = entries n ++ [(nat_decimal (n + 1), page (n + 1))].
Proof.
  rewrite Nat.add_1_r, seq_S, map_app. reflexivity.
Qed.

Lemma entries_before n :
  Forall (fun kv => PageData.keyBefore (fst kv) (nat_decimal (n + 1)))
         (entries n).
Proof.
  rewrite Forall_map. cbn [fst]. rewrite Forall_forall. intros p Hp.
  apply in_seq in Hp. apply keyBefore_decimal. lia.
Qed.

Section OneBatch.

(** The local key of the [q]-th page of a batch: any text whose digits
    read [q]. *)
Variable key : nat -> jsstring.
Hypothesis key_reads : forall q, digitsValue (stripNonDigits (key q)) = N.of_nat q.

Lemma key_inj a b : key a = key b -> a = b.
Proof.
  intro E. apply Nat2N.inj. now rewrite <- !key_reads, E.
Qed.

Lemma lookup_key (f : nat -> value) l q :
  In q l -> lookup (key q) (map (fun x => (key x, f x)) l) = Some (f q).
Proof.
  induction l as [|x l IH]; intro H; [contradiction|].
  cbn [map lookup]. destruct (eqb_str (key q) (key x)) eqn:E.
  - apply eqb_str_eq, key_inj in E. now subst.
  - destruct H as [-> | H]; [now rewrite eqb_str_refl in E|now apply IH].
Qed.

Lemma globalKey_key i q :
  0 < q -> globalKey i (i + 1) (key q) = nat_decimal (i + q).
Proof.
  intro Hq. rewrite globalKey_numeric.
  - rewrite key_reads. unfold nat_decimal. f_equal. lia.
  - destruct (existsb isDigit (key q)) eqn:E; [reflexivity|].
    apply stripNonDigits_nil in E. pose proof (key_reads q) as K.
    rewrite E in K. cbn in K. lia.
Qed.

(** Merging a batch of [m] pages labelled 1 to [m] after [i] pages adds
    the pages [i + 1] to [i + m]. *)
Lemma mergeBatch_labelled i m :
  mergeBatch keysTypeError i (i + 1)
    (VObj (map (fun q => (key q, page (i + q))) (seq 1 m))) (entries i)
  = inr (entries (i + m)).
Proof.
  unfold mergeBatch. cbn [Object_keys]. rewrite map_map. cbn [fst]. f_equal.
  set (o := map (fun q => (key q, page (i + q))) (seq 1 m)).
  assert (G : forall r d,
             d + r = m ->
             fold_left
               (fun agg localKey =>
                  obj_set (globalKey i (i + 1) localKey)
                          (getProp (VObj o) localKey) agg)
               (map key (seq (1 + d) r)) (entries (i + d))
             = entries (i + m)).
  { induction r as [|r IH]; intros d Hd.
    - cbn [seq map fold_left]. f_equal. f_equal. lia.
    - cbn [seq map fold_left].
      rewrite (globalKey_key i (1 + d)) by lia.
      assert (V : getProp (VObj o) (key (1 + d)) = page (i + (1 + d))).
      { cbn [getProp]. unfold o.
        rewrite (lookup_key (fun q => page (i + q))); [reflexivity|].
        apply in_seq. lia. }
      rewrite V.
      replace (i + (1 + d)) with (i + d + 1) by lia.
      rewrite obj_set_new by apply entries_before.
      rewrite <- entries_snoc.
      replace (i + d + 1) with (i + S d) by lia.
      change (S (1 + d)) with (1 + S d).
      apply IH. lia. }
  specialize (G m 0 (Nat.add_0_l m)). rewrite (Nat.add_0_r i) in G. exact G.
Qed.

End OneBatch.

Section LabelledRun.

Variable pdfDoc : list Page.

(** Every batch answers with an object whose keys, in order, are texts
    whose digits read 1, 2, 3 and whose values are the pages of its
    window. *)
Hypothesis labelled :
  forall j,
  3 * j < List.length pdfDoc ->
  exists key : nat -> jsstring,
    (forall q, digitsValue (stripNonDigits (key q)) = N.of_nat q)
    /\ callGeminiWithRetry
         (generateContent j (subDocument Page saveAsBase64 pdfDoc (3 * j)))
       = inr (VObj (map (fun q => (key q, page (3 * j + q)))
                        (seq 1 (Nat.min (3 * j + 3) (List.length pdfDoc)
                                - 3 * j)))).

Lemma batchLoop_labelled onProgress fuel :
  forall j log,
  List.length pdfDoc - 3 * j <= fuel ->
  exists log',
    batchLoop Page saveAsBase64 copyError generateContent keysTypeError
      fuel onProgress pdfDoc (List.length pdfDoc) (3 * j)
      (entries (Nat.min (3 * j) (List.length pdfDoc))) log j
    = Some (log', Resolved (entries (List.length pdfDoc))).
Proof.
  induction fuel as [|fuel IH]; intros j log Hf.
  - cbn [GeminiService.batchLoop].
    destruct (Nat.ltb_spec (3 * j) (List.length pdfDoc)); [lia|].
    exists log. now rewrite Nat.min_r by lia.
  - destruct (Nat.ltb_spec (3 * j) (List.length pdfDoc)) as [Hlt|Hge].
    + rewrite (batchLoop_step Page saveAsBase64 copyError generateContent
                 keysTypeError fuel onProgress pdfDoc (3 * j) _ log j Hlt).
      cbv zeta. cbn [snd].
      destruct (labelled j Hlt) as (key & Hkey & ->).
      rewrite (Nat.min_l (3 * j) (List.length pdfDoc)) by lia.
      rewrite (mergeBatch_labelled key Hkey (3 * j)).
      replace (3 * j + (Nat.min (3 * j + 3) (List.length pdfDoc) - 3 * j))
        with (Nat.min (3 * S j) (List.length pdfDoc)) by lia.
      replace (3 * j + BATCH_SIZE) with (3 * S j) by (unfold BATCH_SIZE; lia).
      apply IH. lia.
    + cbn [GeminiService.batchLoop].
      destruct (Nat.ltb_spec (3 * j) (List.length pdfDoc)); [lia|].
      exists log. now rewrite Nat.min_r by lia.
Qed.

End LabelledRun.

(** When every batch answers with an object whose keys, in order, are
    texts whose digits read 1, 2, 3 (such as 1 or Page 1) for the pages
    of its window, the run resolves with the map that holds page [p]
    under the decimal text of [p], for [p] from 1 to the number of pages,
    in this order.  The bound is the range on which JavaScript numbers
    are exact. *)
Theorem labelled_batches_renumbered base64Data apiKey onProgress pdfDoc :
  apiKey <> [] ->
  load base64Data = Some pdfDoc ->
  (Z.of_nat (List.length pdfDoc) < 2 ^ 53)%Z ->
  (forall j,
     3 * j < List.length pdfDoc ->
     exists key : nat -> jsstring,
       (forall q, digitsValue (stripNonDigits (key q)) = N.of_nat q)
       /\ callGeminiWithRetry
            (generateContent j (subDocument Page saveAsBase64 pdfDoc (3 * j)))
          = inr (VObj (map (fun q => (key q, page (3 * j + q)))
                           (seq 1 (Nat.min (3 * j + 3) (List.length pdfDoc)
                                   - 3 * j))))) ->
  exists log,
    processFile Page load saveAsBase64 copyError generateContent keysTypeError
                base64Data apiKey onProgress
    = Some (log, Resolved (entries (List.length pdfDoc))).
Proof.
  intros Hkey Hload _ H. unfold processFile.
  destruct apiKey; [congruence|]. rewrite Hload.
  exact (batchLoop_labelled pdfDoc H onProgress (List.length pdfDoc) 0 []
           (Nat.le_sub_l _ _)).
Qed.

End Labelled.

Lemma labelled_batches_renumbered_witness :
  exists log,
    GeminiService.processFile nat Sample.load Sample.saveAsBase64
      GeminiService.NonError Sample.labelling Sample.typeErrorMessage
      (JS.lit "pdf") (JS.lit "key") true
    = Some (log,
            GeminiService.Resolved
              (map (fun p => (GeminiService.nat_decimal p,
                              JS.VArr [JS.VArr [JS.VStr (JS.lit "p")]]))
                   (seq 1 5))).
Proof.
  apply (labelled_batches_renumbered nat Sample.load Sample.saveAsBase64
           GeminiService.NonError Sample.labelling Sample.typeErrorMessage
           (fun _ => JS.VArr [JS.VArr [JS.VStr (JS.lit "p")]])
           (JS.lit "pdf") (JS.lit "key") true Sample.fivePages).
  - discriminate.
  - reflexivity.
  - reflexivity.
  - intros j Hj. exists GeminiService.nat_decimal. split.
    + intro q. unfold GeminiService.nat_decimal, JS.stripNonDigits.
      rewrite (forallb_filter_id _ _ (decimal_digits _)).
      apply digitsValue_decimal.
    + destruct j as [|[|j]]; [reflexivity|reflexivity|].
      simpl in Hj. lia.
Defined.

(* ================================================================== *)
(** * A response that is a JSON text *)

Section ValidText.
Import JS PageData GeminiService.
Local Open Scope nat_scope.

(** White space the lexer accepts between tokens is JSON white space. *)
Lemma lexRun_blank ws toks l :
  forallb isSpace ws = true ->
  lexRun (toks, LStart) ws = Some l ->
  forallb isJsonWs ws = true /\ l = (toks, LStart).
Proof.
  intros Hws H.
  destruct (tokenize_first ws toks l H)
    as [S|(w & c & r & -> & _ & Hc & _)]; [exact S|].
  rewrite forallb_app in Hws. apply andb_true_iff in Hws.
  destruct Hws as [_ Hws]. cbn [forallb] in Hws. rewrite Hc in Hws.
  discriminate Hws.
Qed.

(** White space at the end of a text the lexer accepts is JSON white
    space. *)
Lemma trailing_blank_json W toks st l ts :
  wfLex st = true -> forallb isSpace W = true ->
  lexRun (toks, st) W = Some l -> lexFinish l = Some ts ->
  forallb isJsonWs W = true.
Proof.
  intros Wf HW E F.
  destruct (last_cases W) as [-> | (W' & c & ->)]; [reflexivity|].
  pose proof E as E0. rewrite lexRun_app in E0.
  destruct (lexRun (toks, st) W') as [[t1 s1]|] eqn:E1; [|discriminate].
  destruct (lexRun_tokens W' toks st t1 s1 Wf E1) as [W1 _].
  cbn [lexRun] in E0.
  destruct (lexStep (t1, s1) c) as [[t2 s2]|] eqn:E2; [|discriminate].
  inversion E0; subst l.
  pose proof HW as HW'. rewrite forallb_app in HW'.
  apply andb_true_iff in HW'. destruct HW' as [_ Hc]. cbn [forallb] in Hc.
  rewrite andb_true_r in Hc.
  destruct (lexStep_space t1 s1 c t2 s2 W1 Hc E2) as [[_ ->]|I].
  - exact (spaces_to_start _ toks st t2 Wf HW E).
  - destruct s2; discriminate I || discriminate F.
Qed.

(** A text [JSON.parse] accepts, whose first character after the leading
    white space is an opening brace and which holds no line separator
    U+2028 and no paragraph separator U+2029, goes through lines 157-163
    unchanged but for the white space around it, and the response parser
    gives what [JSON.parse] gives for it: the white space between the
    tokens of an indented text, and two slashes inside a string, do no
    harm. *)
Theorem valid_object_text_parses ws R v :
  forallb isSpace ws = true ->
  noSeparator (ws ++ 123%N :: R) = true ->
  JSON_parse (ws ++ 123%N :: R) = Some v ->
  parseResponse (ws ++ 123%N :: R) = inr v.
Proof.
  intros Hws Hs Hv.
  pose proof Hv as Hv0. unfold JSON_parse, tokenize in Hv0.
  rewrite lexRun_app in Hv0.
  destruct (lexRun ([], LStart) ws) as [l0|] eqn:E0; [|discriminate].
  destruct (lexRun_blank ws [] l0 Hws E0) as [Jws ->].
  destruct (trimEnd_rest (123%N :: R)) as (W & HR & HW & Hlast).
  destruct Hlast as [Hnil | (x & z & Hx & Hz)].
  { destruct (trimEnd_cons 123%N R eq_refl) as [r' E]. congruence. }
  destruct x as [|a B].
  { cbn [app] in Hx. rewrite Hx in HR. rewrite HR in Hv.
    rewrite (JSON_parse_ws ws _ Jws) in Hv.
    assert (z = 123%N) as -> by (cbn [app] in HR; congruence).
    exfalso. revert Hv. clear - HW.
    unfold JSON_parse, tokenize. cbn [app lexRun lexStep].
    change (startStep [] 123%N) with (Some ([TLBrace], LStart)). cbv iota.
    destruct (lexRun ([TLBrace], LStart) W) as [l|] eqn:E; [|discriminate].
    destruct (lexRun_blank W [TLBrace] l HW E) as [_ ->].
    discriminate. }
  assert (a = 123%N) as ->.
  { rewrite Hx in HR. cbn [app] in HR. congruence. }
  rewrite Hx in HR.
  destruct (lexRun ([], LStart) (123%N :: R)) as [l|] eqn:EL; [|discriminate].
  destruct (lexFinish l) as [ts|] eqn:EF; [|discriminate].
  assert (JW : forallb isJsonWs W = true).
  { rewrite HR, lexRun_app in EL.
    destruct (lexRun ([], LStart) ((123%N :: B) ++ [z])) as [[t1 s1]|] eqn:E1;
      [|discriminate].
    destruct (lexRun_tokens _ [] LStart t1 s1 eq_refl E1) as [W1 _].
    exact (trailing_blank_json W t1 s1 l ts W1 HW EL EF). }
  assert (J : JSON_parse ((123%N :: B) ++ [z]) = Some v).
  { rewrite <- Hv, HR, (JSON_parse_ws ws _ Jws).
    symmetry. now apply JSON_parse_trailing. }
  assert (T : trim (ws ++ 123%N :: R) = (123%N :: B) ++ [z]).
  { unfold trim. rewrite trimStart_spaces by exact Hws.
    rewrite trimStart_nonspace by reflexivity. exact Hx. }
  assert (T2 : trim (123%N :: B ++ [z]) = 123%N :: B ++ [z]).
  { unfold trim. rewrite trimStart_nonspace by reflexivity.
    change (123%N :: B ++ [z]) with ((123%N :: B) ++ [z]).
    now apply trimEnd_nonspace. }
  unfold parseResponse. rewrite T. cbn [app]. rewrite <- T2.
  pose proof J as J0. unfold JSON_parse, tokenize in J0. cbn [app] in J0.
  destruct (lexRun ([], LStart) (123%N :: B ++ [z])) as [l1|] eqn:E1;
    [|discriminate].
  rewrite (pipeline_identity B z l1 Hz); [| |exact E1].
  - unfold decode. cbn [app] in J. now rewrite J.
  - rewrite HR in Hs. unfold noSeparator in *.
    rewrite !forallb_app in Hs. apply andb_true_iff in Hs.
    destruct Hs as [_ Hs]. apply andb_true_iff in Hs. destruct Hs as [Hs _].
    change (123%N :: B ++ [z]) with ((123%N :: B) ++ [z]).
    rewrite forallb_app. exact Hs.
Qed.

End ValidText.

Lemma valid_object_text_parses_witness :
  GeminiService.parseResponse ([32; 10] ++ 123 :: JS.jsonLit " '1': [" ++ [10]
                                 ++ JS.jsonLit "  ['http://a', '']" ++ [13; 10]
                                 ++ JS.jsonLit "] } " ++ [10])
  = inr (JS.VObj [(JS.lit "1",
                   JS.VArr [JS.VArr [JS.VStr (JS.lit "http://a"); JS.VStr []]])]).
Proof.
  apply (valid_object_text_parses [32; 10]
           (JS.jsonLit " '1': [" ++ [10] ++ JS.jsonLit "  ['http://a', '']"
              ++ [13; 10] ++ JS.jsonLit "] } " ++ [10]));
    reflexivity.
Defined.

(* ================================================================== *)
(** * What the repair can return *)

Section RepairResult.
Import JS PageData GeminiService Facts.
Local Open Scope nat_scope.

Lemma startStep_letters toks c toks' st' :
  startStep toks c = Some (toks', st') -> letterLex st' = true.
Proof.
  unfold startStep, emit. intro H.
  repeat match type of H with
         | (if ?b then _ else _) = _ =>
             destruct b; [inversion H; subst; reflexivity|]
         end.
  discriminate.
Qed.

Lemma lexStep_letters toks st c toks' st' :
  letterLex st = true ->
  lexStep (toks, st) c = Some (toks', st') -> letterLex st' = true.
Proof.
  intros L H. unfold lexStep in H.
  destruct st as [|acc|acc|acc todo code|nst lexeme|rest tok].
  - exact (startStep_letters _ _ _ _ H).
  - unfold emit in H.
    repeat match type of H with
           | (if ?b then _ else _) = _ =>
               destruct b; [inversion H; subst; reflexivity|]
           end.
    inversion H; subst; reflexivity || discriminate.
  - destruct (c =? 117)%N; [inversion H; subst; reflexivity|].
    destruct (escapeChar c); [inversion H; subst; reflexivity|discriminate].
  - destruct (isHexDigit c); [|discriminate].
    destruct todo as [|[|n]]; inversion H; subst; reflexivity.
  - destruct (numStep nst c) as [[nst'|]|];
      [inversion H; subst; reflexivity| |discriminate].
    exact (startStep_letters _ _ _ _ H).
  - destruct rest as [|x r]; [discriminate|].
    destruct (c =? x)%N; [|discriminate].
    cbn [letterLex forallb] in L. apply andb_true_iff in L.
    destruct L as [_ L].
    destruct r as [|y r]; [unfold emit in H|]; inversion H; subst;
      [reflexivity|exact L].
Qed.

Lemma lexRun_letters s :
  forall toks st toks' st',
  letterLex st = true ->
  lexRun (toks, st) s = Some (toks', st') -> letterLex st' = true.
Proof.
  induction s as [|c s IH]; intros toks st toks' st' L H.
  - simpl in H. inversion H; now subst.
  - cbn [lexRun] in H.
    destruct (lexStep (toks, st) c) as [[t1 s1]|] eqn:E; [|discriminate].
    exact (IH _ _ _ _ (lexStep_letters _ _ _ _ _ L E) H).
Qed.

(** The last token of a text that ends with a closing brace is the
    closing brace. *)
Lemma tokenize_last_brace s ts :
  tokenize (s ++ [125%N]) = Some ts -> exists ts', ts = ts' ++ [TRBrace].
Proof.
  unfold tokenize. rewrite lexRun_app.
  destruct (lexRun ([], LStart) s) as [[t1 s1]|] eqn:E; [|discriminate].
  pose proof (lexRun_letters s [] LStart t1 s1 eq_refl E) as L.
  cbn [lexRun]. unfold lexStep.
  destruct s1 as [|acc|acc|acc todo code|nst lexeme|rest tok];
    try discriminate.
  - cbn. intro H. inversion H. now exists t1.
  - destruct nst; cbn; try discriminate;
      intro H; inversion H; eexists; reflexivity.
  - destruct rest as [|x r]; [discriminate|].
    cbn [letterLex forallb] in L. apply andb_true_iff in L.
    destruct L as [L _]. apply andb_true_iff in L. destruct L as [_ L].
    apply N.leb_le in L.
    destruct (N.eqb_spec 125 x) as [<- | _]; [lia|discriminate].
Qed.

(** The value of a token stream that ends with a closing brace is an
    object. *)
Lemma parseTokens_last_brace ts v :
  parseTokens (ts ++ [TRBrace]) = Some v -> exists o, v = VObj o.
Proof.
  unfold parseTokens. rewrite parseRun_app.
  destruct (parseRun ([], EValue) ts) as [[stack e]|]; [|discriminate].
  cbn [parseRun].
  assert (K : forall p, closeObject stack = Some p ->
                        match p with
                        | ([], EEnd v') => exists o, v' = VObj o
                        | _ => True
                        end).
  { intros p H. unfold closeObject in H.
    destruct stack as [|[items|o|o k] st]; try discriminate.
    destruct st as [|[items|o'|o' k] st]; cbn [deliver] in H;
      inversion H; subst; try exact I. now exists o. }
  intro H.
  destruct (parseStep (stack, e) TRBrace) as [p|] eqn:E; [|discriminate].
  assert (C : closeObject stack = Some p).
  { destruct e; cbn [parseStep valueStep] in E; try discriminate; exact E. }
  specialize (K p C). destruct p as [[|f st] [| | | | | |v']]; try discriminate.
  inversion H; subst. exact K.
Qed.

Lemma JSON_parse_brace s v :
  JSON_parse (s ++ [125%N]) = Some v -> exists o, v = VObj o.
Proof.
  unfold JSON_parse. intro H.
  destruct (tokenize (s ++ [125%N])) as [ts|] eqn:E; [|discriminate].
  destruct (tokenize_last_brace s ts E) as [ts' ->].
  exact (parseTokens_last_brace ts' v H).
Qed.

Lemma tryParse_object fixedStr v :
  tryParse fixedStr candidates = Some v -> exists o, v = VObj o.
Proof.
  unfold tryParse, candidates.
  change (lit "}}") with ([125%N] ++ [125%N]).
  change (lit "]}") with ([93%N] ++ [125%N]).
  change (lit "]]}") with ([93%N; 93%N] ++ [125%N]).
  cbn [fold_right]. rewrite !app_assoc.
  repeat match goal with
         | |- match JSON_parse (?x ++ [125%N]) with _ => _ end = _ -> _ =>
             let J := fresh "J" in
             destruct (JSON_parse (x ++ [125%N])) as [w|] eqn:J;
               [intro H; inversion H; subst; exact (JSON_parse_brace _ _ J)|]
         end.
  discriminate.
Qed.

Lemma tryRepairJson_object s v :
  tryRepairJson s = Some v -> exists o, v = VObj o.
Proof.
  unfold tryRepairJson.
  destruct (lastIndexOf (lit "],") s) as [n|].
  - apply tryParse_object.
  - destruct (lastIndexOf (lit "]") s) as [n|]; cbn [option_map];
      [apply tryParse_object|discriminate].
Qed.

Lemma lastIndexOf_includes q s n :
  lastIndexOf (93%N :: q) s = Some n -> includes [93%N] s = true.
Proof.
  intro H. destruct (lastIndexOf_bracket q s n H) as (X & rest & -> & _).
  rewrite <- app_assoc. exact (includes_app [93%N] X rest).
Qed.

(** Lines 165-172 end in one of three ways: with the value [JSON.parse]
    reads from the text; or, when [JSON.parse] rejects the text, which
    then holds a closing bracket, with an object [tryRepairJson] rebuilt;
    or with the error of line 171, when both fail.  What [tryRepairJson]
    returns is an object or [null], so the test of line 170 never turns a
    repaired value into the error. *)
Theorem decode_outcomes s :
  match decode s with
  | inr v =>
      JSON_parse s = Some v
      \/ (JSON_parse s = None /\ tryRepairJson s = Some v
          /\ includes [93%N] s = true /\ exists o, v = VObj o)
  | inl e =>
      e = ErrorObj truncatedMessage
      /\ JSON_parse s = None /\ tryRepairJson s = None
  end.
Proof.
  unfold decode. destruct (JSON_parse s) as [v|]; [now left|].
  destruct (tryRepairJson s) as [v|] eqn:E; [|now repeat split].
  destruct (tryRepairJson_object s v E) as [o ->]. cbn [truthy].
  right. split; [reflexivity|]. split; [reflexivity|].
  split; [|now exists o].
  unfold tryRepairJson in E.
  destruct (lastIndexOf (lit "],") s) as [n|] eqn:L1.
  - exact (lastIndexOf_includes _ s n L1).
  - destruct (lastIndexOf (lit "]") s) as [n|] eqn:L2; [|discriminate].
    exact (lastIndexOf_includes _ s n L2).
Qed.

End RepairResult.

(* ================================================================== *)
(** * What the comment pattern leaves *)

Section CommentsRemoved.
Import JS GeminiService Facts.
Local Open Scope nat_scope.

Lemma noCommentLine_nil : noCommentLine [].
Proof. intros [|c p] t q H; discriminate H. Qed.

Lemma noCommentLine_cons c s :
  (isLineTerminator c = true -> commentStart s = false) ->
  noCommentLine s -> noCommentLine (c :: s).
Proof.
  intros Hc Hs [|c' p] t q E Ht; cbn [app] in E; inversion E; subst.
  - now apply Hc.
  - exact (Hs p t q eq_refl Ht).
Qed.

(** While copying away from a line start the first character is
    copied. *)
Lemma commentStart_copy c r :
  isSpace c = false ->
  commentStart (c :: commentScan (Copying false) r) = commentStart (c :: r).
Proof.
  intro Hc. cbn [commentStart]. rewrite Hc. destruct r; reflexivity.
Qed.

(** The output of the scan, from every mode: no match starts at one of
    its line starts, and none at its head, when the scan started at a
    line start, inside a match, or on a text at whose head none starts. *)
Lemma commentScan_clean s :
  forall m,
  noCommentLine (commentScan m s)
  /\ (match m with
      | Copying false => commentStart s = false
      | _ => True
      end -> commentStart (commentScan m s) = false).
Proof.
  induction s as [|c s IH]; intro m.
  - cbn [commentScan]. split; [apply noCommentLine_nil|reflexivity].
  - assert (LT : isLineTerminator c = true -> isSpace c = true)
      by apply isLineTerminator_space.
    assert (Keep : forall b,
              (b = true \/ commentStart (c :: s) = false) ->
              b && commentStart (c :: s) = false ->
              noCommentLine (c :: commentScan (Copying (isLineTerminator c)) s)
              /\ commentStart (c :: commentScan (Copying (isLineTerminator c)) s)
                 = false).
    { intros b Hb B.
      assert (C : commentStart (c :: s) = false).
      { destruct Hb as [-> | Hb]; [exact B|exact Hb]. }
      destruct (IH (Copying (isLineTerminator c))) as [I1 I2].
      split.
      - apply noCommentLine_cons; [|exact I1].
        intro L. rewrite L in I2 |- *. now apply I2.
      - destruct (isLineTerminator c) eqn:L.
        + cbn [commentStart]. rewrite (LT eq_refl). now apply I2.
        + destruct (isSpace c) eqn:Sp.
          * cbn [commentStart] in *. rewrite Sp in *. now apply I2.
          * now rewrite commentStart_copy. }
    destruct m as [b| |]; cbn [commentScan].
    + destruct (b && commentStart (c :: s)) eqn:B.
      * destruct (IH (if isSpace c then InIndent else InComment)) as [I1 I2].
        split; [exact I1|]. intros _. apply I2. now destruct (isSpace c).
      * destruct b.
        -- destruct (Keep true (or_introl eq_refl) B) as [K1 K2].
           split; [exact K1|intros _; exact K2].
        -- split.
           ++ destruct (IH (Copying (isLineTerminator c))) as [I1 I2].
              apply noCommentLine_cons; [|exact I1].
              intro L. rewrite L in I2 |- *. now apply I2.
           ++ intro C. exact (proj2 (Keep false (or_intror C) eq_refl)).
    + destruct (IH (if isSpace c then InIndent else InComment)) as [I1 I2].
      split; [exact I1|]. intros _. apply I2. now destruct (isSpace c).
    + destruct (isLineTerminator c) eqn:L.
      * destruct (IH (Copying true)) as [I1 I2]. split.
        -- apply noCommentLine_cons; [|exact I1]. intros _. now apply I2.
        -- intros _. cbn [commentStart]. rewrite (LT eq_refl). now apply I2.
      * destruct (IH InComment) as [I1 I2].
        split; [exact I1|intros _; now apply I2].
Qed.

(** A text without comment line goes through the scan unchanged. *)
Lemma commentScan_fixed s :
  forall b,
  (b = true -> commentStart s = false) ->
  noCommentLine s -> commentScan (Copying b) s = s.
Proof.
  induction s as [|c s IH]; intros b Hb Hs; [reflexivity|].
  cbn [commentScan].
  assert (B : b && commentStart (c :: s) = false).
  { destruct b; [now apply Hb|reflexivity]. }
  rewrite B. f_equal. apply IH.
  - intro L. exact (Hs [] c s eq_refl L).
  - intros p t q E Ht. apply (Hs (c :: p) t q); [now rewrite E|exact Ht].
Qed.

(** After line 161 no line of the text starts with two slashes, with or
    without white space in front of them, and running the replacement
    again changes nothing. *)
Theorem stripLineComments_clean s :
  commentStart (stripLineComments s) = false
  /\ noCommentLine (stripLineComments s)
  /\ stripLineComments (stripLineComments s) = stripLineComments s.
Proof.
  unfold stripLineComments.
  destruct (commentScan_clean s (Copying true)) as [C1 C2].
  specialize (C2 I). split; [exact C2|]. split; [exact C1|].
  apply commentScan_fixed; [intros _; exact C2|exact C1].
Qed.

End CommentsRemoved.

(* ================================================================== *)
(** * The fences *)

Section FenceVariants.
Import JS GeminiService Facts.
Local Open Scope nat_scope.

Lemma space_not_j c : isSpace c = true -> negb (eqCI 106 c) = true.
Proof.
  intro H. unfold eqCI.
  destruct (N.eqb_spec c 106) as [-> | _]; [discriminate H|].
  destruct (N.eqb_spec c (106 - 32)) as [-> | _]; [discriminate H|reflexivity].
Qed.

Lemma stripFenceOpen_tag tag R :
  isJsonTag tag = true
  \/ (tag = [] /\ forallb (fun c => negb (eqCI 106 c)) (firstn 1 R) = true) ->
  stripFenceOpen (fence ++ tag ++ R) = R.
Proof.
  change fence with [96; 96; 96]%N. unfold stripFenceOpen.
  intros [H | [-> H]].
  - destruct tag as [|j [|s [|o [|n [|x tag]]]]]; try discriminate H.
    cbn [app skipn]. cbn [isJsonTag] in H. now rewrite H.
  - cbn [app skipn]. destruct R as [|c [|d [|e [|f R]]]]; try reflexivity.
    cbn [firstn forallb] in H. rewrite andb_true_r in H.
    apply negb_true_iff in H. now rewrite H.
Qed.

Lemma fenced_head_nonspace tag R :
  isJsonTag tag = true \/ (tag = [] /\ forallb isSpace (firstn 1 R) = true) ->
  exists x z, fence ++ tag = x ++ [z] /\ isSpace z = false.
Proof.
  change fence with [96; 96; 96]%N. intros [H | [-> _]].
  - destruct tag as [|j [|s [|o [|n [|x tag]]]]]; try discriminate H.
    exists [96; 96; 96; j; s; o]%N, n. split; [reflexivity|].
    cbn [isJsonTag] in H. apply andb_true_iff in H. destruct H as [_ H].
    unfold eqCI in H. apply orb_true_iff in H.
    destruct H as [H|H]; apply N.eqb_eq in H; subst; reflexivity.
  - exists [96; 96]%N, 96%N. split; reflexivity.
Qed.

(** [trim] after [trimEnd] is [trim]. *)
Lemma trim_trimEnd R : trim (trimEnd R) = trim R.
Proof.
  destruct (trimEnd_rest R) as (W & HR & HW & Hlast).
  remember (trimEnd R) as R1 eqn:E1. clear E1. subst R. unfold trim.
  destruct Hlast as [-> | (x & z & -> & Hz)].
  - cbn [app trimStart]. now rewrite (trimStart_all W HW).
  - destruct (trimStart_keeps_last x z Hz) as (x' & E).
    rewrite (trimStart_app (x ++ [z]) W) by (rewrite E; now destruct x').
    now rewrite trimEnd_blank.
Qed.

(** A response inside a fence, with the tag json in any letter case or
    with no tag and a line break, and with white space around the fences,
    is parsed as what is between the fences. *)
Theorem fenced_response_parses ws1 tag R ws2 :
  forallb isSpace ws1 = true ->
  forallb isSpace ws2 = true ->
  isJsonTag tag = true \/ (tag = [] /\ forallb isSpace (firstn 1 R) = true) ->
  startsWith fence (trim R) = false ->
  parseResponse (ws1 ++ fence ++ tag ++ R ++ fence ++ ws2) = parseResponse R.
Proof.
  intros H1 H2 Ht HR. unfold parseResponse.
  assert (T : trim (ws1 ++ fence ++ tag ++ R ++ fence ++ ws2)
              = fence ++ tag ++ R ++ fence).
  { unfold trim. rewrite trimStart_spaces by exact H1.
    change fence with [96; 96; 96]%N at 1. cbn [app].
    rewrite trimStart_nonspace by reflexivity.
    replace (96%N :: 96%N :: 96%N :: tag ++ R ++ fence ++ ws2)
      with (([96; 96; 96]%N ++ tag ++ R ++ [96; 96]%N) ++ [96%N] ++ ws2)
      by (change fence with [96; 96; 96]%N;
          repeat (rewrite <- app_assoc; cbn [app]); reflexivity).
    rewrite app_assoc, trimEnd_blank by exact H2.
    rewrite trimEnd_keep by reflexivity.
    change fence with [96; 96; 96]%N.
    repeat (rewrite <- app_assoc; cbn [app]). reflexivity. }
  rewrite T. unfold unfence at 1.
  assert (S1 : startsWith fence (fence ++ tag ++ R ++ fence) = true)
    by apply startsWith_app.
  rewrite S1, (stripFenceOpen_tag tag (R ++ fence) ) .
  - rewrite stripFenceClose_fence. unfold unfence. now rewrite HR.
  - destruct Ht as [Ht | [-> Ht]]; [now left|right].
    split; [reflexivity|]. destruct R as [|c R]; [reflexivity|].
    cbn [app firstn forallb] in *. rewrite andb_true_r in *.
    now apply space_not_j.
Qed.

(** A fence that is opened and never closed, as in a response cut by the
    output limit, is removed as well. *)
Theorem unclosed_fence_parses ws1 tag R :
  forallb isSpace ws1 = true ->
  isJsonTag tag = true \/ (tag = [] /\ forallb isSpace (firstn 1 R) = true) ->
  startsWith fence (trim R) = false ->
  endsWith fence (trimEnd R) = false ->
  parseResponse (ws1 ++ fence ++ tag ++ R) = parseResponse R.
Proof.
  intros H1 Ht HR HE. unfold parseResponse.
  destruct (trimEnd_rest R) as (W & HW & HWs & Hlast).
  destruct (fenced_head_nonspace tag R Ht) as (x & z & Hx & Hz).
  assert (T : trim (ws1 ++ fence ++ tag ++ R) = fence ++ tag ++ trimEnd R).
  { unfold trim. rewrite trimStart_spaces by exact H1.
    change fence with [96; 96; 96]%N at 1. cbn [app].
    rewrite trimStart_nonspace by reflexivity.
    change (96%N :: 96%N :: 96%N :: tag ++ R) with (fence ++ tag ++ R).
    rewrite HW at 1.
    replace (fence ++ tag ++ trimEnd R ++ W)
      with ((fence ++ tag ++ trimEnd R) ++ W)
      by (now rewrite <- !app_assoc).
    rewrite trimEnd_blank by exact HWs.
    destruct Hlast as [-> | (y & u & -> & Hu)].
    - rewrite app_nil_r, Hx. now apply trimEnd_keep.
    - rewrite !app_assoc. now apply trimEnd_keep. }
  rewrite T. unfold unfence at 1.
  assert (S1 : startsWith fence (fence ++ tag ++ trimEnd R) = true)
    by apply startsWith_app.
  rewrite S1, (stripFenceOpen_tag tag (trimEnd R)).
  - unfold stripFenceClose. rewrite HE, trim_trimEnd.
    unfold unfence. now rewrite HR.
  - destruct Ht as [Ht | [-> Ht]]; [now left|right].
    split; [reflexivity|].
    destruct (trimEnd_firstn R) as [n ->].
    destruct R as [|c R]; [now destruct n|].
    destruct n; [reflexivity|].
    cbn [firstn forallb] in *. rewrite andb_true_r in *.
    now apply space_not_j.
Qed.

End FenceVariants.

Lemma fenced_response_parses_witness :
  GeminiService.parseResponse
    ([32] ++ GeminiService.fence ++ JS.lit "JSON"
       ++ ([10] ++ Sample.onePage ++ [10])
       ++ GeminiService.fence ++ [13; 10])
  = GeminiService.parseResponse ([10] ++ Sample.onePage ++ [10]).
Proof.
  apply (fenced_response_parses [32] (JS.lit "JSON")
           ([10] ++ Sample.onePage ++ [10]) [13; 10]);
    try reflexivity.
  left. reflexivity.
Defined.

Lemma unclosed_fence_parses_witness :
  GeminiService.parseResponse
    (GeminiService.fence ++ [] ++ ([10] ++ firstn 12 Sample.onePage))
  = GeminiService.parseResponse ([10] ++ firstn 12 Sample.onePage).
Proof.
  apply (unclosed_fence_parses [] [] ([10] ++ firstn 12 Sample.onePage));
    try reflexivity.
  right. split; reflexivity.
Defined.

(* ================================================================== *)
(** * Text around the object *)

Section AroundTheObject.
Import JS GeminiService.
Local Open Scope nat_scope.

(** Away from a line start, the rest of the line is copied. *)
Lemma commentScan_rest_of_line x y :
  forallb (fun c => negb (isLineTerminator c)) x = true ->
  commentScan (Copying false) (x ++ y) = x ++ commentScan (Copying false) y.
Proof.
  induction x as [|c x IH]; intro H; [reflexivity|].
  cbn [forallb] in H. apply andb_true_iff in H. destruct H as [Hc Hx].
  apply negb_true_iff in Hc.
  cbn [app commentScan andb]. rewrite Hc. f_equal. now apply IH.
Qed.

(** Words in front of the object, on its line, are dropped by line 163:
    when the response starts with a character that is no white space, no
    slash and no backquote, and holds no brace and no line break before
    the opening brace of the object, it is parsed as the object alone. *)
Theorem words_before_object_ignored a words R :
  isSpace a = false -> a <> 47%N -> a <> 96%N ->
  forallb (fun c => negb (c =? 123)%N && negb (isLineTerminator c))
          (a :: words) = true ->
  parseResponse ((a :: words) ++ 123%N :: R) = parseResponse (123%N :: R).
Proof.
  intros Ha Hs Hq Hw.
  assert (H1 : forallb (fun c => negb (c =? 123)%N) (a :: words) = true).
  { eapply forallb_forall. intros c Hc.
    pose proof (proj1 (forallb_forall _ _) Hw c Hc) as K.
    now apply andb_true_iff in K. }
  assert (H2 : forallb (fun c => negb (isLineTerminator c)) words = true).
  { eapply forallb_forall. intros c Hc.
    pose proof (proj1 (forallb_forall _ _) Hw c (or_intror Hc)) as K.
    now apply andb_true_iff in K. }
  destruct (trimEnd_cons 123%N R eq_refl) as [R' E].
  unfold parseResponse, trim.
  rewrite (trimStart_nonspace 123%N R eq_refl).
  cbn [app]. rewrite (trimStart_nonspace a _ Ha).
  change (a :: words ++ 123%N :: R) with ((a :: words) ++ 123%N :: R).
  rewrite trimEnd_app by (rewrite E; discriminate). rewrite E.
  rewrite (unfence_plain 123%N R') by discriminate.
  cbn [app]. rewrite (unfence_plain a _ Hq).
  unfold stripLineComments.
  rewrite (commentScan_head true a _ Ha Hs).
  assert (La : isLineTerminator a = false).
  { destruct (isLineTerminator a) eqn:L; [|reflexivity].
    rewrite (isLineTerminator_space a L) in Ha. discriminate Ha. }
  rewrite La, (commentScan_rest_of_line words _ H2).
  rewrite (commentScan_head true 123%N R' eq_refl) by discriminate.
  rewrite (commentScan_head false 123%N R' eq_refl) by discriminate.
  change (a :: words ++ 123%N :: commentScan (Copying (isLineTerminator 123)) R')
    with ((a :: words)
            ++ 123%N :: commentScan (Copying (isLineTerminator 123)) R').
  rewrite (fromFirstBrace_at _ _ H1). reflexivity.
Qed.

(** A response of white space only is not taken for a missing response:
    it fails with the error of line 171, not with the one of line 155. *)
Theorem blank_response_is_truncated c ws :
  forallb isSpace (c :: ws) = true ->
  callGeminiWithRetry (Text (Some (c :: ws)))
  = inl (ErrorObj truncatedMessage).
Proof.
  intro H. cbn [callGeminiWithRetry]. unfold parseResponse, trim.
  now rewrite (trimStart_all (c :: ws) H).
Qed.

End AroundTheObject.

Lemma words_before_object_ignored_witness :
  GeminiService.parseResponse (JS.jsonLit "Here is the JSON: {'1': [['A']]}")
  = GeminiService.parseResponse (JS.jsonLit "{'1': [['A']]}").
Proof.
  apply (words_before_object_ignored 72 (JS.lit "ere is the JSON: ")
           (JS.jsonLit "'1': [['A']]}"));
    (reflexivity || discriminate).
Defined.

Lemma blank_response_is_truncated_witness :
  GeminiService.callGeminiWithRetry (GeminiService.Text (Some [32; 10]))
  = inl (GeminiService.ErrorObj GeminiService.truncatedMessage).
Proof. apply (blank_response_is_truncated 32 [10]). reflexivity. Defined.

(* ================================================================== *)
(** * The sheets of the workbook *)

Section Sheets.
Import JS ExcelHelper.
Local Open Scope nat_scope.

Lemma includes_head h q s : includes (h :: q) s = true -> In h s.
Proof.
  unfold includes. induction s as [|c s IH]; rewrite indexOf_eq;
    cbn [startsWith].
  - discriminate.
  - destruct (N.eqb_spec h c) as [-> | _]; [intros _; now left|].
    cbn [andb]. intro H. right. apply IH.
    destruct (indexOf (h :: q) s); [reflexivity|discriminate H].
Qed.

Lemma lacks_head h q s :
  forallb (fun c => negb (c =? h)%N) s = true -> includes (h :: q) s = false.
Proof.
  intro H. destruct (includes (h :: q) s) eqn:E; [|reflexivity].
  apply includes_head in E.
  pose proof (proj1 (forallb_forall _ _) H h E) as K. cbv beta in K.
  now rewrite N.eqb_refl in K.
Qed.

(** A sheet name is never empty, has at most 31 code units, and holds
    none of the characters colon, slash, backslash, question mark, star
    and square brackets. *)
Theorem sheetName_valid pageKey :
  sheetNameOf pageKey <> []
  /\ List.length (sheetNameOf pageKey) <= 31
  /\ forallb (fun c => negb ((c =? 58) || (c =? 47) || (c =? 92) || (c =? 63)
                             || (c =? 42) || (c =? 91) || (c =? 93))%N)
             (sheetNameOf pageKey) = true.
Proof.
  unfold sheetNameOf, stripSheetChars, substringTo.
  set (ok := fun c => negb ((c =? 58) || (c =? 47) || (c =? 92) || (c =? 63)
                            || (c =? 42) || (c =? 91) || (c =? 93))%N).
  set (name := if includes (lit "Page") pageKey || includes (lit "頁") pageKey
               then pageKey else lit "Page " ++ pageKey).
  split; [|split].
  - assert (K : exists h, In h name /\ ok h = true).
    { unfold name.
      destruct (includes (lit "Page") pageKey) eqn:E1.
      - exists 80%N. split; [|reflexivity].
        exact (includes_head 80%N _ pageKey E1).
      - destruct (includes (lit "頁") pageKey) eqn:E2.
        + exists 38913%N. split; [|reflexivity].
          exact (includes_head 38913%N _ pageKey E2).
        + exists 80%N. split; [now left|reflexivity]. }
    destruct K as (h & Hin & Hok).
    assert (F : In h (filter ok name)) by (apply filter_In; now split).
    destruct (filter ok name) as [|c l]; [contradiction|discriminate].
  - apply firstn_le_length.
  - apply forallb_firstn. apply forallb_forall. intros c Hc.
    now apply filter_In in Hc.
Qed.

(** The page of number [p] goes to the sheet named Page [p]. *)
Theorem sheetName_of_page p :
  (p < 10 ^ 26)%N -> sheetNameOf (decimal p) = lit "Page " ++ decimal p.
Proof.
  intro Hp.
  pose proof (decimal_digits p) as D.
  assert (Dr : forall c, In c (decimal p) -> (48 <= c <= 57)%N).
  { intros c Hc. apply isDigit_range.
    exact (proj1 (forallb_forall _ _) D c Hc). }
  assert (L : List.length (decimal p) <= 26).
  { destruct (decimal_canonical p) as (c & r & E & C).
    pose proof (digitsValue_decimal p) as V. rewrite E in V, Dr |- *.
    rewrite digitsValue_cons in V. cbn [List.length].
    destruct C as [C | ->]; [|cbn; lia].
    assert (49 <= c)%N.
    { specialize (Dr c (or_introl eq_refl)). lia. }
    destruct (Nat.le_gt_cases (List.length r) 25) as [?|G]; [lia|].
    exfalso.
    assert (P : (10 ^ 26 <= 10 ^ N.of_nat (List.length r))%N)
      by (apply N.pow_le_mono_r; lia).
    nia. }
  unfold sheetNameOf.
  change (lit "Page") with [80; 97; 103; 101]%N.
  change (lit "頁") with [38913%N].
  rewrite (lacks_head 80%N _ (decimal p)), (lacks_head 38913%N _ (decimal p)).
  - cbn [orb]. unfold stripSheetChars, substringTo.
    rewrite filter_app.
    assert (F : filter
                  (fun c => negb ((c =? 58) || (c =? 47) || (c =? 92)
                                  || (c =? 63) || (c =? 42) || (c =? 91)
                                  || (c =? 93))%N) (decimal p)
                = decimal p).
    { apply forallb_filter_id. apply forallb_forall. intros c Hc.
      specialize (Dr c Hc).
      repeat match goal with
             | |- context [(c =? ?k)%N] =>
                 destruct (N.eqb_spec c k); [lia|]
             end.
      reflexivity. }
    rewrite F. apply firstn_all2. rewrite length_app.
    change (List.length (lit "Page ")) with 5. lia.
  - apply forallb_forall. intros c Hc. specialize (Dr c Hc).
    destruct (N.eqb_spec c 38913); [lia|reflexivity].
  - apply forallb_forall. intros c Hc. specialize (Dr c Hc).
    destruct (N.eqb_spec c 80); [lia|reflexivity].
Qed.

End Sheets.

Lemma sheetName_of_page_witness :
  ExcelHelper.sheetNameOf (JS.lit "12") = JS.lit "Page 12".
Proof. apply (sheetName_of_page 12). reflexivity. Defined.

(* ================================================================== *)
(** * The order of the pages and the rows of the merged sheet *)

Section PageOrder.
Import JS ExcelHelper.
Local Open Scope nat_scope.

Lemma filter_above z l :
  Forall (fun k => (z < sortKey k)%Z) l ->
  filter (fun k => (sortKey k =? z)%Z) l = [].
Proof.
  induction 1 as [|k l Hk _ IH]; [reflexivity|]. cbn [filter].
  destruct (Z.eqb_spec (sortKey k) z); [lia|exact IH].
Qed.

Lemma list_sum_permutation l l' :
  Permutation l l' -> list_sum l = list_sum l'.
Proof.
  induction 1 as [|x l l' _ IH|x y l|l l' l'' _ IH1 _ IH2]; cbn [list_sum fold_right];
    unfold list_sum in *; cbn [fold_right]; lia.
Qed.

(** A key is inserted after the keys of the same number. *)
Lemma insertKey_filter z x l :
  StronglySorted keyLe l ->
  filter (fun k => (sortKey k =? z)%Z) (insertKey x l)
  = filter (fun k => (sortKey k =? z)%Z) l
      ++ (if (sortKey x =? z)%Z then [x] else []).
Proof.
  induction 1 as [|y l Hs IH Hall]; cbn [insertKey filter].
  - destruct (sortKey x =? z)%Z; reflexivity.
  - destruct (before x y) eqn:B.
    + apply before_lt in B. cbn [filter].
      destruct (Z.eqb_spec (sortKey x) z) as [E|E];
        [|now rewrite app_nil_r].
      destruct (Z.eqb_spec (sortKey y) z); [lia|].
      rewrite filter_above; [reflexivity|].
      eapply Forall_impl; [|exact Hall]. unfold keyLe. intros; lia.
    + cbn [filter]. rewrite IH.
      destruct (sortKey y =? z)%Z; reflexivity.
Qed.

Lemma sortPages_filter z keys :
  forall acc,
  StronglySorted keyLe acc ->
  filter (fun k => (sortKey k =? z)%Z)
         (fold_left (fun sorted x => insertKey x sorted) keys acc)
  = filter (fun k => (sortKey k =? z)%Z) acc
      ++ filter (fun k => (sortKey k =? z)%Z) keys.
Proof.
  induction keys as [|k keys IH]; intros acc Hs; cbn [fold_left filter].
  - now rewrite app_nil_r.
  - rewrite (IH _ (insertKey_sorted k acc Hs)), (insertKey_filter z k acc Hs).
    rewrite <- app_assoc. destruct (sortKey k =? z)%Z; reflexivity.
Qed.

(** The pages are exported in the order of their numbers, each once, and
    pages of the same number, such as two keys without digits, keep the
    order the map enumerates them in.  The bound is the range on which
    JavaScript numbers are exact. *)
Theorem sortPages_stable keys :
  Forall (fun k => (sortKey k < 2 ^ 53)%Z) keys ->
  StronglySorted keyLe (sortPages keys)
  /\ Permutation keys (sortPages keys)
  /\ forall z,
       filter (fun k => (sortKey k =? z)%Z) (sortPages keys)
       = filter (fun k => (sortKey k =? z)%Z) keys.
Proof.
  intros _. destruct (sortPages_sorted keys) as [S P].
  split; [exact S|]. split; [exact P|].
  intro z. unfold sortPages.
  now rewrite (sortPages_filter z keys [] (SSorted_nil _)).
Qed.

Section Merged.
Variable numberToString : jsstring -> jsstring.

(** In merge mode the sheet holds the rows of the pages, in the order of
    the page numbers, and one empty row after the rows of every page, the
    last page included: as many empty rows as there are pages, so a sheet
    with pages ends with an empty row.  No rows are handed over exactly
    when [String] throws on a cell of a page. *)
Theorem mergeRows_rows data :
  mergeRows numberToString data
  = option_map (flat_map (fun cleanRows => cleanRows ++ [[]]))
      (mapM (fun pageKey =>
               sanitizeGridData numberToString (getProp (VObj data) pageKey))
            (sortPages (map fst data)))
  /\ (mergeRows numberToString data = None
      <-> exists pageKey,
            In pageKey (map fst data)
            /\ sanitizeGridData numberToString (getProp (VObj data) pageKey)
               = None)
  /\ forall rowsOf,
       (forall pageKey,
          In pageKey (map fst data) ->
          sanitizeGridData numberToString (getProp (VObj data) pageKey)
          = Some (rowsOf pageKey)) ->
       exists allRows,
         mergeRows numberToString data = Some allRows
         /\ allRows
            = flat_map (fun pageKey => rowsOf pageKey ++ [[]])
                       (sortPages (map fst data))
         /\ List.length allRows
            = list_sum (map (fun pageKey => List.length (rowsOf pageKey))
                            (map fst data))
              + List.length data
         /\ match data with
            | [] => allRows = []
            | _ => exists body, allRows = body ++ [[]]
            end.
Proof.
  split; [apply mergeRows_flat_map|]. split; [apply mergeRows_throws|].
  intros rowsOf H.
  pose proof (mergeRows_returns numberToString data rowsOf H) as F.
  destruct (sortPages_sorted (map fst data)) as [_ P].
  eexists. split; [exact F|]. split; [reflexivity|]. split.
  - assert (G : forall l,
               List.length
                 (flat_map (fun pageKey => rowsOf pageKey ++ [[]]) l)
               = list_sum (map (fun pageKey => List.length (rowsOf pageKey)) l)
                 + List.length l).
    { induction l as [|k l IH]; [reflexivity|].
      cbn [flat_map map]. rewrite length_app, IH, length_app.
      change (list_sum (?a :: ?r)) with (a + list_sum r).
      cbn [List.length]. lia. }
    rewrite G, <- (Permutation_length P), length_map. f_equal.
    apply Permutation_sym in P.
    exact (list_sum_permutation _ _ (Permutation_map _ P)).
  - destruct data as [|kv data]; [reflexivity|].
    destruct (sortPages (map fst (kv :: data))) as [|k l] eqn:E.
    + apply Permutation_length in P. discriminate P.
    + destruct (@exists_last _ (k :: l)) as (l' & k' & E'); [discriminate|].
      rewrite E', flat_map_app. cbn [flat_map]. rewrite app_nil_r, app_assoc.
      eexists. reflexivity.
Qed.

End Merged.

End PageOrder.

(* ================================================================== *)
(** * The name of the downloaded file *)

Section Download.
Import JS App.
Local Open Scope nat_scope.

Lemma includes_cons pat c s :
  includes pat (c :: s) = false ->
  startsWith pat (c :: s) = false /\ includes pat s = false.
Proof.
  unfold includes. rewrite indexOf_eq.
  destruct (startsWith pat (c :: s)); [discriminate|].
  destruct (indexOf pat s); [discriminate|]. now split.
Qed.

(** The extension is found at the end of a stem that does not hold it:
    no occurrence starts inside the stem and ends in the extension. *)
Lemma indexOf_pdf stem rest :
  includes (lit ".pdf") stem = false ->
  indexOf (lit ".pdf") (stem ++ lit ".pdf" ++ rest)
  = Some (List.length stem).
Proof.
  change (lit ".pdf") with [46; 112; 100; 102]%N.
  induction stem as [|c stem IH]; intro H; [reflexivity|].
  destruct (includes_cons _ c stem H) as [H1 H2].
  assert (S1 : startsWith [46; 112; 100; 102]%N
                 ((c :: stem) ++ [46; 112; 100; 102]%N ++ rest) = false).
  { destruct stem as [|x [|y [|z stem]]]; cbn [app startsWith] in *.
    - destruct (46 =? c)%N; reflexivity.
    - destruct (46 =? c)%N, (112 =? x)%N; reflexivity.
    - destruct (46 =? c)%N, (112 =? x)%N, (100 =? y)%N; reflexivity.
    - exact H1. }
  specialize (IH H2).
  remember ([46; 112; 100; 102]%N ++ rest) as X eqn:EX. clear EX.
  rewrite indexOf_eq, S1. cbn [app]. rewrite IH. reflexivity.
Qed.

Lemma replaceFirst_pdf ending stem rest :
  includes (lit ".pdf") stem = false ->
  replaceFirst (lit ".pdf") ending (stem ++ lit ".pdf" ++ rest)
  = stem ++ ending ++ rest.
Proof.
  intro H. unfold replaceFirst. rewrite (indexOf_pdf stem rest H).
  rewrite firstn_app, Nat.sub_diag, firstn_all. cbn [firstn].
  rewrite app_nil_r. f_equal. f_equal.
  rewrite skipn_app, skipn_all2 by lia. cbn [app].
  replace (List.length stem + List.length (lit ".pdf") - List.length stem)
    with 4 by (change (List.length (lit ".pdf")) with 4; lia).
  reflexivity.
Qed.

Section Handlers.
Variable numberToString : jsstring -> jsstring.
Variable refuses : ExcelHelper.workbook -> jsstring -> list (list jsstring) -> bool.

(** With extracted pages and a file whose name holds the extension [.pdf],
    the merged download is handed the name in which the first [.pdf] is
    replaced by [_merged.xlsx], what follows it being kept, and holds the
    single sheet Sheet1 with the merged rows, unless [String] throws on a
    cell or the library refuses the sheet; without extracted pages nothing
    is written. *)
Theorem merged_download_name kv data stem rest :
  includes (lit ".pdf") stem = false ->
  handleDownloadMerged numberToString refuses (kv :: data)
    (Some (stem ++ lit ".pdf" ++ rest))
  = Some (stem ++ lit "_merged.xlsx" ++ rest,
          match ExcelHelper.mergeRows numberToString (kv :: data) with
          | Some allRows =>
              if refuses [] (lit "Sheet1") allRows
              then ExcelHelper.LibraryThrew
              else ExcelHelper.Written [(lit "Sheet1", allRows)]
          | None => ExcelHelper.StringThrew
          end)
  /\ handleDownloadMerged numberToString refuses []
       (Some (stem ++ lit ".pdf" ++ rest)) = None.
Proof.
  intro H. split; [|reflexivity].
  unfold handleDownloadMerged. cbn [Object_keys map].
  unfold downloadName.
  rewrite <- (replaceFirst_pdf (lit "_merged.xlsx") stem rest H).
  destruct (stem ++ lit ".pdf" ++ rest) as [|c r] eqn:E; [|reflexivity].
  destruct stem; discriminate E.
Qed.

(** A file whose name does not hold [.pdf] in lower case, such as
    REPORT.PDF, is downloaded under its own name, in both modes: no
    [.xlsx] extension is put in. *)
Theorem download_name_without_pdf kv data c name :
  includes (lit ".pdf") (c :: name) = false ->
  option_map fst (handleDownloadMerged numberToString refuses (kv :: data)
                    (Some (c :: name)))
  = Some (c :: name)
  /\ option_map fst (handleDownloadSplit numberToString refuses (kv :: data)
                       (Some (c :: name)))
     = Some (c :: name).
Proof.
  intro H. unfold includes in H.
  unfold handleDownloadMerged, handleDownloadSplit. cbn [Object_keys map].
  unfold downloadName, replaceFirst. cbn [option_map fst].
  destruct (indexOf (lit ".pdf") (c :: name)); [discriminate|].
  now split.
Qed.

End Handlers.

End Download.

Lemma merged_download_name_witness :
  App.handleDownloadMerged (fun x => x) (fun _ _ _ => false)
    [(JS.lit "1", JS.VArr [JS.VArr [JS.VStr (JS.lit "a")]])]
    (Some (JS.lit "a.b.pdf.pdf"))
  = Some (JS.lit "a.b_merged.xlsx.pdf",
          ExcelHelper.Written [(JS.lit "Sheet1", [[JS.lit "a"]; []])]).
Proof.
  exact (proj1 (merged_download_name (fun x => x) (fun _ _ _ => false)
                  (JS.lit "1", JS.VArr [JS.VArr [JS.VStr (JS.lit "a")]]) []
                  (JS.lit "a.b") (JS.lit ".pdf") eq_refl)).
Defined.

Lemma download_name_without_pdf_witness :
  option_map fst
    (App.handleDownloadSplit (fun x => x) (fun _ _ _ => false)
       [(JS.lit "1", JS.VArr [JS.VArr [JS.VStr (JS.lit "a")]])]
       (Some (JS.lit "REPORT.PDF")))
  = Some (JS.lit "REPORT.PDF").
Proof.
  exact (proj2 (download_name_without_pdf (fun x => x) (fun _ _ _ => false)
                  (JS.lit "1", JS.VArr [JS.VArr [JS.VStr (JS.lit "a")]]) []
                  82 (JS.lit "EPORT.PDF") eq_refl)).
Defined.

(* ================================================================== *)
(** * Batches without pages *)

Section EmptyBatches.
Import JS GeminiService.
Local Open Scope nat_scope.

Variable Page : Type.
Variable load : jsstring -> option (list Page).
Variable saveAsBase64 : list Page -> jsstring.
Variable copyError : thrown.
Variable generateContent : nat -> jsstring -> response.
Variable keysTypeError : jsstring.

Lemma batchLoop_keyless onProgress (pdfDoc : list Page) fuel :
  (forall rq d,
     exists v, callGeminiWithRetry (generateContent rq d) = inr v
               /\ Object_keys v = Some []) ->
  forall i agg log rq,
  List.length pdfDoc - i <= fuel ->
  batchLoop Page saveAsBase64 copyError generateContent keysTypeError
    fuel onProgress pdfDoc (List.length pdfDoc) i agg log rq
  = Some (log ++ flat_map (windowEvents Page saveAsBase64 onProgress pdfDoc)
                   (windowsFrom fuel (List.length pdfDoc) i),
          Resolved agg).
Proof.
  intro H. induction fuel as [|fuel IH]; intros i agg log rq Hf.
  - cbn [GeminiService.batchLoop windowsFrom].
    destruct (Nat.ltb_spec i (List.length pdfDoc)); [lia|].
    now rewrite app_nil_r.
  - destruct (Nat.ltb_spec i (List.length pdfDoc)) as [Hlt|Hge].
    + rewrite (batchLoop_step Page saveAsBase64 copyError generateContent
                 keysTypeError fuel onProgress pdfDoc i agg log rq Hlt).
      cbv zeta.
      destruct (H rq (subDocument Page saveAsBase64 pdfDoc i)) as (v & -> & K).
      unfold mergeBatch. rewrite K. cbn [fold_left].
      rewrite IH by (unfold BATCH_SIZE; lia).
      cbn [windowsFrom].
      destruct (Nat.ltb_spec i (List.length pdfDoc)); [|lia].
      cbn [flat_map]. now rewrite <- app_assoc.
    + cbn [GeminiService.batchLoop windowsFrom].
      destruct (Nat.ltb_spec i (List.length pdfDoc)); [lia|].
      now rewrite app_nil_r.
Qed.

(** A batch whose answer has no key (an empty object, an empty array, a
    number, [true] or [false]) adds no page and raises no error: when
    every batch answers so, every window is requested and the run resolves
    with the empty map, as if the document had no page. *)
Theorem keyless_batches_resolve_empty base64Data apiKey onProgress pdfDoc :
  apiKey <> [] ->
  load base64Data = Some pdfDoc ->
  (forall rq d,
     exists v, callGeminiWithRetry (generateContent rq d) = inr v
               /\ Object_keys v = Some []) ->
  processFile Page load saveAsBase64 copyError generateContent keysTypeError
              base64Data apiKey onProgress
  = Some (flat_map (windowEvents Page saveAsBase64 onProgress pdfDoc)
                   (windows (List.length pdfDoc)),
          Resolved []).
Proof.
  intros Hkey Hload H. unfold processFile.
  destruct apiKey; [congruence|]. rewrite Hload.
  rewrite (batchLoop_keyless onProgress pdfDoc (List.length pdfDoc) H)
    by lia.
  reflexivity.
Qed.

End EmptyBatches.

Lemma keyless_batches_resolve_empty_witness :
  GeminiService.processFile nat Sample.load Sample.saveAsBase64
    GeminiService.NonError
    (fun _ _ => GeminiService.Text (Some (JS.lit "[]")))
    Sample.typeErrorMessage (JS.lit "pdf") (JS.lit "key") false
  = Some ([GeminiService.Request [0; 1; 2]; GeminiService.Request [3; 4]],
          GeminiService.Resolved []).
Proof.
  apply (keyless_batches_resolve_empty nat Sample.load Sample.saveAsBase64
           GeminiService.NonError
           (fun _ _ => GeminiService.Text (Some (JS.lit "[]")))
           Sample.typeErrorMessage (JS.lit "pdf") (JS.lit "key") false
           Sample.fivePages).
  - discriminate.
  - reflexivity.
  - intros rq d. exists (JS.VArr []). split; reflexivity.
Defined.

(* ================================================================== *)
(** * From the run to the sheet *)

Section RunToSheet.
Import JS GeminiService ExcelHelper.
Local Open Scope nat_scope.

Variable numberToString : jsstring -> jsstring.
Variable page : nat -> value.

Lemma sortKey_decimal p : sortKey (nat_decimal p) = Z.of_nat p.
Proof.
  unfold sortKey, nat_decimal, stripNonDigits.
  rewrite (forallb_filter_id _ _ (decimal_digits _)).
  rewrite parseInt_digits.
  - cbn [orZero]. rewrite digitsValue_decimal. lia.
  - destruct (decimal_canonical (N.of_nat p)) as (c & r & -> & _).
    discriminate.
  - apply decimal_digits.
Qed.

Lemma insertKey_last x l :
  Forall (fun y => (sortKey y <= sortKey x)%Z) l -> insertKey x l = l ++ [x].
Proof.
  induction 1 as [|y l Hy _ IH]; [reflexivity|]. cbn [insertKey].
  destruct (before x y) eqn:B; [apply before_lt in B; lia|].
  cbn [app]. now rewrite IH.
Qed.

(** Page numbers in ascending order are left in place by the sort. *)
Lemma sortPages_ascending n :
  sortPages (map nat_decimal (seq 1 n)) = map nat_decimal (seq 1 n).
Proof.
  unfold sortPages.
  assert (G : forall m d,
             fold_left (fun sorted x => insertKey x sorted)
                       (map nat_decimal (seq (1 + d) m))
                       (map nat_decimal (seq 1 d))
             = map nat_decimal (seq 1 (d + m))).
  { induction m as [|m IH]; intro d.
    - cbn [seq map fold_left]. now rewrite Nat.add_0_r.
    - cbn [seq map fold_left]. rewrite insertKey_last.
      + replace (map nat_decimal (seq 1 d) ++ [nat_decimal (1 + d)])
          with (map nat_decimal (seq 1 (S d)))
          by (now rewrite seq_S, map_app).
        change (S (1 + d)) with (1 + S d). rewrite IH. f_equal. f_equal. lia.
      + rewrite Forall_map, Forall_forall. intros q Hq. apply in_seq in Hq.
        rewrite !sortKey_decimal. lia. }
  exact (G n 0).
Qed.

(** The map a run with labelled batches resolves with, which holds page
    [p] under the decimal text of [p], is merged into the rows of the
    pages in the order of the document, each page followed by one empty
    row; no rows are handed over when [String] throws on a page.  The
    bound is the range on which JavaScript numbers are exact. *)
Theorem numbered_pages_merge_in_order n :
  (Z.of_nat n < 2 ^ 53)%Z ->
  mergeRows numberToString (map (fun p => (nat_decimal p, page p)) (seq 1 n))
  = option_map (flat_map (fun cleanRows => cleanRows ++ [[]]))
      (mapM (fun p => sanitizeGridData numberToString (page p)) (seq 1 n)).
Proof.
  intros _. rewrite mergeRows_flat_map, map_map. cbn [fst].
  rewrite sortPages_ascending, mapM_compose. f_equal.
  apply mapM_ext_in. intros p Hp. f_equal. cbn [getProp].
  rewrite (lookup_key nat_decimal); [reflexivity| |exact Hp].
  intro q. unfold nat_decimal, stripNonDigits.
  rewrite (forallb_filter_id _ _ (decimal_digits _)).
  apply digitsValue_decimal.
Qed.

End RunToSheet.

Lemma sortPages_stable_witness :
  ExcelHelper.sortPages (map JS.lit ["10"; "x"; "9"; "y"; "p9"]%string)
  = map JS.lit ["x"; "y"; "9"; "p9"; "10"]%string
  /\ filter (fun k => (ExcelHelper.sortKey k =? 9)%Z)
            (ExcelHelper.sortPages (map JS.lit ["10"; "x"; "9"; "y"; "p9"]%string))
     = map JS.lit ["9"; "p9"]%string.
Proof.
  split; [reflexivity|].
  destruct (sortPages_stable (map JS.lit ["10"; "x"; "9"; "y"; "p9"]%string))
    as (_ & _ & F).
  - repeat constructor.
  - rewrite (F 9%Z). reflexivity.
Defined.

Lemma numbered_pages_merge_in_order_witness :
  ExcelHelper.mergeRows (fun x => x)
    (map (fun p => (GeminiService.nat_decimal p,
                    JS.VArr [JS.VArr [JS.VStr (GeminiService.nat_decimal p)]]))
         (seq 1 2))
  = Some [[JS.lit "1"]; []; [JS.lit "2"]; []].
Proof.
  rewrite (numbered_pages_merge_in_order (fun x => x)
             (fun p => JS.VArr [JS.VArr [JS.VStr (GeminiService.nat_decimal p)]])
             2);
    reflexivity.
Defined.

(* ================================================================== *)
(** * Pages that meet under one key *)

Section Collisions.
Import JS GeminiService ExcelHelper.
Local Open Scope nat_scope.

(** Two local keys with digits, of the same window or of two windows,
    are stored under the same global key exactly when the window start
    plus the number read from the key is the same for both: a batch that
    numbers a page beyond its window, such as 4 in the window of pages 1
    to 3, writes to the key of a page of a later window.  The bounds are
    the range on which JavaScript numbers are exact. *)
Theorem globalKey_collision i j a b :
  existsb isDigit a = true ->
  existsb isDigit b = true ->
  (N.of_nat i + digitsValue (stripNonDigits a) < 2 ^ 53)%N ->
  (N.of_nat j + digitsValue (stripNonDigits b) < 2 ^ 53)%N ->
  globalKey i (i + 1) a = globalKey j (j + 1) b
  <-> (N.of_nat i + digitsValue (stripNonDigits a)
       = N.of_nat j + digitsValue (stripNonDigits b))%N.
Proof.
  intros Ha Hb _ _.
  rewrite (globalKey_numeric i (i + 1) a Ha), (globalKey_numeric j (j + 1) b Hb).
  split; [apply decimal_inj|now intros ->].
Qed.

Section Modes.
Variable numberToString : jsstring -> jsstring.
Variable refuses : workbook -> jsstring -> list (list jsstring) -> bool.
Variable data : props.

Abbreviation cleanRowsOf :=
  (fun pageKey => sanitizeGridData numberToString (getProp (VObj data) pageKey)).
Abbreviation splitLoop :=
  (fold_left (splitPage numberToString refuses data)).

(** Once a page has thrown, the loop of split mode is left. *)
Lemma splitLoop_thrown l state :
  (forall wb, state <> Written wb) -> splitLoop l state = state.
Proof.
  intro H. destruct state as [wb| |]; [exfalso; exact (H wb eq_refl)| |];
    induction l as [|k l IH]; try reflexivity; exact IH.
Qed.

Lemma splitLoop_step k l wb0 wb :
  splitLoop (k :: l) (Written wb0) = Written wb ->
  exists cleanRows,
    cleanRowsOf k = Some cleanRows
    /\ refuses wb0 (sheetNameOf k) cleanRows = false
    /\ splitLoop l (Written (wb0 ++ [(sheetNameOf k, cleanRows)])) = Written wb.
Proof.
  cbn [fold_left splitPage]. unfold appendSheet.
  destruct (cleanRowsOf k) as [cleanRows|].
  - destruct (refuses wb0 (sheetNameOf k) cleanRows) eqn:R.
    + rewrite splitLoop_thrown by (intro; discriminate). discriminate.
    + intro H. now exists cleanRows.
  - rewrite splitLoop_thrown by (intro; discriminate). discriminate.
Qed.

(** A loop of split mode that comes to its end has appended one sheet for
    every page, in order. *)
Lemma splitLoop_written l wb0 wb :
  splitLoop l (Written wb0) = Written wb ->
  exists pages,
    mapM cleanRowsOf l = Some pages
    /\ wb = wb0 ++ combine (map sheetNameOf l) pages.
Proof.
  revert wb0. induction l as [|k l IH]; intros wb0 H.
  - cbn [fold_left] in H. injection H as <-. exists [].
    split; [reflexivity|]. cbn [map combine]. now rewrite app_nil_r.
  - apply splitLoop_step in H. destruct H as (cleanRows & C & _ & H).
    destruct (IH _ H) as (pages & M & ->).
    exists (cleanRows :: pages). cbn [mapM]. rewrite C, M.
    split; [reflexivity|]. cbn [map combine]. now rewrite <- app_assoc.
Qed.

(** With a library that refuses a name the workbook holds, the sheets of
    a workbook have different names. *)
Lemma splitLoop_names l wb0 wb :
  (forall held name rows,
     In name (map fst held) -> refuses held name rows = true) ->
  NoDup (map fst wb0) ->
  splitLoop l (Written wb0) = Written wb ->
  NoDup (map fst wb).
Proof.
  intro Hlib. revert wb0. induction l as [|k l IH]; intros wb0 N H.
  - cbn [fold_left] in H. now injection H as <-.
  - apply splitLoop_step in H. destruct H as (cleanRows & _ & R & H).
    apply (IH _ ) in H; [exact H|].
    rewrite map_app. cbn [map fst].
    apply NoDup_rev in N. rewrite <- (rev_involutive (map fst wb0 ++ _)).
    apply NoDup_rev. rewrite rev_app_distr. cbn [rev app].
    constructor; [|exact N].
    intro I. apply in_rev in I. rewrite (Hlib _ _ _ I) in R. discriminate R.
Qed.


(** With a library that refuses a sheet name the workbook already holds,
    split mode writes no workbook for a map in which two page keys give
    the same sheet name, such as the keys x_batch_1 and Page x_batch_1 of
    a batch without page numbers: an exception leaves [downloadExcel], the
    handler catches it and the status takes the error of line 114. *)
Theorem split_same_sheet_name a b name :
  (forall held sheetName rows,
     In sheetName (map fst held) -> refuses held sheetName rows = true) ->
  In a (map fst data) ->
  In b (map fst data) ->
  a <> b ->
  sheetNameOf a = sheetNameOf b ->
  (forall wb, downloadExcel numberToString refuses data split <> Written wb)
  /\ App.shownError (App.handleDownloadSplit numberToString refuses data name)
     = Some App.downloadFailed.
Proof.
  intros Hlib Ha Hb Hab Hname.
  assert (W : forall wb,
             downloadExcel numberToString refuses data split <> Written wb).
  { intros wb H. cbn [downloadExcel] in H.
    pose proof (splitLoop_names _ [] _ Hlib (NoDup_nil _) H) as N.
    apply splitLoop_written in H. destruct H as (pages & M & ->).
    cbn [app] in N. pose proof (mapM_nth _ _ _ M) as [L _].
    assert (E1 : map fst (combine (map sheetNameOf (sortPages (map fst data)))
                                  pages)
                 = map sheetNameOf (sortPages (map fst data))).
    { assert (Ln : List.length (map sheetNameOf (sortPages (map fst data)))
                   = List.length pages) by (now rewrite length_map).
      revert Ln. generalize (map sheetNameOf (sortPages (map fst data))).
      clear. induction pages as [|g pages IH]; intros [|x l] Ln;
        try discriminate Ln; [reflexivity|].
      cbn [combine map fst]. f_equal. apply IH. now injection Ln. }
    rewrite E1 in N.
    destruct (sortPages_sorted (map fst data)) as [_ P].
    apply (Permutation_in _ P) in Ha. apply (Permutation_in _ P) in Hb.
    apply in_split in Ha. destruct Ha as (l1 & l2 & E).
    rewrite E in N, Hb. rewrite map_app in N. cbn [map] in N.
    apply NoDup_remove_2 in N. apply N.
    rewrite <- map_app, Hname. apply in_map.
    apply in_app_or in Hb. apply in_or_app.
    destruct Hb as [Hb|[Hb|Hb]]; [now left|now destruct Hab|now right]. }
  split; [exact W|].
  unfold App.handleDownloadSplit. cbn [Object_keys].
  destruct (map fst data) as [|k keys] eqn:K; [destruct Ha|].
  unfold App.shownError.
  destruct (downloadExcel numberToString refuses data split) as [wb| |] eqn:D;
    [exfalso; exact (W wb eq_refl)|reflexivity|reflexivity].
Qed.

End Modes.

End Collisions.

Lemma globalKey_collision_witness :
  GeminiService.globalKey 0 1 (JS.lit "4")
  = GeminiService.globalKey 3 4 (JS.lit "Page 1").
Proof.
  apply (proj2 (globalKey_collision 0 3 (JS.lit "4") (JS.lit "Page 1")
                  eq_refl eq_refl eq_refl eq_refl)).
  reflexivity.
Defined.


Lemma split_same_sheet_name_witness :
  GeminiService.globalKey 0 1 (JS.lit "x") = JS.lit "x_batch_1"
  /\ GeminiService.globalKey 0 1 (JS.lit "Page x") = JS.lit "Page x_batch_1"
  /\ App.shownError
       (App.handleDownloadSplit (fun x => x) Sample.refusesHeldName
          Sample.pagesSameName (Some (JS.lit "a.pdf")))
     = Some App.downloadFailed.
Proof.
  split; [reflexivity|]. split; [reflexivity|].
  apply (split_same_sheet_name (fun x => x) Sample.refusesHeldName
           Sample.pagesSameName (JS.lit "x_batch_1") (JS.lit "Page x_batch_1")).
  - intros held sheetName rows I. unfold Sample.refusesHeldName.
    apply existsb_exists. exists sheetName. split; [exact I|].
    apply eqb_str_refl.
  - now left.
  - right. now left.
  - discriminate.
  - reflexivity.
Defined.

(** The split download of [Sample.pagesSameName] stops at the second
    sheet, the merged download of the same pages is written. *)
Example same_name_split_and_merge :
  ExcelHelper.downloadExcel (fun x => x) Sample.refusesHeldName
    Sample.pagesSameName ExcelHelper.split
  = ExcelHelper.LibraryThrew
  /\ ExcelHelper.downloadExcel (fun x => x) Sample.refusesHeldName
       Sample.pagesSameName ExcelHelper.merge
     = ExcelHelper.Written
         [(JS.lit "Sheet1", [[JS.lit "a"]; []; [JS.lit "b"]; []])].
Proof. split; reflexivity. Qed.

(* ================================================================== *)
(** * The rows of the preview *)

Section Preview.
Import JS DataTable.
Local Open Scope nat_scope.

Lemma cells_from pre row :
  map (cellText (pre ++ row)) (seq (List.length pre) (List.length row)) = row.
Proof.
  revert pre. induction row as [|c row IH]; intro pre; [reflexivity|].
  cbn [List.length seq map]. f_equal.
  - unfold cellText. rewrite nth_error_app2, Nat.sub_diag by lia. reflexivity.
  - replace (pre ++ c :: row) with ((pre ++ [c]) ++ row)
      by (now rewrite <- app_assoc).
    replace (S (List.length pre)) with (List.length (pre ++ [c]))
      by (rewrite length_app; cbn [List.length]; lia).
    apply IH.
Qed.

Lemma renderRow_cells row :
  renderRow row = match row with [] => [[]] | _ :: _ => row end.
Proof.
  unfold renderRow. destruct row as [|c row]; [reflexivity|].
  rewrite Nat.max_l by (cbn [List.length]; lia).
  exact (cells_from [] (c :: row)).
Qed.

(** With at least one page the preview shows the pages in the order of
    the export, and every row with its own cells, as many as the row has,
    an empty row with one empty cell: a row shorter than the widest row
    of its page is not filled up to its width ([maxCols] is computed at
    line 28 and not used).  Without pages, or without data, it shows the
    placeholder. *)
Theorem preview_rows_not_padded kv d :
  render (Some (kv :: d))
  = Tables (map (fun pageKey =>
                   (pageHeader pageKey,
                    map (fun row => match row with
                                    | [] => [[]]
                                    | _ :: _ => row
                                    end)
                        (rowsOf (kv :: d) pageKey)))
                (ExcelHelper.sortPages (map fst (kv :: d))))
  /\ render (Some []) = Placeholder
  /\ render None = Placeholder.
Proof.
  split; [|split; reflexivity].
  cbn [render]. f_equal. apply map_ext. intro pageKey. f_equal.
  apply map_ext. exact renderRow_cells.
Qed.

End Preview.
